(** * hw_12: a command-line address book

    A shallow embedding of [hw_12.py] (field validators, [Record],
    [AddressBook], the command handlers and the REPL driver) together with
    the properties of the program that its specification states.

    Conventions of the embedding.
    - A Python [str] is a [string]; each [ascii] is read as the code point
      of the same number, so the strings covered are those over code points
      0..255.  The character classes below ([isdigit], [lower], [isspace])
      are the Unicode ones restricted to that range.
    - Python integers are [Z].
    - A raised exception is a value of [exn]; a computation that may raise
      returns a [result].  Stateful code runs in the monad [M], which keeps
      the state reached when an exception is raised (Python never rolls
      back).
    - A Python [dict] is an association list in insertion order with unique
      keys. *)

From Stdlib Require Import ZArith Lia Ascii String List Bool.
From stdpp Require Import base tactics option list gmap strings fin_maps.

Local Open Scope string_scope.

(** ** Python built-ins used by the program *)

Module Py.

(** The exception classes that occur.  Only a [ValueError] carries its
    message here, because [str(e)] is taken of a [ValueError] alone (in the
    [add] handler).  The last two derive from [BaseException] and not from
    [Exception]: [pickle.load] runs what the file tells it to and so may
    raise them. *)
Inductive exn : Type :=
  | ValueError (msg : string)
  | KeyError
  | IndexError
  | AttributeError
  | TypeError
  | UnboundLocalError
  | FileNotFoundError
  | EOFError
  | UnpicklingError
  | SystemExit
  | KeyboardInterrupt.

(** [isinstance(e, Exception)]: what a clause [except Exception] takes. *)
Definition is_Exception (e : exn) : bool :=
  match e with
  | SystemExit | KeyboardInterrupt => false
  | _ => true
  end.

(** The outcome of a computation: a value, a raised exception, or
    [Unfinished] when the fuel given to a loop of the model ran out while
    the Python loop would still be running. *)
Inductive result (A : Type) : Type :=
  | Ok (a : A)
  | Raise (e : exn)
  | Unfinished.
Arguments Ok {A} a.
Arguments Raise {A} e.
Arguments Unfinished {A}.

Definition rbind {A B} (r : result A) (k : A -> result B) : result B :=
  match r with
  | Ok a => k a
  | Raise e => Raise e
  | Unfinished => Unfinished
  end.

Definition ord (c : ascii) : N := N_of_ascii c.
Definition chr (n : N) : ascii := ascii_of_N n.

(** [str.isdecimal] and [str.isdigit] on one character.  A digit in
    Python's sense has Numeric_Type Decimal or Digit: besides 0..9 the
    range holds the superscripts U+00B2, U+00B3 and U+00B9. *)
Definition isdecimal_char (c : ascii) : bool :=
  ((48 <=? ord c) && (ord c <=? 57))%N.

Definition isdigit_char (c : ascii) : bool :=
  (isdecimal_char c || (ord c =? 178) || (ord c =? 179) || (ord c =? 185))%N.

Fixpoint all_chars (p : ascii -> bool) (s : string) : bool :=
  match s with
  | EmptyString => true
  | String c s' => p c && all_chars p s'
  end.

(** [s.isdigit()]: every character is a digit and there is at least one. *)
Definition isdigit (s : string) : bool :=
  match s with
  | EmptyString => false
  | _ => all_chars isdigit_char s
  end.

(** [s.startswith(p)] *)
Definition startswith (s p : string) : bool := String.prefix p s.

(** [len(s)] *)
Definition len (s : string) : Z := Z.of_nat (String.length s).

(** [s[n:]] for a literal [n >= 0] *)
Fixpoint slice_from (n : nat) (s : string) : string :=
  match n, s with
  | O, _ => s
  | S n', String _ s' => slice_from n' s'
  | S _, EmptyString => EmptyString
  end.

(** [c.lower()] of one character: A..Z and the capital letters U+00C0 to
    U+00DE (without the sign U+00D7) move up by 32. *)
Definition lower_char (c : ascii) : ascii :=
  let n := ord c in
  if (((65 <=? n) && (n <=? 90)) ||
      ((192 <=? n) && (n <=? 222) && negb (n =? 215)))%N
  then chr (n + 32) else c.

Fixpoint lower (s : string) : string :=
  match s with
  | EmptyString => EmptyString
  | String c s' => String (lower_char c) (lower s')
  end.

(** [q in s] for strings: [q] occurs in [s] as a contiguous run. *)
Fixpoint contains (s q : string) : bool :=
  String.prefix q s ||
  match s with
  | EmptyString => false
  | String _ s' => contains s' q
  end.

(** [c.isspace()] *)
Definition isspace_char (c : ascii) : bool :=
  let n := ord c in
  (((9 <=? n) && (n <=? 13)) || ((28 <=? n) && (n <=? 32)) ||
   (n =? 133) || (n =? 160))%N.

(** [s.split()]: the maximal runs of characters that are not white space.
    [cur] is the run being read, reversed. *)
Fixpoint split_go (cur : list ascii) (s : string) : list string :=
  let flush :=
    match cur with
    | [] => []
    | _ => [string_of_list_ascii (rev cur)]
    end in
  match s with
  | EmptyString => flush
  | String c s' =>
      if isspace_char c then flush ++ split_go [] s'
      else split_go (c :: cur) s'
  end.

Definition split (s : string) : list string := split_go [] s.

(** The newline character as a string. *)
Definition nl : string := String (chr 10) "".

(** [sep.join(l)] *)
Fixpoint join (sep : string) (l : list string) : string :=
  match l with
  | [] => ""
  | [x] => x
  | x :: rest => x ++ sep ++ join sep rest
  end.

(** [l[i:j]] with Python's treatment of negative and out-of-range bounds. *)
Definition slice_bound (n i : Z) : Z :=
  let i' := if (i <? 0)%Z then (i + n)%Z else i in
  Z.max 0 (Z.min n i').

Definition slice {A} (l : list A) (i j : Z) : list A :=
  let n := Z.of_nat (length l) in
  let lo := slice_bound n i in
  let hi := slice_bound n j in
  take (Z.to_nat (hi - lo)) (drop (Z.to_nat lo) l).

(** [str(n)] of an integer *)
Fixpoint digits_of_pos (fuel : nat) (p : Z) (acc : string) : string :=
  match fuel with
  | O => acc
  | S fuel' =>
      let d := String (chr (Z.to_N (48 + p mod 10))) acc in
      if (p <? 10)%Z then d else digits_of_pos fuel' (p / 10)%Z d
  end.

Definition str_of_Z (n : Z) : string :=
  if (n <? 0)%Z
  then String "-" (digits_of_pos (Z.to_nat (Z.log2 (- n)) + 1) (- n) "")
  else digits_of_pos (Z.to_nat (Z.log2 n) + 1) n "".

(** The value handed to a field: [None] or a string. *)
Inductive pyval : Type :=
  | PNone
  | PStr (s : string).

(** Truth value of [None] or a string in an [if]. *)
Definition truthy (v : pyval) : bool :=
  match v with
  | PNone => false
  | PStr EmptyString => false
  | PStr _ => true
  end.

(** [str(v)] *)
Definition str_of_val (v : pyval) : string :=
  match v with
  | PNone => "None"
  | PStr s => s
  end.

(** The white space that [int] skips around a number: tab to carriage
    return, the space, U+0085 and U+00A0.  The separators U+001C to U+001F,
    which [str.isspace] holds to be white space, are not skipped. *)
Definition int_space_char (c : ascii) : bool :=
  let n := ord c in
  (((9 <=? n) && (n <=? 13)) || (n =? 32) || (n =? 133) || (n =? 160))%N.

Fixpoint lstrip (s : string) : string :=
  match s with
  | String c s' => if int_space_char c then lstrip s' else s
  | EmptyString => s
  end.

Definition strip (s : string) : string :=
  String.rev (lstrip (String.rev (lstrip s))).

(** [int(s)] of a string, base 10: white space around, an optional sign,
    then digits in which single underscores may separate digits.  More
    than 4300 digits are refused like any other malformed text. *)
Fixpoint int_digits (acc : Z) (count : nat) (after_digit : bool) (s : string)
  : option (Z * nat) :=
  match s with
  | EmptyString => if after_digit then Some (acc, count) else None
  | String c s' =>
      if isdecimal_char c
      then int_digits (10 * acc + (Z.of_N (ord c) - 48))%Z (S count) true s'
      else if Ascii.eqb c "_" && after_digit
      then int_digits acc count false s'
      else None
  end.

Definition int_max_str_digits : nat := 4300.

Definition int_unsigned (s : string) : result Z :=
  match int_digits 0 0 false s with
  | Some (n, count) =>
      if (int_max_str_digits <? count)%nat
      then Raise (ValueError "Exceeds the limit for integer string conversion")
      else Ok n
  | None => Raise (ValueError "invalid literal for int() with base 10")
  end.

Definition int (s : string) : result Z :=
  match strip s with
  | String "-" s' => rbind (int_unsigned s') (fun n => Ok (- n)%Z)
  | String "+" s' => int_unsigned s'
  | s' => int_unsigned s'
  end.

End Py.
Export Py.

(** ** The part of [datetime] the program uses *)

Module Datetime.

(** A [datetime.date]. *)
Record date : Type := mkdate { year : Z; month : Z; day : Z }.

Definition is_leap (y : Z) : bool :=
  ((y mod 4 =? 0) && (negb (y mod 100 =? 0) || (y mod 400 =? 0)))%Z.

Definition days_in_month (y m : Z) : Z :=
  if (m =? 2)%Z then (if is_leap y then 29 else 28)%Z
  else if ((m =? 4) || (m =? 6) || (m =? 9) || (m =? 11))%Z then 30%Z
  else 31%Z.

(** [date(y, m, d)] and [datetime(y, m, d).date()]: the constructor checks
    the ranges.  The texts of the library's [ValueError]s are shortened;
    the program never reads them. *)
Definition date_new (y m d : Z) : result date :=
  if negb ((1 <=? y) && (y <=? 9999))%Z
  then Raise (ValueError "year is out of range")
  else if negb ((1 <=? m) && (m <=? 12))%Z
  then Raise (ValueError "month must be in 1..12")
  else if negb ((1 <=? d) && (d <=? days_in_month y m))%Z
  then Raise (ValueError "day is out of range for month")
  else Ok (mkdate y m d).

(** [d.toordinal()]: the number of the day, 1 for 0001-01-01. *)
Definition days_before_year (y : Z) : Z :=
  let p := (y - 1)%Z in (p * 365 + p / 4 - p / 100 + p / 400)%Z.

Fixpoint days_before_month_go (y : Z) (k : nat) : Z :=
  match k with
  | O => 0%Z
  | S k' => (days_before_month_go y k' + days_in_month y (Z.of_nat k))%Z
  end.

Definition days_before_month (y m : Z) : Z :=
  days_before_month_go y (Z.to_nat (m - 1)).

Definition toordinal (d : date) : Z :=
  (days_before_year (year d) + days_before_month (year d) (month d) + day d)%Z.

(** [a < b] on dates *)
Definition date_ltb (a b : date) : bool := (toordinal a <? toordinal b)%Z.

(** *** [strptime] with the format [%d.%m.%Y]

    The library turns the format into a regular expression with one group
    for each directive and matches it at the start of the text, trying the
    alternatives of a group from left to right:
    - [%d] is [3[0-1]|[1-2]\d|0[1-9]|[1-9]| [1-9]],
    - [%m] is [1[0-2]|0[1-9]|[1-9]],
    - [%Y] is [\d\d\d\d].
    Text left over after the match, a year of 0 and a day the month does not
    have are each a [ValueError]. *)
Inductive re : Type :=
  | Chr (c : ascii)
  | Range (lo hi : ascii)
  | Seq (r1 r2 : re)
  | Alt (r1 r2 : re).

(** All ways in which [r] matches a prefix of [s], in the order in which a
    backtracking matcher tries them: the text matched and the rest. *)
Fixpoint re_match (r : re) (s : string) : list (string * string) :=
  match r with
  | Chr c =>
      match s with
      | String c' s' => if Ascii.eqb c c' then [(String c' "", s')] else []
      | EmptyString => []
      end
  | Range lo hi =>
      match s with
      | String c' s' =>
          if ((ord lo <=? ord c') && (ord c' <=? ord hi))%N
          then [(String c' "", s')] else []
      | EmptyString => []
      end
  | Seq r1 r2 =>
      flat_map (fun '(m1, rest1) =>
        map (fun '(m2, rest2) => (m1 ++ m2, rest2)) (re_match r2 rest1))
        (re_match r1 s)
  | Alt r1 r2 => re_match r1 s ++ re_match r2 s
  end.

Definition re_digit : re := Range "0" "9".

Definition re_d : re :=
  Alt (Seq (Chr "3") (Range "0" "1"))
 (Alt (Seq (Range "1" "2") re_digit)
 (Alt (Seq (Chr "0") (Range "1" "9"))
 (Alt (Range "1" "9")
      (Seq (Chr " ") (Range "1" "9"))))).

Definition re_m : re :=
  Alt (Seq (Chr "1") (Range "0" "2"))
 (Alt (Seq (Chr "0") (Range "1" "9"))
      (Range "1" "9")).

Definition re_Y : re := Seq re_digit (Seq re_digit (Seq re_digit re_digit)).

(** The groups of every match of the whole pattern, first match first. *)
Definition match_dmY (s : string) : list (string * string * string * string) :=
  flat_map (fun '(d, r1) =>
  flat_map (fun '(_, r2) =>
  flat_map (fun '(m, r3) =>
  flat_map (fun '(_, r4) =>
  map (fun '(y, r5) => (d, m, y, r5)) (re_match re_Y r4))
    (re_match (Chr ".") r3))
    (re_match re_m r2))
    (re_match (Chr ".") r1))
    (re_match re_d s).

(** [datetime.strptime(s, "%d.%m.%Y").date()] for a string [s] *)
Definition strptime_dmY (s : string) : result date :=
  match match_dmY s with
  | [] => Raise (ValueError "time data does not match format")
  | (d, m, y, rest) :: _ =>
      match rest with
      | String _ _ => Raise (ValueError "unconverted data remains")
      | EmptyString =>
          rbind (int y) (fun year =>
          rbind (int m) (fun month =>
          rbind (int d) (fun day =>
          date_new year month day)))
      end
  end.

(** The public attributes of the class [datetime.datetime], which is what
    the name [datetime] is bound to by [from datetime import datetime].
    (Names that begin with an underscore are left out.) *)
Definition datetime_class_attrs : list string :=
  [ "min"; "max"; "resolution";
    "today"; "now"; "utcnow"; "fromtimestamp"; "utcfromtimestamp";
    "fromordinal"; "combine"; "fromisoformat"; "fromisocalendar";
    "strptime"; "strftime";
    "year"; "month"; "day"; "hour"; "minute"; "second"; "microsecond";
    "tzinfo"; "fold";
    "date"; "time"; "timetz"; "replace"; "astimezone"; "utcoffset"; "dst";
    "tzname"; "timetuple"; "utctimetuple"; "toordinal"; "timestamp";
    "weekday"; "isoweekday"; "isocalendar"; "isoformat"; "ctime" ].

(** [datetime.<attr>]: the attribute found, by its name. *)
Definition datetime_class_getattr (attr : string) : result string :=
  if existsb (String.eqb attr) datetime_class_attrs
  then Ok attr else Raise AttributeError.

(** [<member>.strptime(v, "%d.%m.%Y")] for a member found on the class:
    [min] and [max] are [datetime] instances, through which the class
    method is reached; no other member has an attribute [strptime].  The
    method wants a string. *)
Definition strptime_val (v : pyval) : result date :=
  match v with
  | PStr s => strptime_dmY s
  | PNone => Raise TypeError
  end.

Definition member_strptime (member : string) (v : pyval) : result date :=
  if String.eqb member "min" || String.eqb member "max"
  then strptime_val v else Raise AttributeError.

End Datetime.
Export Datetime.

(** ** Field validators *)

Module Phone.

(** [Phone.is_valid_phone] *)
Definition is_valid_phone (phone : pyval) : bool :=
  match phone with
  | PStr (String _ _ as p) =>
      if negb (startswith p "+380") then false
      else if negb (len p =? 13)%Z then false
      else if negb (isdigit (slice_from 4 p)) then false
      else true
  | _ => true
  end.

End Phone.


Module Birthday.

(** [datetime.datetime.strptime(v, "%d.%m.%Y")] as the validator writes it:
    the attribute [datetime] is looked up on the class first. *)
Definition strptime_via_class_attr (v : pyval) : result date :=
  rbind (datetime_class_getattr "datetime") (fun member =>
    member_strptime member v).

(** [Birthday.is_valid_date]: [True] when the call returns, [False] when it
    raises [ValueError]; any other exception leaves the function. *)
Definition is_valid_date (birthday : pyval) : result bool :=
  match strptime_via_class_attr birthday with
  | Ok _ => Ok true
  | Raise (ValueError _) => Ok false
  | Raise e => Raise e
  | Unfinished => Unfinished
  end.

End Birthday.

(** ** Field objects *)

(** A [Phone] object.  [Phone] defines no [__eq__], so two phones are equal
    when they are the same object: [phone_id] is the identity of the object,
    given out by the constructor, and [phone_value] its [value], which is
    not changed after construction. *)
Record Phone : Type := mkPhone { phone_id : nat; phone_value : pyval }.

(** A [Name] object holds the string it was made from. *)
Record Name : Type := mkName { name_value : string }.

(** A [Birthday] object. *)
Record Birthday : Type := mkBirthday { birthday_value : pyval }.

(** [Birthday(value)]: the setter validates before it stores. *)
Definition Birthday_new (value : pyval) : result Birthday :=
  rbind (Birthday.is_valid_date value) (fun valid =>
    if negb valid then Raise (ValueError "Invalid date format")
    else Ok (mkBirthday value)).

Definition str_of_Phone (p : Phone) : string := str_of_val (phone_value p).
Definition str_of_Name (n : Name) : string := name_value n.

(** [p1 == p2] on phones: identity of the objects. *)
Definition Phone_eqb (p1 p2 : Phone) : bool :=
  Nat.eqb (phone_id p1) (phone_id p2).

(** ** Record *)

(** What [self.birthday] holds when it is not [None]: the [Birthday] object
    given to the constructor, or the date stored by [set_birthday]. *)
Inductive bday : Type :=
  | BdObject (b : Birthday)
  | BdDate (d : date).

Record record : Type := mkrecord {
  name : Name;
  phones : list Phone;
  birthday : option bday
}.

(** The argument of [set_birthday]: a string, or the [Birthday] object that
    the constructor passes on. *)
Inductive bd_arg : Type :=
  | ArgStr (s : string)
  | ArgBirthday (b : Birthday).

(** Equality of these values is decidable. *)
Global Instance pyval_eq_dec : EqDecision pyval.
Proof. solve_decision. Defined.
Global Instance Phone_eq_dec : EqDecision Phone.
Proof. solve_decision. Defined.
Global Instance Name_eq_dec : EqDecision Name.
Proof. solve_decision. Defined.
Global Instance Birthday_eq_dec : EqDecision Birthday.
Proof. solve_decision. Defined.
Global Instance date_eq_dec : EqDecision date.
Proof. solve_decision. Defined.
Global Instance bday_eq_dec : EqDecision bday.
Proof. solve_decision. Defined.
Global Instance record_eq_dec : EqDecision record.
Proof. solve_decision. Defined.

Module Rec.

(** A method of [Record]: from the record to a result and the record after
    the call. *)
Definition method (A : Type) : Type := record -> result A * record.

(** [phone in self.phones] *)
Definition phone_in (phone : Phone) (l : list Phone) : bool :=
  existsb (Phone_eqb phone) l.

(** [Record.add_phone] *)
Definition add_phone (phone : Phone) : method string := fun self =>
  if negb (phone_in phone (phones self))
  then (Ok ("Phone " ++ str_of_Phone phone ++ " added to contact "
              ++ str_of_Name (name self)),
        mkrecord (name self) (phones self ++ [phone]) (birthday self))
  else (Ok (str_of_Phone phone ++ " already added to "
              ++ str_of_Name (name self)), self).

(** [Record.remove_phone] *)
Definition remove_phone (phone : string) : method unit := fun self =>
  (Ok tt,
   mkrecord (name self)
     (List.filter (fun p => negb (String.eqb (str_of_Phone p) phone))
        (phones self))
     (birthday self)).

(** [Record.change_phone]: the first phone with the text of [old_phone] is
    replaced. *)
Fixpoint replace_first (old : string) (new_phone : Phone) (l : list Phone)
  : list Phone :=
  match l with
  | [] => []
  | p :: l' =>
      if String.eqb (str_of_Phone p) old then new_phone :: l'
      else p :: replace_first old new_phone l'
  end.

Definition change_phone (old_phone new_phone : Phone) : method unit :=
  fun self =>
  (Ok tt,
   mkrecord (name self)
     (replace_first (str_of_Phone old_phone) new_phone (phones self))
     (birthday self)).

(** [Record.set_birthday] *)
Definition set_birthday (birthday_arg : bd_arg) : method string := fun self =>
  let parsed :=
    match birthday_arg with
    | ArgStr s => strptime_dmY s
    | ArgBirthday _ => Raise TypeError
    end in
  match parsed with
  | Ok d =>
      (Ok ("Birthday set for " ++ str_of_Name (name self)),
       mkrecord (name self) (phones self) (Some (BdDate d)))
  | Raise (ValueError _) =>
      (Ok "Invalid birthday format. Please use dd.mm.yyyy format.", self)
  | Raise e => (Raise e, self)
  | Unfinished => (Unfinished, self)
  end.

(** [Record.__init__] *)
Definition init (name : Name) (phone : option Phone)
    (birthday : option Birthday) : result record :=
  let self := mkrecord name [] (option_map BdObject birthday) in
  let self :=
    match phone with
    | Some p => snd (add_phone p self)
    | None => self
    end in
  match birthday with
  | Some b =>
      match set_birthday (ArgBirthday b) self with
      | (Ok _, self') => Ok self'
      | (Raise e, _) => Raise e
      | (Unfinished, _) => Unfinished
      end
  | None => Ok self
  end.

(** [Record.days_to_birthday], given the date [datetime.now().date()] *)
Definition days_to_birthday (current_date : date) (self : record)
  : result string :=
  match birthday self with
  | None => Ok "Birthday not set"
  | Some (BdObject _) => Raise AttributeError
  | Some (BdDate bd) =>
      rbind (date_new (year current_date) (month bd) (day bd))
        (fun next_birthday =>
      rbind (if date_ltb next_birthday current_date
             then date_new (year current_date + 1) (month bd) (day bd)
             else Ok next_birthday) (fun next_birthday =>
      let days_to_bd :=
        (toordinal next_birthday - toordinal current_date)%Z in
      Ok ("Days to next birthday for " ++ str_of_Name (name self) ++ ": "
            ++ str_of_Z days_to_bd)))
  end.

(** [Record.__str__] *)
Definition str (self : record) : string :=
  "Name: " ++ str_of_Name (name self) ++ ", Phones: "
    ++ join ", " (map str_of_Phone (phones self)).

(** [getattr(record, attr)] for the public names: the instance attributes
    and the methods. *)
Inductive attr_value : Type :=
  | AttrName (n : Name)
  | AttrPhones (l : list Phone)
  | AttrBirthday (b : option bday)
  | AttrMethod (m : string).

Definition getattr (self : record) (attr : string) : result attr_value :=
  if String.eqb attr "name" then Ok (AttrName (name self))
  else if String.eqb attr "phones" then Ok (AttrPhones (phones self))
  else if String.eqb attr "birthday" then Ok (AttrBirthday (birthday self))
  else if existsb (String.eqb attr)
            ["add_phone"; "remove_phone"; "change_phone"; "set_birthday";
             "days_to_birthday"]
  then Ok (AttrMethod attr)
  else Raise AttributeError.

End Rec.

(** ** Dictionaries *)

Module Dict.

Definition dict (V : Type) : Type := list (string * V).

Fixpoint get {V} (d : dict V) (k : string) : option V :=
  match d with
  | [] => None
  | (k', v) :: d' => if String.eqb k' k then Some v else get d' k
  end.

(** [d[k] = v]: an existing key keeps its place, a new one goes last. *)
Fixpoint set {V} (d : dict V) (k : string) (v : V) : dict V :=
  match d with
  | [] => [(k, v)]
  | (k', v') :: d' =>
      if String.eqb k' k then (k', v) :: d' else (k', v') :: set d' k v
  end.

(** [del d[k]]; [None] stands for the [KeyError] of a missing key. *)
Fixpoint del {V} (d : dict V) (k : string) : option (dict V) :=
  match d with
  | [] => None
  | (k', v') :: d' =>
      if String.eqb k' k then Some d'
      else option_map (cons (k', v')) (del d' k)
  end.

Definition keys {V} (d : dict V) : list string := map fst d.
Definition values {V} (d : dict V) : list V := map snd d.

End Dict.
Export Dict.

(** ** The state of a run *)

(** [ab_data] is [ab.data] of the one [AddressBook] of the process, [files]
    the file system (path to content), [stdin] the lines still to be read,
    [stdout] what was written, [next_id] the identity of the next object and
    [today] the date the clock shows.  Record objects are reached through
    [ab.data] only, so a method call on a record found there is an update of
    its entry. *)
Record world : Type := mkworld {
  ab_data : dict record;
  files : gmap string string;
  stdin : list string;
  stdout : list string;
  next_id : nat;
  today : date
}.

Definition with_data (d : dict record) (w : world) : world :=
  mkworld d (files w) (stdin w) (stdout w) (next_id w) (today w).
Definition with_files (f : gmap string string) (w : world) : world :=
  mkworld (ab_data w) f (stdin w) (stdout w) (next_id w) (today w).
Definition with_stdin (l : list string) (w : world) : world :=
  mkworld (ab_data w) (files w) l (stdout w) (next_id w) (today w).
Definition with_stdout (l : list string) (w : world) : world :=
  mkworld (ab_data w) (files w) (stdin w) l (next_id w) (today w).
Definition with_next_id (n : nat) (w : world) : world :=
  mkworld (ab_data w) (files w) (stdin w) (stdout w) n (today w).

(** Stateful code: a result and the state after, also when it raises. *)
Definition M (A : Type) : Type := world -> result A * world.

Definition ret {A} (a : A) : M A := fun w => (Ok a, w).

Definition bind {A B} (c : M A) (k : A -> M B) : M B := fun w =>
  match c w with
  | (Ok a, w') => k a w'
  | (Raise e, w') => (Raise e, w')
  | (Unfinished, w') => (Unfinished, w')
  end.

Definition raise {A} (e : exn) : M A := fun w => (Raise e, w).

Definition lift {A} (r : result A) : M A := fun w => (r, w).

(** [try: c  except ...: h e]; [h e = None] when no clause takes [e]. *)
Definition try_except {A} (c : M A) (h : exn -> option (M A)) : M A := fun w =>
  match c w with
  | (Raise e, w') =>
      match h e with
      | Some handler => handler w'
      | None => (Raise e, w')
      end
  | other => other
  end.

Global Instance M_ret : MRet M := @ret.
Global Instance M_bind : MBind M := fun A B k c => bind c k.

Definition get_world : M world := fun w => (Ok w, w).
Definition modify (f : world -> world) : M unit := fun w => (Ok tt, f w).

(** [print(s)] *)
Definition print (s : string) : M unit :=
  modify (fun w => with_stdout (stdout w ++ [s ++ nl]) w).

(** [input(prompt)]: the prompt is written, a line is read; at the end of
    the input [EOFError]. *)
Definition input (prompt : string) : M string := fun w =>
  let w' := with_stdout (stdout w ++ [prompt]) w in
  match stdin w with
  | [] => (Raise EOFError, w')
  | line :: rest => (Ok line, with_stdin rest w')
  end.

(** [Phone(value)]: a new object, whose [value] the setter validates. *)
Definition Phone_new (value : pyval) : M Phone :=
  w ← get_world;
  modify (with_next_id (S (next_id w)));;
  if negb (Phone.is_valid_phone value)
  then raise (ValueError "Invalid phone number format")
  else mret (mkPhone (next_id w) value).

(** A call of a [Record] method on the record that [ab.data] holds under
    [key]. *)
Definition on_record {A} (key : string) (r : record) (m : Rec.method A)
  : M A := fun w =>
  let '(res, r') := m r in
  (res, with_data (Dict.set (ab_data w) key r') w).

(** ** AddressBook *)

Module AddressBook.

(** [AddressBook.add_record] *)
Definition add_record (r : record) : M unit :=
  modify (fun w => with_data (Dict.set (ab_data w) (str_of_Name (name r)) r) w).

(** [AddressBook.remove_record] *)
Definition remove_record (name : string) : M string :=
  w ← get_world;
  match Dict.del (ab_data w) name with
  | None => raise KeyError
  | Some d => modify (with_data d);; mret (name ++ " record deleted")
  end.

(** [AddressBook.search_by_name] *)
Definition search_by_name (data : dict record) (name_ : string)
  : list record :=
  List.filter (fun r => String.eqb (str_of_Name (name r)) name_)
    (Dict.values data).

(** The places in [ab.data] of the records that [search_by_name] finds. *)
Fixpoint refs_by_name (data : dict record) (name_ : string) (i : nat)
  : list nat :=
  match data with
  | [] => []
  | (_, r) :: data' =>
      if String.eqb (str_of_Name (name r)) name_
      then i :: refs_by_name data' name_ (S i)
      else refs_by_name data' name_ (S i)
  end.

(** [AddressBook.change_phone_by_name]: each record found is changed in
    turn; [result.phones[0]] is read before the new [Phone] is made. *)
Fixpoint change_phone_at (refs : list nat) (new_phone : string) : M unit :=
  match refs with
  | [] => mret tt
  | i :: refs' =>
      w ← get_world;
      match ab_data w !! i with
      | None => mret tt
      | Some (k, r) =>
          match phones r with
          | [] => raise IndexError
          | first :: _ =>
              p ← Phone_new (PStr new_phone);
              modify (fun w =>
                with_data
                  (<[i := (k, snd (Rec.change_phone first p r))]> (ab_data w))
                  w);;
              change_phone_at refs' new_phone
          end
      end
  end.

Definition change_phone_by_name (name_ new_phone : string) : M unit :=
  w ← get_world;
  change_phone_at (refs_by_name (ab_data w) name_ 0) new_phone.

(** [AddressBook.__str__] *)
Definition str (data : dict record) : string :=
  join nl (map Rec.str (Dict.values data)).

(** [AddressBook.search] *)
Definition search (data : dict record) (query : string) : list record :=
  let query := lower query in
  flat_map (fun r =>
    if contains (lower (str_of_Name (name r))) query then [r]
    else flat_map (fun phone =>
           if contains (lower (str_of_Phone phone)) query then [r] else [])
         (phones r))
    (Dict.values data).

(** *** The generator [AddressBook.iterator]

    The body of a generator runs when it is resumed; [gen] is the frame of
    a suspended call: where it stands and its local variables, an unbound
    one being [None]. *)
Inductive gen_pc : Type :=
  | AtStart            (* not started *)
  | AtYieldAll         (* suspended at [yield records] *)
  | AtYieldChunk       (* suspended at the [yield] in the loop *)
  | Finished.

Record gen : Type := mkgen {
  pc : gen_pc;
  n : option Z;                    (* the argument, [None] by default *)
  records : list record;
  total_records : option Z;
  current_index : option Z
}.

Inductive gen_out : Type :=
  | Yield (chunk : list record)
  | StopIteration
  | GenRaise (e : exn).

(** [ab.iterator(n)] *)
Definition iterator (n : option Z) : gen := mkgen AtStart n [] None None.

Definition finish (g : gen) : gen :=
  mkgen Finished (n g) (records g) (total_records g) (current_index g).

(** The test of the [while] and the [yield] in its body.  Reading an
    unbound local raises [UnboundLocalError]. *)
Definition loop_head (g : gen) : gen_out * gen :=
  match current_index g, total_records g with
  | Some i, Some total =>
      if (i <? total)%Z then
        match n g with
        | Some n_ =>
            (Yield (slice (records g) i (i + n_)),
             mkgen AtYieldChunk (n g) (records g) (total_records g)
               (current_index g))
        | None => (GenRaise TypeError, finish g)
        end
      else (StopIteration, finish g)
  | _, _ => (GenRaise UnboundLocalError, finish g)
  end.

(** [next(g)], with [data] the [ab.data] of the moment. *)
Definition next (data : dict record) (g : gen) : gen_out * gen :=
  match pc g with
  | AtStart =>
      let records := Dict.values data in
      match n g with
      | None => (Yield records, mkgen AtYieldAll None records None None)
      | Some _ =>
          loop_head
            (mkgen AtStart (n g) records
               (Some (Z.of_nat (length records))) (Some 0%Z))
      end
  | AtYieldAll => loop_head g
  | AtYieldChunk =>
      match current_index g, n g with
      | Some i, Some n_ =>
          loop_head
            (mkgen AtYieldChunk (n g) (records g) (total_records g)
               (Some (i + n_)%Z))
      | None, _ => (GenRaise UnboundLocalError, finish g)
      | Some _, None => (GenRaise TypeError, finish g)
      end
  | Finished => (StopIteration, g)
  end.

(** [list(g)] cut off after [fuel] steps: the chunks yielded, and how the
    iteration ended ([None] while it has not). *)
Fixpoint drain (fuel : nat) (data : dict record) (g : gen)
  : list (list record) * option gen_out :=
  match fuel with
  | O => ([], None)
  | S fuel' =>
      match next data g with
      | (Yield chunk, g') =>
          let '(chunks, last) := drain fuel' data g' in
          (chunk :: chunks, last)
      | (out, _) => ([], Some out)
      end
  end.

(** [AddressBook.show_all] *)
Fixpoint show_all_loop (fuel : nat) (n : option Z) (g : gen) : M unit :=
  match fuel with
  | O => lift Unfinished
  | S fuel' =>
      w ← get_world;
      match next (ab_data w) g with
      | (Yield chunk, g') =>
          print (join nl (map Rec.str chunk));;
          match n with
          | None => mret tt
          | Some n_ =>
              if (Z.of_nat (length chunk) <? n_)%Z then mret tt
              else show_all_loop fuel' n g'
          end
      | (StopIteration, _) => mret tt
      | (GenRaise e, _) => raise e
      end
  end.

Definition show_all (fuel : nat) (n : option Z) : M unit :=
  show_all_loop fuel n (iterator n).

(** [open(file, 'w')] followed by one [write]: the file is made or
    replaced. *)
Definition write_file (file content : string) : M unit :=
  modify (fun w => with_files (<[file := content]> (files w)) w).

End AddressBook.

(** ** The [csv] writer with its default dialect *)

Module Csv.

Definition quotechar : ascii := chr 34.
Definition delimiter : ascii := ",".
Definition lineterminator : string := String (chr 13) nl.

(** A field is quoted when it holds the delimiter, the quote character or a
    character of the line terminator. *)
Definition special (c : ascii) : bool :=
  Ascii.eqb c delimiter || Ascii.eqb c quotechar ||
  Ascii.eqb c (chr 13) || Ascii.eqb c (chr 10).

Fixpoint has_special (field : string) : bool :=
  match field with
  | EmptyString => false
  | String c s => special c || has_special s
  end.

(** Quote characters are doubled. *)
Fixpoint double_quotes (field : string) : string :=
  match field with
  | EmptyString => EmptyString
  | String c s =>
      if Ascii.eqb c quotechar then String c (String c (double_quotes s))
      else String c (double_quotes s)
  end.

Definition format_field (field : string) : string :=
  if has_special field
  then String quotechar (double_quotes field ++ String quotechar "")
  else field.

(** [writer.writerow(fields)]: the text written.  A row of one empty field
    is written as an empty quoted field. *)
Definition writerow (fields : list string) : string :=
  match fields with
  | [EmptyString] => String quotechar (String quotechar lineterminator)
  | _ => join (String delimiter "") (map format_field fields) ++ lineterminator
  end.

End Csv.

(** ** Persistence *)

(** [pickle.dumps] and [pickle.loads] on the values of [ab.data].  Loading
    makes new objects, so it is given the next free identity and returns
    the one after; it raises on bytes that are no pickle. *)
Class Pickle : Type := {
  pickle_dumps : dict record -> string;
  pickle_loads : string -> nat -> result (dict record * nat)
}.

(** What a record holds, without the identities of its objects. *)
Definition record_content (r : record)
  : string * list pyval * option bday :=
  (str_of_Name (name r), map phone_value (phones r), birthday r).

Definition book_content (d : dict record)
  : list (string * (string * list pyval * option bday)) :=
  map (fun kr => (fst kr, record_content (snd kr))) d.

(** The contract of [pickle]: what was dumped is loaded again, up to the
    identities of the objects. *)
Class PickleRoundTrip (P : Pickle) : Prop :=
  pickle_round_trip : forall (d : dict record) (next : nat),
    exists d' next',
      pickle_loads (pickle_dumps d) next = Ok (d', next') /\
      book_content d' = book_content d.

Module Persist.
Import AddressBook.

Section WithPickle.
Context {P : Pickle}.

(** [AddressBook.load] *)
Definition load (file : string) : M unit :=
  try_except
    (w ← get_world;
     match files w !! file with
     | None => raise FileNotFoundError
     | Some bytes =>
         loaded ← lift (pickle_loads bytes (next_id w));
         modify (with_next_id (snd loaded));;
         modify (with_data (fst loaded))
     end)
    (fun e =>
       match e with
       | FileNotFoundError => Some (modify (with_data []))
       | _ => None
       end).

(** [AddressBook.save] *)
Definition save (file : string) : M unit :=
  w ← get_world;
  write_file file (pickle_dumps (ab_data w)).

End WithPickle.

(** [AddressBook.save_csv]: [writerow] is given the dictionary, which it
    iterates, that is, its keys. *)
Definition save_csv (file : string) : M unit :=
  w ← get_world;
  write_file file (Csv.writerow (Dict.keys (ab_data w))).

End Persist.

(** ** The command layer *)

Module Commands.
Import AddressBook.

(** [help] *)
Definition help : string :=
  "Available commands:" ++ nl ++
  "- hello" ++ nl ++
  "- add [name] [phone in format +380xxxxxxx]" ++ nl ++
  "- change [name] [phone]" ++ nl ++
  "- find [name]" ++ nl ++
  "- show_all" ++ nl ++
  "- show" ++ nl ++
  "- birthday [name] [date in format dd.mm.yyyy]" ++ nl ++
  "- days_to_bd [name]" ++ nl ++
  "- help " ++ nl ++
  "- del [name] " ++ nl ++
  "- search [string] (>3 symbols) " ++ nl ++
  "- bye, close, exit".

(** The [except] clauses of the wrapper made by [input_error]; the last
    one is [except Exception]. *)
Definition error_message (e : exn) : string :=
  match e with
  | KeyError => "contact not found"
  | ValueError _ => "invalid format, type help"
  | IndexError => "Invalid input"
  | _ => help
  end.

(** The wrapper made by [input_error], with the call of the wrapped function as [call] *)
Definition input_error (call : M string) : M string :=
  try_except call
    (fun e => if is_Exception e then Some (mret (error_message e)) else None).

(** [add]; it is not wrapped. *)
Definition add (name_ : string) (phone birthday : pyval) : M string :=
  try_except
    (w ← get_world;
     match Dict.get (ab_data w) name_ with
     | Some record =>
         attr ← lift (Rec.getattr record "phone");
         existing_phones ←
           match attr with
           | Rec.AttrPhones l => mret (map str_of_Phone l)
           | _ => raise TypeError
           end;
         if match phone with
            | PStr s => existsb (String.eqb s) existing_phones
            | PNone => false
            end
         then mret (str_of_val phone ++ " already added to " ++ name_)
         else
           new_phone ← Phone_new phone;
           on_record name_ record (Rec.add_phone new_phone)
     | None =>
         let name_field := mkName name_ in
         phone_field ← Phone_new phone;
         birthday_field ←
           (if truthy birthday
            then b ← lift (Birthday_new birthday); mret (Some b)
            else mret None);
         record ← lift (Rec.init name_field (Some phone_field) birthday_field);
         add_record record;;
         mret ("Contact " ++ name_ ++ " add success")
     end)
    (fun e =>
       match e with
       | ValueError msg => Some (mret msg)
       | _ => None
       end).

(** [find] *)
Definition find (name_ : string) : M string :=
  w ← get_world;
  match search_by_name (ab_data w) name_ with
  | r :: _ => mret (Rec.str r)
  | [] => raise KeyError
  end.

(** [change] *)
Definition change (name_ new_phone : string) : M string :=
  w ← get_world;
  match Dict.get (ab_data w) name_ with
  | Some _ =>
      change_phone_by_name name_ new_phone;;
      mret ("phone number for " ++ name_ ++ " updated")
  | None => mret ("no " ++ name_ ++ " in contacts")
  end.

(** [show_all]: with an argument the pages are printed one at a time and
    the user is asked after each. *)
Fixpoint show_pages (fuel : nat) (g : gen) : M unit :=
  match fuel with
  | O => lift Unfinished
  | S fuel' =>
      w ← get_world;
      match next (ab_data w) g with
      | (Yield chunk, g') =>
          mapM (fun r => print (Rec.str r)) chunk;;
          choice ← input "Press Enter to continue or 'q' to quit: ";
          if String.eqb (lower choice) "q" then mret tt
          else show_pages fuel' g'
      | (StopIteration, _) => mret tt
      | (GenRaise e, _) => raise e
      end
  end.

Definition show_all (fuel : nat) (args : list string) : M string :=
  match args with
  | arg :: _ =>
      n ← lift (int arg);
      show_pages fuel (iterator (Some n))
  | [] => AddressBook.show_all fuel None
  end;;
  mret "".

(** [set_birthday] *)
Definition set_birthday (name_ birthday : string) : M string :=
  w ← get_world;
  match Dict.get (ab_data w) name_ with
  | Some rec => on_record name_ rec (Rec.set_birthday (ArgStr birthday))
  | None => mret ("No " ++ name_ ++ " in contacts")
  end.

(** [days_to_birthday] *)
Definition days_to_birthday (name_ : string) : M string :=
  w ← get_world;
  match Dict.get (ab_data w) name_ with
  | Some rec => lift (Rec.days_to_birthday (today w) rec)
  | None => mret ("No " ++ name_ ++ " in contacts")
  end.

(** [no_command] *)
Definition no_command : M string :=
  mret (" - not valid command entered" ++ nl
          ++ " - type 'help' for commands").

(** [hello] and [close] *)
Definition hello : M string := mret "How can I help you?".
Definition close : M string := mret "Good bye!".

(** [remove] *)
Definition remove (name_ : string) : M string :=
  w ← get_world;
  match Dict.get (ab_data w) name_ with
  | Some _ => remove_record name_
  | None => mret ("No " ++ name_ ++ " in contacts")
  end.

(** [search] *)
Definition search (args : list string) : M string :=
  match args with
  | [query] =>
      if (3 <=? len query)%Z then
        w ← get_world;
        match AddressBook.search (ab_data w) query with
        | [] => mret "No result found by your search"
        | results => mret (join nl (map Rec.str results))
        end
      else mret "Invalid search, try 3 symbols or more after search command"
  | _ => mret "Invalid search, try 3 symbols or more after search command"
  end.

(** The functions the table [commands] names. *)
Inductive handler : Type :=
  | h_hello | h_add | h_change | h_find | h_show_all | h_help | h_close
  | h_set_birthday | h_days_to_birthday | h_search | h_remove | h_no_command.

Definition handler_eqb (a b : handler) : bool :=
  match a, b with
  | h_hello, h_hello | h_add, h_add | h_change, h_change | h_find, h_find
  | h_show_all, h_show_all | h_help, h_help | h_close, h_close
  | h_set_birthday, h_set_birthday | h_days_to_birthday, h_days_to_birthday
  | h_search, h_search | h_remove, h_remove | h_no_command, h_no_command =>
      true
  | _, _ => false
  end.

Definition commands : dict handler :=
  [ ("hello", h_hello); ("hi", h_hello); ("add", h_add); ("+", h_add);
    ("change", h_change); ("find", h_find); ("show_all", h_show_all);
    ("show", h_show_all); ("help", h_help); ("bye", h_close);
    ("close", h_close); ("exit", h_close); ("birthday", h_set_birthday);
    ("days_to_bd", h_days_to_birthday); ("search", h_search);
    ("del", h_remove) ].

(** The call of the function itself on [args]: arguments that do not fit its
    parameters are a [TypeError]. *)
Definition apply (fuel : nat) (h : handler) (args : list string) : M string :=
  match h, args with
  | h_hello, [] => hello
  | h_add, [name_] => add name_ PNone PNone
  | h_add, [name_; phone] => add name_ (PStr phone) PNone
  | h_add, [name_; phone; birthday] => add name_ (PStr phone) (PStr birthday)
  | h_change, [name_; new_phone] => change name_ new_phone
  | h_find, [name_] => find name_
  | h_show_all, _ => show_all fuel args
  | h_help, [] => mret help
  | h_close, [] => close
  | h_set_birthday, [name_; birthday] => set_birthday name_ birthday
  | h_days_to_birthday, [name_] => days_to_birthday name_
  | h_search, _ => search args
  | h_remove, [name_] => remove name_
  | h_no_command, _ => no_command
  | _, _ => raise TypeError
  end.

(** The call of an entry of the table on [args]: every function but [add]
    and [help] is bound to its wrapper. *)
Definition wrapped (h : handler) : bool :=
  match h with
  | h_add | h_help => false
  | _ => true
  end.

Definition call (fuel : nat) (h : handler) (args : list string) : M string :=
  if wrapped h then input_error (apply fuel h args) else apply fuel h args.

(** [parser], which is wrapped too: what it returns is the pair or, after
    an exception, the message of the wrapper. *)
Definition parser_body (text : string) : result (handler * list string) :=
  let text_lower := lower text in
  let words := split text_lower in
  match words with
  | [] => Raise IndexError
  | first :: rest =>
      match Dict.get commands first with
      | Some command => Ok (command, rest)
      | None => Ok (h_no_command, [])
      end
  end.

Inductive parsed : Type :=
  | Pair (command : handler) (args : list string)
  | Message (s : string).

Definition parser (text : string) : parsed :=
  match parser_body text with
  | Ok (command, args) => Pair command args
  | Raise e => Message (error_message e)
  | Unfinished => Message help
  end.

End Commands.

(** ** The REPL driver *)

Module Driver.
Import Commands Persist.

Section WithPickle.
Context {P : Pickle}.

(** The [while True] loop of [main]. *)
Fixpoint repl (fuel : nat) : M unit :=
  match fuel with
  | O => lift Unfinished
  | S fuel' =>
      user_input ← input ">>>";
      match parser user_input with
      | Message s =>
          (* [command, data = s]: a string of two characters unpacks, and
             calling a string fails *)
          if Nat.eqb (String.length s) 2 then raise TypeError
          else raise (ValueError "wrong number of values to unpack")
      | Pair command data =>
          if handler_eqb command h_close then
            save "ab.bin";;
            save_csv "ab.csv"
          else
            result ← call fuel command data;
            print result;;
            repl fuel'
      end
  end.

(** The handler of the outer [try] of [main]; the text is no f-string. *)
Definition report (e : exn) : M unit := print "Error {e}".

(** [main] *)
Definition main (fuel : nat) : M unit :=
  try_except
    (try_except (load "ab.bin")
       (fun e =>
          match e with
          | FileNotFoundError => Some (print "no file to load")
          | _ => None
          end);;
     repl fuel)
    (fun e => if is_Exception e then Some (report e) else None).

End WithPickle.

End Driver.

(** ** A serializer to run examples with

    The byte format of [pickle] is not modelled; the theorems about
    persistence hold for every [Pickle] that keeps its contract.  To run
    the program on concrete input there is this one: the book is numbered
    by [encode] and the number written in binary, and loading gives the
    objects the identities from the next free one on. *)

Module BitPickle.

Global Instance pyval_countable : Countable pyval :=
  inj_countable'
    (fun v => match v with PNone => None | PStr s => Some s end)
    (fun o => match o with None => PNone | Some s => PStr s end)
    ltac:(by intros []).
Global Instance Phone_countable : Countable Phone :=
  inj_countable' (fun p => (phone_id p, phone_value p))
    (fun t => mkPhone (fst t) (snd t)) ltac:(by intros []).
Global Instance Name_countable : Countable Name :=
  inj_countable' name_value mkName ltac:(by intros []).
Global Instance Birthday_countable : Countable Birthday :=
  inj_countable' birthday_value mkBirthday ltac:(by intros []).
Global Instance date_countable : Countable date :=
  inj_countable' (fun d => (year d, month d, day d))
    (fun t => mkdate (fst (fst t)) (snd (fst t)) (snd t)) ltac:(by intros []).
Global Instance bday_countable : Countable bday :=
  inj_countable'
    (fun b => match b with BdObject o => inl o | BdDate d => inr d end)
    (fun s => match s with inl o => BdObject o | inr d => BdDate d end)
    ltac:(by intros []).
Global Instance record_countable : Countable record :=
  inj_countable' (fun r => (name r, phones r, birthday r))
    (fun t => mkrecord (fst (fst t)) (snd (fst t)) (snd t))
    ltac:(by intros []).

Fixpoint bits_of_pos (p : positive) : string :=
  match p with
  | xH => EmptyString
  | xO p' => String "0" (bits_of_pos p')
  | xI p' => String "1" (bits_of_pos p')
  end.

Fixpoint pos_of_bits (s : string) : option positive :=
  match s with
  | EmptyString => Some xH
  | String c s' =>
      match pos_of_bits s' with
      | Some p =>
          if Ascii.eqb c "0" then Some (xO p)
          else if Ascii.eqb c "1" then Some (xI p)
          else None
      | None => None
      end
  end.

Definition shift_phone (k : nat) (p : Phone) : Phone :=
  mkPhone (k + phone_id p) (phone_value p).
Definition shift_record (k : nat) (r : record) : record :=
  mkrecord (name r) (map (shift_phone k) (phones r)) (birthday r).
Definition shift_book (k : nat) (d : dict record) : dict record :=
  map (fun kr => (fst kr, shift_record k (snd kr))) d.

Definition max_id (d : dict record) : nat :=
  foldr Nat.max 0
    (flat_map (fun kr => map phone_id (phones (snd kr))) d).

Definition dumps (d : dict record) : string := bits_of_pos (encode d).

Definition loads (bytes : string) (next : nat)
  : result (dict record * nat) :=
  match pos_of_bits bytes with
  | Some p =>
      match decode p with
      | Some d => Ok (shift_book next d, next + S (max_id d))
      | None => Raise UnpicklingError
      end
  | None => Raise UnpicklingError
  end.

Definition bit_pickle : Pickle :=
  {| pickle_dumps := dumps; pickle_loads := loads |}.

End BitPickle.

(** ** Pages

    What the specification expects of [iterator(n)]: the records cut into
    runs of [n], the last one shorter when the number of records is no
    multiple of [n]. *)
Fixpoint pages_go {A} (fuel n : nat) (l : list A) : list (list A) :=
  match fuel, l with
  | _, [] => []
  | O, _ => []
  | S fuel', _ => take n l :: pages_go fuel' n (drop n l)
  end.

Definition pages {A} (n : nat) (l : list A) : list (list A) :=
  pages_go (length l) n l.

(** ** Substrings

    [q] occurs in [s]: the relation that [q in s] decides. *)
Definition substring (q s : string) : Prop :=
  exists a b : string, s = a ++ q ++ b.

(** ** Notions used in the statements about [main] *)

(** The state after [input(">>>")] has read a line, [rest] being the lines
    that remain. *)
Definition after_input (rest : list string) (w : world) : world :=
  with_stdin rest (with_stdout (stdout w ++ [">>>"]) w).

(** ** What [search] looks for

    The lower-cased query occurs in the lower-cased name of the record, or
    in the lower-cased text of one of its phones. *)
Definition name_matches (query : string) (r : record) : Prop :=
  substring (lower query) (lower (str_of_Name (name r))).

Definition phone_matches (query : string) (r : record) : Prop :=
  exists p : Phone,
    In p (phones r) /\ substring (lower query) (lower (str_of_Phone p)).

(** ** Dates written as [dd.mm.yyyy] *)

Definition digit_char (n : Z) : ascii := chr (Z.to_N (48 + n)).

Definition two_digits (n : Z) : string :=
  String (digit_char (n / 10)) (String (digit_char (n mod 10)) "").

Definition four_digits (n : Z) : string :=
  String (digit_char (n / 1000))
    (String (digit_char (n / 100 mod 10))
       (String (digit_char (n / 10 mod 10))
          (String (digit_char (n mod 10)) ""))).

Definition dmY_text (d m y : Z) : string :=
  two_digits d ++ "." ++ two_digits m ++ "." ++ four_digits y.

(** The text begins with a decimal digit. *)
Definition starts_with_digit (s : string) : bool :=
  match s with
  | String c _ => isdecimal_char c
  | EmptyString => false
  end.

(** *** The texts that [set_birthday] takes for a date

    Read without the matcher of the library: the text is cut at its first
    two dots into a day, a month and a year.  A day is two digits from 01
    to 31, one digit from 1 to 9, or a space and one digit from 1 to 9; a
    month is two digits from 01 to 12 or one digit from 1 to 9; a year is
    four digits and not 0000; and the month has the day. *)
Definition digit_value (c : ascii) : Z := (Z.of_N (ord c) - 48)%Z.

Definition nonzero_digit (c : ascii) : bool :=
  ((49 <=? ord c) && (ord c <=? 57))%N.

Definition day_of_text (s : string) : option Z :=
  match s with
  | String c "" => if nonzero_digit c then Some (digit_value c) else None
  | String a (String b "") =>
      if Ascii.eqb a " "
      then (if nonzero_digit b then Some (digit_value b) else None)
      else if isdecimal_char a && isdecimal_char b
      then
        let v := (10 * digit_value a + digit_value b)%Z in
        if ((1 <=? v) && (v <=? 31))%Z then Some v else None
      else None
  | _ => None
  end.

Definition month_of_text (s : string) : option Z :=
  match s with
  | String c "" => if nonzero_digit c then Some (digit_value c) else None
  | String a (String b "") =>
      if isdecimal_char a && isdecimal_char b
      then
        let v := (10 * digit_value a + digit_value b)%Z in
        if ((1 <=? v) && (v <=? 12))%Z then Some v else None
      else None
  | _ => None
  end.

Definition year_of_text (s : string) : option Z :=
  match s with
  | String a (String b (String c (String e ""))) =>
      if isdecimal_char a && isdecimal_char b && isdecimal_char c
         && isdecimal_char e
      then Some (1000 * digit_value a + 100 * digit_value b
                 + 10 * digit_value c + digit_value e)%Z
      else None
  | _ => None
  end.

(** The text before the first dot and the text after it. *)
Fixpoint cut_at_dot (s : string) : option (string * string) :=
  match s with
  | EmptyString => None
  | String c s' =>
      if Ascii.eqb c "."
      then Some (EmptyString, s')
      else
        match cut_at_dot s' with
        | Some (before, after) => Some (String c before, after)
        | None => None
        end
  end.

Definition date_of_text (text : string) : option date :=
  match cut_at_dot text with
  | None => None
  | Some (D, rest) =>
      match cut_at_dot rest with
      | None => None
      | Some (M, Y) =>
          match day_of_text D, month_of_text M, year_of_text Y with
          | Some d, Some m, Some y =>
              if ((1 <=? y) && (d <=? days_in_month y m))%Z
              then Some (mkdate y m d) else None
          | _, _, _ => None
          end
      end
  end.

(** ** Exceptions that [except Exception] takes

    Of a result and of a computation: whatever is raised is of the class
    [Exception]. *)
Definition raises_Exception {A} (r : result A) : Prop :=
  forall e, r = Raise e -> is_Exception e = true.

Definition raises_Exceptions {A} (c : M A) : Prop :=
  forall w, raises_Exception (fst (c w)).


(** ** Well-formed books

    A Python [dict] holds each key once, and [add_record] files a record
    under its own name. *)
Definition unique_keys {V} (d : dict V) : Prop := NoDup (Dict.keys d).

Definition keyed_by_name (d : dict record) : Prop :=
  Forall (fun kr => fst kr = str_of_Name (name (snd kr))) d.

(** The phones of the book were made by the constructor: their values are
    valid and their identities were given out before [next]. *)
Definition phones_made (next : nat) (d : dict record) : Prop :=
  Forall (fun kr =>
    Forall (fun p => Phone.is_valid_phone (phone_value p) = true /\
                     phone_id p < next) (phones (snd kr))) d.

Definition book_ok (w : world) : Prop :=
  unique_keys (ab_data w) /\ keyed_by_name (ab_data w) /\
  phones_made (next_id w) (ab_data w).

(** ** What a command may do

    The outcome [res] and the state [w'] of a command run in [w]: it has
    come to an end, it has left the files and the clock alone, it has
    given out identities only upwards, it has read input from the front
    and written output at the end, and a well-formed book is well-formed
    after it. *)
Definition command_post (w : world) (res : result string) (w' : world)
  : Prop :=
  res <> Unfinished /\
  files w' = files w /\ today w' = today w /\
  next_id w <= next_id w' /\
  (exists read, stdin w = (read ++ stdin w')%list) /\
  (exists out, stdout w' = (stdout w ++ out)%list) /\
  (book_ok w -> book_ok w').

(** A step that only reads input and writes output. *)
Definition io_only (w w' : world) : Prop :=
  ab_data w' = ab_data w /\ files w' = files w /\ today w' = today w /\
  next_id w' = next_id w /\
  (exists read, stdin w = (read ++ stdin w')%list) /\
  (exists out, stdout w' = (stdout w ++ out)%list).

(** ** Calendar dates *)

(** A date that [date(y, m, d)] accepts. *)
Definition valid_date (d : date) : Prop :=
  (1 <= year d <= 9999)%Z /\ (1 <= month d <= 12)%Z /\
  (1 <= day d <= days_in_month (year d) (month d))%Z.

(** One more day in a leap year. *)
Definition leap_day (y : Z) : Z := if is_leap y then 1%Z else 0%Z.

(** The days of a common year before each month. *)
Definition days_before_month_common (m : Z) : Z :=
  nth (Z.to_nat (m - 1)) [0; 31; 59; 90; 120; 151; 181; 212; 243; 273; 304; 334]%Z
    0%Z.

(** ** Paging

    What the [show_all] command writes for one page: a line for each
    record of the page, then the question. *)
Definition page_output (chunk : list record) : list string :=
  (map (fun r => (Rec.str r ++ nl)%string) chunk
   ++ ["Press Enter to continue or 'q' to quit: "])%list.

(** ** Tactics *)

(** Unfolding of the monad's operations. *)
Ltac unfold_M :=
  unfold mbind, mret, M_bind, M_ret, bind, ret, raise, lift, modify,
    get_world, try_except in *.

(** Case analysis on an integer between 1 and [n]. *)
Ltac enum_cases x n :=
  lazymatch n with
  | O => exfalso; lia
  | S ?k =>
      let v := eval cbv in (Z.of_nat n) in
      destruct (Z.eq_dec x v) as [-> | ?]; [| enum_cases x k]
  end.

(** * Properties *)

(** ** Phone numbers (C7) *)

Lemma all_chars_Forall (p : ascii -> bool) (s : string) :
  all_chars p s = true <->
  Forall (fun c => p c = true) (list_ascii_of_string s).
Proof.
  induction s as [|c s IH]; simpl.
  - split; [constructor | reflexivity].
  - rewrite andb_true_iff, IH. split.
    + intros [Hc Hs]. by constructor.
    + inversion 1; subst. by split.
Qed.

Lemma isdecimal_isdigit (c : ascii) :
  isdecimal_char c = true -> isdigit_char c = true.
Proof. unfold isdigit_char. intros ->. reflexivity. Qed.

Lemma isdigit_nonempty (s : string) :
  s <> "" -> isdigit s = all_chars isdigit_char s.
Proof. destruct s; [congruence | reflexivity]. Qed.

Lemma slice_from_length (k : nat) (s : string) :
  String.length (slice_from k s) = String.length s - k.
Proof.
  revert s. induction k as [|k IH]; intros [|c s]; simpl; try lia.
  apply IH.
Qed.

(** The text used against C7: the prefix, then nine times the superscript
    two (U+00B2), a digit for [str.isdigit] that is no decimal digit. *)
Lemma superscript_two_isdigit :
  isdigit_char (chr 178) = true /\ isdecimal_char (chr 178) = false.
Proof. split; reflexivity. Qed.

(** C7, as stated, fails: with nine superscript digits after the prefix the
    text is accepted, though it is not empty and the characters after the
    prefix are not decimal digits. *)
Lemma is_valid_phone_not_decimal_only :
  let text := "+380" ++ string_of_list_ascii (repeat (chr 178) 9) in
  ~ (Phone.is_valid_phone (PStr text) = true <->
     text = "" \/
     (startswith text "+380" = true /\ len text = 13%Z /\
      Forall (fun c => isdecimal_char c = true)
        (list_ascii_of_string (slice_from 4 text)))).
Proof.
  intros text [Hvalid _].
  destruct (Hvalid eq_refl) as [Hempty | (_ & _ & Hdec)].
  - discriminate Hempty.
  - apply all_chars_Forall in Hdec. vm_compute in Hdec. discriminate Hdec.
Qed.

(** The three tests of the validator on a string that is not empty. *)
Lemma is_valid_phone_tests (p : string) :
  p <> "" ->
  Phone.is_valid_phone (PStr p) =
  startswith p "+380" && (len p =? 13)%Z && isdigit (slice_from 4 p).
Proof.
  intros Hne. destruct p as [|c p]; [done |].
  unfold Phone.is_valid_phone.
  destruct (startswith (String c p) "+380"), (len (String c p) =? 13)%Z,
    (isdigit (slice_from 4 (String c p))); reflexivity.
Qed.

(** After the prefix of a text of length 13 there is something left. *)
Lemma slice_from_4_nonempty (p : string) :
  len p = 13%Z -> slice_from 4 p <> "".
Proof.
  intros Hlen Heq. apply (f_equal String.length) in Heq.
  rewrite slice_from_length in Heq. unfold len in Hlen.
  change (String.length "") with 0 in Heq. lia.
Qed.

(** C7, amended: [is_valid_phone] accepts a string exactly when it is
    empty, or starts with [+380], has length 13 and every character after
    the prefix is a digit in the sense of [str.isdigit]. *)
Theorem is_valid_phone_iff (text : string) :
  Phone.is_valid_phone (PStr text) = true <->
  text = "" \/
  (startswith text "+380" = true /\ len text = 13%Z /\
   Forall (fun c => isdigit_char c = true)
     (list_ascii_of_string (slice_from 4 text))).
Proof.
  rewrite <- all_chars_Forall.
  destruct (string_dec text "") as [-> | Hne]; [by split; [left |] |].
  rewrite (is_valid_phone_tests text Hne), !andb_true_iff, Z.eqb_eq.
  split.
  - intros [[Hpre Hlen] Hd]. right. repeat split; try done.
    by rewrite <- (isdigit_nonempty _ (slice_from_4_nonempty text Hlen)).
  - intros [? | (Hpre & Hlen & Hd)]; [done |].
    repeat split; try done.
    by rewrite (isdigit_nonempty _ (slice_from_4_nonempty text Hlen)).
Qed.

(** The numbers the specification has in mind are accepted: [+380] and nine
    decimal digits. *)
Lemma is_valid_phone_decimal (text : string) :
  startswith text "+380" = true -> len text = 13%Z ->
  Forall (fun c => isdecimal_char c = true)
    (list_ascii_of_string (slice_from 4 text)) ->
  Phone.is_valid_phone (PStr text) = true.
Proof.
  intros Hp Hl Hd.
  assert (Hne : text <> "") by (intros ->; discriminate Hl).
  rewrite (is_valid_phone_tests text Hne), Hp, Hl.
  rewrite (isdigit_nonempty _ (slice_from_4_nonempty text Hl)).
  apply all_chars_Forall.
  eapply Forall_impl; [exact Hd |]. apply isdecimal_isdigit.
Qed.

Example is_valid_phone_examples :
  Phone.is_valid_phone (PStr "+380991234567") = true /\
  Phone.is_valid_phone (PStr "") = true /\
  Phone.is_valid_phone PNone = true /\
  Phone.is_valid_phone (PStr "+38099123456") = false /\
  Phone.is_valid_phone (PStr "+38099123456x") = false /\
  Phone.is_valid_phone (PStr "0991234567") = false.
Proof. repeat split. Qed.

(** ** Birthdays (C4) *)

(** The class [datetime.datetime] has no attribute [datetime]. *)
Lemma datetime_class_has_no_datetime :
  datetime_class_getattr "datetime" = Raise AttributeError.
Proof. reflexivity. Qed.

(** C4 on the code: [Birthday.is_valid_date] returns for no input at all.
    The attribute lookup raises [AttributeError] before the text is looked
    at, and the [except ValueError] clause does not take it. *)
Theorem is_valid_date_raises (birthday : pyval) :
  Birthday.is_valid_date birthday = Raise AttributeError.
Proof. reflexivity. Qed.

(** So no [Birthday] object is ever made. *)
Lemma Birthday_new_raises (value : pyval) :
  Birthday_new value = Raise AttributeError.
Proof. reflexivity. Qed.

(** The call that [Record.set_birthday] makes, without the extra
    attribute, decides the two dates of the claim. *)
Example strptime_examples :
  strptime_dmY "29.02.2024" = Ok (mkdate 2024 2 29) /\
  strptime_dmY "31.04.2023" = Raise (ValueError "day is out of range for month") /\
  strptime_dmY "29.02.2023" = Raise (ValueError "day is out of range for month") /\
  strptime_dmY "2024-02-29" = Raise (ValueError "time data does not match format") /\
  strptime_dmY "01.01.20245" = Raise (ValueError "unconverted data remains").
Proof. repeat split. Qed.

(** ** Adding a phone twice (C2) *)

(** The constructor gives every object an identity of its own. *)
Lemma Phone_new_valid (value : pyval) (w : world) :
  Phone.is_valid_phone value = true ->
  Phone_new value w =
  (Ok (mkPhone (next_id w) value), with_next_id (S (next_id w)) w).
Proof. intros Hv. unfold Phone_new. cbn. rewrite Hv. reflexivity. Qed.

Lemma Phone_new_invalid (value : pyval) (w : world) :
  Phone.is_valid_phone value = false ->
  Phone_new value w =
  (Raise (ValueError "Invalid phone number format"),
   with_next_id (S (next_id w)) w).
Proof. intros Hv. unfold Phone_new. cbn. rewrite Hv. reflexivity. Qed.

Lemma phone_in_spec (p : Phone) (l : list Phone) :
  Rec.phone_in p l = true <-> In (phone_id p) (map phone_id l).
Proof.
  unfold Rec.phone_in. rewrite existsb_exists, in_map_iff. split.
  - intros (q & Hq & Heq). apply Nat.eqb_eq in Heq. eauto.
  - intros (q & Heq & Hq). exists q. split; [done |]. by apply Nat.eqb_eq.
Qed.

(** What [add_phone] does: an object that is not in the list yet is
    appended, whatever its value; an object already there is not. *)
Lemma add_phone_new_object (p : Phone) (r : record) :
  Rec.phone_in p (phones r) = false ->
  phones (snd (Rec.add_phone p r)) = (phones r ++ [p])%list.
Proof. intros H. unfold Rec.add_phone. rewrite H. reflexivity. Qed.

Lemma add_phone_same_object (p : Phone) (r : record) :
  let r1 := snd (Rec.add_phone p r) in
  snd (Rec.add_phone p r1) = r1.
Proof.
  intros r1.
  assert (Hin : Rec.phone_in p (phones r1) = true).
  { subst r1. unfold Rec.add_phone.
    destruct (Rec.phone_in p (phones r)) eqn:H; simpl; [exact H |].
    unfold Rec.phone_in. rewrite existsb_app. simpl.
    unfold Phone_eqb. rewrite Nat.eqb_refl. by rewrite orb_true_r. }
  clearbody r1. unfold Rec.add_phone. rewrite Hin. reflexivity.
Qed.

Lemma phone_in_fresh (id : nat) (value : pyval) (l : list Phone) :
  Forall (fun p => phone_id p < id) l ->
  Rec.phone_in (mkPhone id value) l = false.
Proof.
  intros Hall. apply not_true_is_false. rewrite phone_in_spec, in_map_iff.
  intros (q & Heq & Hq). rewrite List.Forall_forall in Hall.
  specialize (Hall q Hq). simpl in Heq. lia.
Qed.

(** C2 on the code: two [Phone] objects made from the same valid text are
    both appended, so the value is in the list twice, and the second call
    reports an addition as well.  [phone not in self.phones] compares
    objects, and [Phone] has no [__eq__].  (The phones of the record are
    objects made earlier: their identities lie below [next_id].) *)
Theorem add_phone_same_value_twice (r : record) (value : pyval) (w : world) :
  Phone.is_valid_phone value = true ->
  Forall (fun p => phone_id p < next_id w) (phones r) ->
  exists p1 w1 p2 w2,
    Phone_new value w = (Ok p1, w1) /\
    Phone_new value w1 = (Ok p2, w2) /\
    phone_value p1 = value /\ phone_value p2 = value /\
    let r1 := snd (Rec.add_phone p1 r) in
    let r2 := snd (Rec.add_phone p2 r1) in
    phones r2 = (phones r ++ [p1; p2])%list /\
    fst (Rec.add_phone p2 r1) =
      Ok ("Phone " ++ str_of_val value ++ " added to contact "
            ++ str_of_Name (name r)).
Proof.
  intros Hvalid Hold.
  exists (mkPhone (next_id w) value), (with_next_id (S (next_id w)) w),
    (mkPhone (S (next_id w)) value),
    (with_next_id (S (S (next_id w))) (with_next_id (S (next_id w)) w)).
  split; [by apply Phone_new_valid |].
  split; [by apply (Phone_new_valid value (with_next_id (S (next_id w)) w)) |].
  split; [reflexivity |]. split; [reflexivity |].
  assert (H1 : Rec.phone_in (mkPhone (next_id w) value) (phones r) = false)
    by (by apply phone_in_fresh).
  assert (H2 : Rec.phone_in (mkPhone (S (next_id w)) value)
                 (phones r ++ [mkPhone (next_id w) value]) = false).
  { apply phone_in_fresh. apply Forall_app. split.
    - eapply Forall_impl; [exact Hold |]. simpl. lia.
    - repeat constructor. }
  unfold Rec.add_phone. rewrite H1. cbn [negb snd phones name].
  rewrite H2. cbn [negb snd fst phones name].
  split; [by rewrite <- app_assoc | reflexivity].
Qed.

Lemma add_phone_same_value_twice_witness :
  let ann := mkrecord (mkName "Ann") [] None in
  let w := mkworld [] ∅ [] [] 0 (mkdate 2026 11 3) in
  let value := PStr "+380991234567" in
  exists p1 w1 p2 w2,
    Phone_new value w = (Ok p1, w1) /\
    Phone_new value w1 = (Ok p2, w2) /\
    phone_value p1 = value /\ phone_value p2 = value /\
    let r1 := snd (Rec.add_phone p1 ann) in
    let r2 := snd (Rec.add_phone p2 r1) in
    phones r2 = [p1; p2] /\
    fst (Rec.add_phone p2 r1) = Ok "Phone +380991234567 added to contact Ann".
Proof.
  intros ann w value.
  apply (add_phone_same_value_twice ann value w); [reflexivity | constructor].
Defined.

(** ** The iterator (C3) *)

Import AddressBook.

(** C3 on the code, without a page size: the first resumption yields all
    records; the second reaches the [while], whose variables were bound in
    the other branch only, and raises [UnboundLocalError]. *)
Theorem iterator_no_page_size_resumed (data : dict record) :
  exists g1 g2,
    next data (iterator None) = (Yield (Dict.values data), g1) /\
    next data g1 = (GenRaise UnboundLocalError, g2) /\
    drain 2 data (iterator None) =
      ([Dict.values data], Some (GenRaise UnboundLocalError)).
Proof. do 2 eexists. repeat split. Qed.

(** [show_all] leaves the loop after the first chunk and so never resumes
    the generator. *)
Lemma show_all_no_page_size (fuel : nat) (w : world) :
  AddressBook.show_all (S fuel) None w =
  print (join nl (map Rec.str (Dict.values (ab_data w)))) w.
Proof. reflexivity. Qed.

(** *** With a page size *)

Lemma pages_go_enough {A} (k fuel : nat) (l : list A) :
  0 < k -> length l <= fuel -> pages_go fuel k l = pages k l.
Proof.
  intros Hk. unfold pages.
  remember (length l) as m eqn:Hm.
  revert fuel l Hm. induction m as [m IH] using lt_wf_ind.
  intros fuel l Hm Hle. destruct l as [|x l].
  - simpl in Hm. subst m. destruct fuel; reflexivity.
  - simpl in Hm. subst m. destruct fuel as [|fuel]; [simpl in Hle; lia |].
    cbn [pages_go]. f_equal.
    assert (Hd : length (drop k (x :: l)) <= length l).
    { rewrite length_drop. simpl. lia. }
    rewrite (IH (length (drop k (x :: l))) ltac:(simpl; lia) fuel _ eq_refl)
      by (simpl in Hle; lia).
    rewrite (IH (length (drop k (x :: l))) ltac:(simpl; lia) (length l) _ eq_refl)
      by exact Hd.
    reflexivity.
Qed.

Lemma pages_nil {A} (k : nat) : pages k (@nil A) = [].
Proof. reflexivity. Qed.

Lemma pages_cons {A} (k : nat) (l : list A) :
  0 < k -> l <> [] -> pages k l = take k l :: pages k (drop k l).
Proof.
  intros Hk Hl. destruct l as [|x l]; [done |].
  unfold pages at 1. cbn [length pages_go]. f_equal.
  apply pages_go_enough; [done |]. rewrite length_drop. simpl. lia.
Qed.

(** Page [i] is [l[i*k : i*k + k]], and there is one for as long as
    [i*k] is within the list: all pages are full but possibly the last, and
    none is empty. *)
Lemma pages_lookup {A} (k : nat) (l : list A) (i : nat) (c : list A) :
  0 < k ->
  pages k l !! i = Some c <->
  i * k < length l /\ c = take k (drop (i * k) l).
Proof.
  intros Hk. revert l c. induction i as [|i IH]; intros l c.
  - destruct l as [|x l].
    + rewrite pages_nil. simpl. split; [done | intros [? _]; lia].
    + rewrite pages_cons by done. simpl. split.
      * intros [= <-]. split; [lia | reflexivity].
      * intros [_ ->]. reflexivity.
  - destruct l as [|x l].
    + rewrite pages_nil. simpl. split; [done | intros [? _]; lia].
    + rewrite pages_cons by done.
      change ((take k (x :: l) :: pages k (drop k (x :: l))) !! S i)
        with (pages k (drop k (x :: l)) !! i).
      rewrite IH, length_drop, drop_drop.
      replace (k + i * k) with (S i * k) by lia.
      split; intros [H1 H2]; (split; [lia | exact H2]).
Qed.

Lemma pages_concat {A} (k : nat) (l : list A) :
  0 < k -> concat (pages k l) = l.
Proof.
  intros Hk. remember (length l) as m eqn:Hm.
  revert l Hm. induction m as [m IH] using lt_wf_ind. intros l Hm.
  destruct l as [|x l]; [reflexivity |].
  rewrite pages_cons by done. cbn [concat].
  rewrite (IH (length (drop k (x :: l)))); [apply take_drop | | reflexivity].
  subst m. rewrite length_drop. simpl. lia.
Qed.

Lemma slice_page {A} (l : list A) (i k : Z) :
  (0 <= i)%Z -> (0 < k)%Z ->
  slice l i (i + k) = take (Z.to_nat k) (drop (Z.to_nat i) l).
Proof.
  intros Hi Hk. unfold slice, slice_bound.
  set (len := Z.of_nat (length l)).
  destruct (i <? 0)%Z eqn:E1; [apply Z.ltb_lt in E1; lia |].
  destruct (i + k <? 0)%Z eqn:E2; [apply Z.ltb_lt in E2; lia |].
  destruct (Z_le_gt_dec i len) as [Hle | Hgt].
  - replace (Z.max 0 (Z.min len i)) with i by lia.
    destruct (Z_le_gt_dec (i + k) len) as [Hle2 | Hgt2].
    + replace (Z.max 0 (Z.min len (i + k))) with (i + k)%Z by lia.
      f_equal. lia.
    + replace (Z.max 0 (Z.min len (i + k))) with len by lia.
      rewrite !take_ge; [done | |]; rewrite length_drop; subst len; lia.
  - replace (Z.max 0 (Z.min len i)) with len by lia.
    replace (Z.max 0 (Z.min len (i + k))) with len by lia.
    rewrite Z.sub_diag. simpl.
    rewrite (drop_ge l (Z.to_nat i)) by (subst len; lia).
    by rewrite take_nil.
Qed.

Section Paged.
Variable data : dict record.
Variable n : Z.
Hypothesis n_positive : (0 < n)%Z.

Let recs : list record := Dict.values data.
Let total : Z := Z.of_nat (length recs).

(** The generator suspended in the loop with [current_index = i]. *)
Let gen_at (i : Z) : gen :=
  mkgen AtYieldChunk (Some n) recs (Some total) (Some i).

Lemma next_iterator_paged :
  next data (iterator (Some n)) =
  if (0 <? total)%Z then (Yield (slice recs 0 (0 + n)), gen_at 0)
  else (StopIteration, mkgen Finished (Some n) recs (Some total) (Some 0%Z)).
Proof. reflexivity. Qed.

Lemma next_gen_at (i : Z) :
  next data (gen_at i) =
  if (i + n <? total)%Z
  then (Yield (slice recs (i + n) (i + n + n)), gen_at (i + n))
  else (StopIteration,
        mkgen Finished (Some n) recs (Some total) (Some (i + n)%Z)).
Proof. reflexivity. Qed.

Lemma drain_gen_at (fuel : nat) (i : Z) :
  (0 <= i + n)%Z ->
  length (drop (Z.to_nat (i + n)) recs) < fuel ->
  drain fuel data (gen_at i) =
  (pages (Z.to_nat n) (drop (Z.to_nat (i + n)) recs), Some StopIteration).
Proof.
  revert i. induction fuel as [|fuel IH]; intros i Hi Hfuel; [lia |].
  cbn [drain]. rewrite next_gen_at.
  rewrite length_drop in Hfuel.
  destruct (i + n <? total)%Z eqn:E.
  - apply Z.ltb_lt in E. unfold total in *.
    rewrite IH; [| lia | rewrite length_drop; lia].
    rewrite slice_page by lia.
    rewrite (pages_cons (Z.to_nat n) (drop (Z.to_nat (i + n)) recs)); [| lia |].
    + rewrite drop_drop. do 4 f_equal. lia.
    + intros Hnil. apply (f_equal length) in Hnil.
      rewrite length_drop in Hnil. simpl in Hnil. lia.
  - apply Z.ltb_ge in E. unfold total in *.
    rewrite drop_ge by lia. reflexivity.
Qed.

(** With a page size [n >= 1] the generator yields the pages of the
    records, in the order of the mapping, and then stops. *)
Lemma iterator_paged (fuel : nat) :
  length recs < fuel ->
  drain fuel data (iterator (Some n)) =
  (pages (Z.to_nat n) recs, Some StopIteration).
Proof.
  intros Hfuel. destruct fuel as [|fuel]; [lia |].
  cbn [drain]. rewrite next_iterator_paged.
  destruct (0 <? total)%Z eqn:E.
  - apply Z.ltb_lt in E. unfold total in *.
    rewrite drain_gen_at; [| lia | rewrite length_drop; lia].
    rewrite slice_page by lia.
    rewrite (pages_cons (Z.to_nat n) recs); [| lia |].
    + do 3 f_equal.
    + intros Hnil. rewrite Hnil in E. simpl in E. lia.
  - apply Z.ltb_ge in E. unfold total in *.
    destruct recs; [reflexivity | simpl in E; lia].
Qed.

End Paged.

(** The sizes [2, 2, 1] of the specification's example. *)
Example iterator_two_of_five (r1 r2 r3 r4 r5 : record) :
  let data := [("a", r1); ("b", r2); ("c", r3); ("d", r4); ("e", r5)] in
  drain 4 data (iterator (Some 2%Z)) =
  ([[r1; r2]; [r3; r4]; [r5]], Some StopIteration) /\
  drain 4 data (iterator None) =
  ([[r1; r2; r3; r4; r5]], Some (GenRaise UnboundLocalError)).
Proof. split; reflexivity. Qed.

(** A page size of 0 never ends: the index does not move. *)
Example iterator_zero_page_size (r : record) (fuel : nat) :
  drain fuel [("a", r)] (iterator (Some 0%Z)) = (repeat [] fuel, None).
Proof.
  set (data := [("a", r)]).
  set (g := mkgen AtYieldChunk (Some 0%Z) [r] (Some 1%Z) (Some 0%Z)).
  assert (H : forall k, drain k data g = (repeat [] k, None)).
  { induction k as [|k IHk]; [reflexivity |].
    change (drain (S k) data g)
      with (let '(chunks, last) := drain k data g in
            (@nil record :: chunks, last)).
    rewrite IHk. reflexivity. }
  destruct fuel as [|fuel]; [reflexivity |].
  change (drain (S fuel) data (iterator (Some 0%Z)))
    with (let '(chunks, last) := drain fuel data g in
          (@nil record :: chunks, last)).
  rewrite H. reflexivity.
Qed.

(** ** Persistence (C1, C5) *)

Import Persist.

Lemma book_content_keys (d d' : dict record) :
  book_content d' = book_content d -> Dict.keys d' = Dict.keys d.
Proof.
  intros H. apply (f_equal (map fst)) in H.
  unfold book_content in H. rewrite !map_map in H. exact H.
Qed.

Lemma book_content_get (d d' : dict record) (k : string) (r : record) :
  book_content d' = book_content d ->
  Dict.get d k = Some r ->
  exists r', Dict.get d' k = Some r' /\ record_content r' = record_content r.
Proof.
  revert d'. induction d as [|[k0 r0] d IH]; intros d' H Hget; [discriminate |].
  destruct d' as [|[k1 r1] d']; [discriminate |].
  unfold book_content in H. cbn [map fst snd] in H.
  injection H as Hk Hn Hp Hb Hrest. subst k1.
  cbn [Dict.get] in *.
  destruct (String.eqb k0 k).
  - injection Hget as <-. exists r1. split; [done |].
    unfold record_content. congruence.
  - by apply IH.
Qed.

Section RoundTrip.
Context {P : Pickle}.

Lemma save_writes (file : string) (w : world) :
  save file w =
  (Ok tt, with_files (<[file := pickle_dumps (ab_data w)]> (files w)) w).
Proof. reflexivity. Qed.

Lemma load_missing (file : string) (w : world) :
  files w !! file = None -> load file w = (Ok tt, with_data [] w).
Proof. intros H. unfold load. unfold_M. rewrite H. reflexivity. Qed.

Lemma load_present (file bytes : string) (w : world)
    (d : dict record) (next : nat) :
  files w !! file = Some bytes ->
  pickle_loads bytes (next_id w) = Ok (d, next) ->
  load file w = (Ok tt, with_data d (with_next_id next w)).
Proof.
  intros H Hl. unfold load. unfold_M. rewrite H, Hl. reflexivity.
Qed.

(** C1: after [save(path)], [load(path)] puts back a mapping with the same
    names in the same order, and under each name a record with the same
    name, the same phone values and the same birthday, whatever [ab.data]
    has become in between, as long as the file is still the one written. *)
Theorem save_load_round_trip {RT : PickleRoundTrip P}
    (path : string) (w : world) :
  exists w1, save path w = (Ok tt, w1) /\
  forall w2, files w2 !! path = files w1 !! path ->
  exists w3, load path w2 = (Ok tt, w3) /\
    Dict.keys (ab_data w3) = Dict.keys (ab_data w) /\
    (forall (name_ : string) (r : record),
       Dict.get (ab_data w) name_ = Some r ->
       exists r', Dict.get (ab_data w3) name_ = Some r' /\
         str_of_Name (name r') = str_of_Name (name r) /\
         map phone_value (phones r') = map phone_value (phones r) /\
         birthday r' = birthday r) /\
    book_content (ab_data w3) = book_content (ab_data w).
Proof.
  eexists. split; [apply save_writes |].
  intros w2 Hfile. cbn in Hfile. rewrite lookup_insert_eq in Hfile.
  destruct (pickle_round_trip (ab_data w) (next_id w2)) as (d' & next' & Hl & Hc).
  eexists. split; [eapply load_present; eassumption |].
  cbn. split; [by apply book_content_keys |]. split; [| exact Hc].
  intros name_ r Hget.
  destruct (book_content_get _ _ _ _ Hc Hget) as (r' & Hget' & Hr).
  exists r'. split; [exact Hget' |].
  unfold record_content in Hr. by injection Hr.
Qed.

End RoundTrip.

(** The serializer for examples keeps the contract. *)
Lemma pos_of_bits_of_pos (p : positive) :
  BitPickle.pos_of_bits (BitPickle.bits_of_pos p) = Some p.
Proof. induction p as [p IH | p IH |]; simpl; [by rewrite IH.. | done]. Qed.

Lemma shift_book_content (k : nat) (d : dict record) :
  book_content (BitPickle.shift_book k d) = book_content d.
Proof.
  unfold book_content, BitPickle.shift_book. rewrite map_map.
  apply map_ext. intros [key r]. simpl. unfold record_content. simpl.
  f_equal. f_equal. rewrite map_map. reflexivity.
Qed.

Lemma bit_pickle_round_trip : PickleRoundTrip BitPickle.bit_pickle.
Proof.
  intros d next. exists (BitPickle.shift_book next d), (next + S (BitPickle.max_id d)).
  split; [| apply shift_book_content].
  cbn. unfold BitPickle.loads, BitPickle.dumps.
  rewrite pos_of_bits_of_pos, decode_encode. reflexivity.
Qed.

Lemma save_load_round_trip_witness :
  let w := mkworld
    [("ann", mkrecord (mkName "ann") [mkPhone 0 (PStr "+380991234567")]
               (Some (BdDate (mkdate 2024 2 29))))]
    ∅ [] [] 1 (mkdate 2026 11 3) in
  exists w1, @save BitPickle.bit_pickle "ab.bin" w = (Ok tt, w1) /\
  forall w2, files w2 !! "ab.bin" = files w1 !! "ab.bin" ->
  exists w3, @load BitPickle.bit_pickle "ab.bin" w2 = (Ok tt, w3) /\
    Dict.keys (ab_data w3) = Dict.keys (ab_data w) /\
    (forall (name_ : string) (r : record),
       Dict.get (ab_data w) name_ = Some r ->
       exists r', Dict.get (ab_data w3) name_ = Some r' /\
         str_of_Name (name r') = str_of_Name (name r) /\
         map phone_value (phones r') = map phone_value (phones r) /\
         birthday r' = birthday r) /\
    book_content (ab_data w3) = book_content (ab_data w).
Proof.
  intros w.
  exact (@save_load_round_trip BitPickle.bit_pickle bit_pickle_round_trip
           "ab.bin" w).
Defined.

(** Without a file [load] leaves the book empty and does not raise. *)
Lemma load_no_file {P : Pickle} (path : string) (w : world) :
  files w !! path = None ->
  load path w = (Ok tt, with_data [] w).
Proof. apply load_missing. Qed.

(** *** Strings *)

Lemma string_app_cons (x : ascii) (a b : string) :
  String x a ++ b = String x (a ++ b).
Proof. reflexivity. Qed.

Lemma string_app_assoc (a b c : string) : (a ++ b) ++ c = a ++ b ++ c.
Proof.
  induction a as [|x a IH]; [reflexivity |].
  by rewrite !string_app_cons, IH.
Qed.

Lemma string_app_nil_r (a : string) : a ++ "" = a.
Proof.
  induction a as [|x a IH]; [reflexivity |].
  by rewrite string_app_cons, IH.
Qed.

Lemma prefix_spec (q s : string) :
  String.prefix q s = true <-> exists b, s = q ++ b.
Proof.
  revert s. induction q as [|c q IH]; intros s.
  - split; [intros _; by exists s | intros _; by destruct s].
  - destruct s as [|c' s].
    + split; [discriminate | intros [b Hb]; discriminate].
    + cbn [String.prefix]. destruct (ascii_dec c c') as [-> | Hne].
      * rewrite IH. split; intros [b Hb]; exists b.
        -- rewrite string_app_cons. by rewrite Hb.
        -- rewrite string_app_cons in Hb. congruence.
      * split; [discriminate |].
        intros [b Hb]. rewrite string_app_cons in Hb. congruence.
Qed.

(** [contains] decides [substring]. *)
Lemma contains_spec (s q : string) :
  contains s q = true <-> substring q s.
Proof.
  unfold substring. induction s as [|c s IH]; cbn [contains].
  - rewrite orb_false_r, prefix_spec. split.
    + intros [b Hb]. by exists "", b.
    + intros (a & b & H). destruct a as [|x a]; [by exists b |].
      rewrite string_app_cons in H. discriminate.
  - rewrite orb_true_iff, prefix_spec, IH. split.
    + intros [[b Hb] | (a & b & H)].
      * by exists "", b.
      * exists (String c a), b. rewrite string_app_cons. by rewrite H.
    + intros (a & b & H). destruct a as [|x a].
      * left. by exists b.
      * right. exists a, b. rewrite string_app_cons in H. congruence.
Qed.

Lemma substring_join (sep x : string) (l : list string) :
  In x l -> substring x (join sep l).
Proof.
  induction l as [|y l IH]; [done |]. intros [-> | Hin].
  - destruct l as [|z l].
    + exists "", "". cbn [join]. by rewrite string_app_nil_r.
    + exists "", (sep ++ join sep (z :: l)). reflexivity.
  - destruct l as [|z l]; [done |].
    destruct (IH Hin) as (a & b & H).
    exists (y ++ sep ++ a), b.
    change (join sep (y :: z :: l)) with (y ++ sep ++ join sep (z :: l)).
    rewrite H, !string_app_assoc. reflexivity.
Qed.

Lemma substring_app_l (q s t : string) : substring q s -> substring q (s ++ t).
Proof.
  intros (a & b & ->). exists a, (b ++ t). by rewrite !string_app_assoc.
Qed.

(** *** The CSV export (C5) *)

(** C5, as stated, fails: for a book with one contact that has a phone and
    a birthday, the file written holds the name, and neither the phone number nor
    any part of the date. *)
Lemma save_csv_omits_phones_and_birthday :
  let ann := mkrecord (mkName "ann") [mkPhone 0 (PStr "+380991234567")]
               (Some (BdDate (mkdate 2024 2 29))) in
  let w := mkworld [("ann", ann)] ∅ [] [] 1 (mkdate 2026 11 3) in
  let content := String "a" (String "n" (String "n" Csv.lineterminator)) in
  files (snd (save_csv "ab.csv" w)) !! "ab.csv" = Some content /\
  contains content "ann" = true /\
  contains content "+380991234567" = false /\
  contains content "2024" = false /\ contains content "29" = false.
Proof. repeat split. Qed.

Lemma save_csv_result (path : string) (w : world) :
  save_csv path w =
  (Ok tt,
   with_files (<[path := Csv.writerow (Dict.keys (ab_data w))]> (files w)) w).
Proof. reflexivity. Qed.

(** C5, amended: [save_csv(path)] writes one CSV row whose fields are the
    names, that is the keys of the mapping in its order, each in the
    writer's format; the text written is a function of the names alone, so
    no phone number and no birthday is part of it. *)
Theorem save_csv_writes_names (path : string) (w : world) :
  let content := Csv.writerow (Dict.keys (ab_data w)) in
  save_csv path w = (Ok tt, with_files (<[path := content]> (files w)) w) /\
  files (snd (save_csv path w)) !! path = Some content /\
  forall name_ : string, In name_ (Dict.keys (ab_data w)) ->
    substring (Csv.format_field name_) content.
Proof.
  intros content. split; [reflexivity |]. split.
  - rewrite save_csv_result. unfold with_files. cbn [snd files].
    apply lookup_insert_eq.
  - intros name_ Hin. subst content. unfold Csv.writerow.
    assert (Hgen : substring (Csv.format_field name_)
              (join (String Csv.delimiter "")
                 (map Csv.format_field (Dict.keys (ab_data w)))
               ++ Csv.lineterminator)).
    { apply substring_app_l, substring_join. by apply in_map. }
    destruct (Dict.keys (ab_data w)) as [|k [|k' ks]] eqn:Hk.
    + exact Hgen.
    + destruct k as [|c k]; [| exact Hgen].
      destruct Hin as [<- | []].
      exists "", (String Csv.quotechar
                    (String Csv.quotechar Csv.lineterminator)).
      reflexivity.
    + destruct k; exact Hgen.
Qed.

Lemma save_csv_writes_names_witness :
  let ann := mkrecord (mkName "ann") [mkPhone 0 (PStr "+380991234567")] None in
  let w := mkworld [("ann", ann)] ∅ [] [] 1 (mkdate 2026 11 3) in
  substring (Csv.format_field "ann") (Csv.writerow (Dict.keys (ab_data w))).
Proof.
  intros ann w.
  apply (proj2 (proj2 (save_csv_writes_names "ab.csv" w))).
  by left.
Defined.

(** Two books with the same names give the same file. *)
Lemma save_csv_names_only (path : string) (w w' : world) :
  Dict.keys (ab_data w) = Dict.keys (ab_data w') ->
  files (snd (save_csv path w)) !! path =
  files (snd (save_csv path w')) !! path.
Proof.
  intros H. rewrite !save_csv_result. unfold with_files. cbn [snd files].
  rewrite !lookup_insert_eq. by rewrite H.
Qed.

Example writerow_examples :
  Csv.writerow ["ann"; "bob"]
    = "ann,bob" ++ Csv.lineterminator /\
  Csv.writerow [] = Csv.lineterminator /\
  Csv.writerow ["a,b"]
    = String Csv.quotechar ("a,b" ++ String Csv.quotechar Csv.lineterminator).
Proof. repeat split. Qed.

(** ** The [add] handler on a name that is already there (C10) *)

Import Commands Driver.

(** A [Record] object has no attribute [phone]. *)
Lemma record_has_no_phone_attribute (r : record) :
  Rec.getattr r "phone" = Raise AttributeError.
Proof. reflexivity. Qed.

Lemma add_existing_record (w : world) (name_ : string)
    (phone birthday : pyval) (r : record) :
  Dict.get (ab_data w) name_ = Some r ->
  Commands.add name_ phone birthday w = (Raise AttributeError, w).
Proof.
  intros Hget. unfold Commands.add. unfold_M. rewrite Hget.
  rewrite record_has_no_phone_attribute. reflexivity.
Qed.

(** C10: when the book has a record under the name, the [add] command with
    a phone argument raises [AttributeError] and returns no text; nothing
    is changed; the exception leaves the handler, which is not wrapped and
    whose own [except] clause takes [ValueError] only. *)
Theorem add_existing_record_raises (fuel : nat) (w : world)
    (name_ phone : string) (more : list string) (r : record) :
  Dict.get (ab_data w) name_ = Some r ->
  length more <= 1 ->
  Commands.wrapped h_add = false /\
  Commands.call fuel h_add (name_ :: phone :: more) w
    = (Raise AttributeError, w).
Proof.
  intros Hget Hlen. split; [reflexivity |].
  unfold call, wrapped, apply.
  destruct more as [|birthday [|x more]]; [| | simpl in Hlen; lia];
    eapply add_existing_record; eassumption.
Qed.

Lemma add_existing_record_raises_witness :
  let ann := mkrecord (mkName "ann") [mkPhone 0 (PStr "+380991234567")] None in
  let w := mkworld [("ann", ann)] ∅ [] [] 1 (mkdate 2026 11 3) in
  Commands.wrapped h_add = false /\
  Commands.call 1 h_add ["ann"; "+380991234568"] w = (Raise AttributeError, w).
Proof.
  intros ann w.
  apply (add_existing_record_raises 1 w "ann" "+380991234568" [] ann).
  - reflexivity.
  - simpl. lia.
Defined.

(** Without a phone argument it is the same. *)
Lemma add_existing_record_no_phone (fuel : nat) (w : world)
    (name_ : string) (r : record) :
  Dict.get (ab_data w) name_ = Some r ->
  Commands.call fuel h_add [name_] w = (Raise AttributeError, w).
Proof. intros Hget. eapply add_existing_record; eassumption. Qed.

(** For a new name the handler works. *)
Example add_new_record :
  let w := mkworld [] ∅ [] [] 0 (mkdate 2026 11 3) in
  let '(res, w') := Commands.call 1 h_add ["ann"; "+380991234567"] w in
  res = Ok "Contact ann add success" /\
  ab_data w' =
    [("ann", mkrecord (mkName "ann") [mkPhone 0 (PStr "+380991234567")] None)].
Proof. split; reflexivity. Qed.

(** ** Search (C8) *)

Lemma count_occ_all_other {A} (eq_dec : forall x y : A, {x = y} + {x <> y})
    (l : list A) (x y : A) :
  x <> y -> (forall z, In z l -> z = x) -> count_occ eq_dec l y = 0.
Proof.
  intros Hne Hall. apply count_occ_not_In. intros Hin.
  apply Hall in Hin. congruence.
Qed.

(** What [search] appends for one record. *)
Lemma search_cons (k : string) (r : record) (data : dict record)
    (query : string) :
  AddressBook.search ((k, r) :: data) query =
  ((if contains (lower (str_of_Name (name r))) (lower query) then [r]
    else flat_map (fun phone =>
           if contains (lower (str_of_Phone phone)) (lower query)
           then [r] else []) (phones r))
   ++ AddressBook.search data query)%list.
Proof. reflexivity. Qed.

Lemma search_phones_In (r r' : record) (query : string) :
  In r' (flat_map (fun phone =>
           if contains (lower (str_of_Phone phone)) (lower query)
           then [r] else []) (phones r)) <->
  r' = r /\ phone_matches query r.
Proof.
  rewrite in_flat_map. unfold phone_matches. split.
  - intros (p & Hp & Hin).
    destruct (contains (lower (str_of_Phone p)) (lower query)) eqn:E;
      [| destruct Hin].
    destruct Hin as [<- | []]. split; [done |].
    exists p. split; [done |]. by apply contains_spec.
  - intros [-> (p & Hp & Hsub)]. exists p. split; [done |].
    apply contains_spec in Hsub. rewrite Hsub. by left.
Qed.

Lemma search_In (data : dict record) (query : string) (r : record) :
  In r (AddressBook.search data query) <->
  In r (Dict.values data) /\ (name_matches query r \/ phone_matches query r).
Proof.
  induction data as [|[k r0] data IH]; [simpl; tauto |].
  rewrite search_cons, in_app_iff, IH. cbn [Dict.values map snd In].
  destruct (contains (lower (str_of_Name (name r0))) (lower query)) eqn:E.
  - apply contains_spec in E. cbn [In]. split.
    + intros [[<- | []] | [Hin Hm]]; [split; [by left | by left] |].
      split; [by right | done].
    + intros [[<- | Hin] Hm]; [left; by left | right; by split].
  - rewrite search_phones_In. split.
    + intros [[-> Hm] | [Hin Hm]]; (split; [| tauto]); [by left | by right].
    + intros [[<- | Hin] Hm]; [| right; by split].
      left. split; [done |]. destruct Hm as [Hn | Hp]; [| done].
      apply contains_spec in Hn. unfold name_matches in *. congruence.
Qed.

Lemma search_count (data : dict record) (query : string) (r : record) :
  name_matches query r ->
  count_occ record_eq_dec (AddressBook.search data query) r =
  count_occ record_eq_dec (Dict.values data) r.
Proof.
  intros Hn. apply contains_spec in Hn.
  induction data as [|[k r0] data IH]; [reflexivity |].
  rewrite search_cons, count_occ_app, IH. cbn [Dict.values map snd].
  destruct (record_eq_dec r0 r) as [-> | Hne].
  - rewrite Hn. cbn [count_occ].
    destruct (record_eq_dec r r); [reflexivity | done].
  - rewrite (count_occ_cons_neq _ _ Hne).
    rewrite (count_occ_all_other record_eq_dec _ r0 r Hne); [reflexivity |].
    intros z Hz.
    destruct (contains (lower (str_of_Name (name r0))) (lower query)).
    + by destruct Hz as [<- | []].
    + by apply search_phones_In in Hz as [-> _].
Qed.



(** The example of the specification: a record is found by a part of a
    phone that its name does not hold. *)
Example search_by_phone :
  let ann := mkrecord (mkName "ann") [mkPhone 0 (PStr "+380991234567")] None in
  let bob := mkrecord (mkName "bob") [mkPhone 1 (PStr "+380670000000")] None in
  AddressBook.search [("ann", ann); ("bob", bob)] "12345" = [ann] /\
  AddressBook.search [("ann", ann); ("bob", bob)] "ANN" = [ann] /\
  AddressBook.search [("ann", ann); ("bob", bob)] "zzz" = [].
Proof. repeat split. Qed.

(** A record that matches by phones only is appended once for every phone
    that matches. *)
Example search_two_phones :
  let bob := mkrecord (mkName "bob")
               [mkPhone 0 (PStr "+380671112233");
                mkPhone 1 (PStr "+380671112244")] None in
  AddressBook.search [("bob", bob)] "38067" = [bob; bob].
Proof. reflexivity. Qed.

(** ** Setting the birthday (C9) *)

Lemma int_unsigned_outcome (s : string) :
  (exists n, int_unsigned s = Ok n) \/
  (exists msg, int_unsigned s = Raise (ValueError msg)).
Proof.
  unfold int_unsigned. destruct (int_digits 0 0 false s) as [[n c]|]; [| eauto].
  destruct (int_max_str_digits <? c)%nat; eauto.
Qed.

Lemma int_outcome (s : string) :
  (exists n, int s = Ok n) \/ (exists msg, int s = Raise (ValueError msg)).
Proof.
  unfold int.
  assert (Hneg : forall s',
    (exists n, rbind (int_unsigned s') (fun n => Ok (- n)%Z) = Ok n) \/
    (exists msg, rbind (int_unsigned s') (fun n => Ok (- n)%Z)
                 = Raise (ValueError msg))).
  { intros s'. destruct (int_unsigned_outcome s') as [[n ->] | [msg ->]];
      simpl; eauto. }
  destruct (strip s) as [|c s'] eqn:E; [apply int_unsigned_outcome |].
  destruct c as [[] [] [] [] [] [] [] []];
    first [apply Hneg | apply int_unsigned_outcome].
Qed.

Lemma date_new_outcome (y m d : Z) :
  (exists dt, date_new y m d = Ok dt) \/
  (exists msg, date_new y m d = Raise (ValueError msg)).
Proof.
  unfold date_new.
  repeat match goal with
  | |- context [if ?b then _ else _] => destruct b; eauto
  end.
Qed.

(** For a string [strptime] returns a date or raises [ValueError]. *)
Lemma strptime_dmY_outcome (s : string) :
  (exists d, strptime_dmY s = Ok d) \/
  (exists msg, strptime_dmY s = Raise (ValueError msg)).
Proof.
  unfold strptime_dmY.
  destruct (match_dmY s) as [|[[[d m] y] rest] others]; [eauto |].
  destruct rest; [| eauto].
  destruct (int_outcome y) as [[yn ->] | [msg ->]]; [| simpl; eauto].
  destruct (int_outcome m) as [[mn ->] | [msg ->]]; [| simpl; eauto].
  destruct (int_outcome d) as [[dn ->] | [msg ->]]; [| simpl; eauto].
  simpl. apply date_new_outcome.
Qed.

(** *** Well-formed dates are parsed *)

(** The dot of the format matches a dot and no digit. *)
Lemma re_match_dot (rest : string) :
  re_match (Chr ".") (String "." rest) = [(".", rest)].
Proof. reflexivity. Qed.

Lemma re_match_dot_digit (s : string) :
  starts_with_digit s = true -> re_match (Chr ".") s = [].
Proof.
  destruct s as [|c s]; [reflexivity |]. cbn [starts_with_digit re_match].
  intros Hc. destruct (Ascii.eqb_spec "." c) as [<- | _]; [| reflexivity].
  vm_compute in Hc. discriminate Hc.
Qed.

(** When the first match of a group leaves a dot and every other match
    leaves a digit, only the first match goes on. *)
Lemma flat_map_dot {B} (K : string -> string -> list B)
    (matches : list (string * string)) (m0 rest : string) :
  hd_error matches = Some (m0, String "." rest) ->
  forallb starts_with_digit (map snd (tl matches)) = true ->
  flat_map (fun '(m, r1) =>
    flat_map (fun '(_, r2) => K m r2) (re_match (Chr ".") r1)) matches
  = K m0 rest.
Proof.
  destruct matches as [|[m r] others]; [discriminate |].
  cbn [hd_error tl]. intros [= -> ->] Hothers.
  cbn [flat_map]. rewrite re_match_dot. cbn [flat_map].
  rewrite app_nil_r.
  assert (Hnil : flat_map (fun '(m, r1) =>
            flat_map (fun '(_, r2) => K m r2) (re_match (Chr ".") r1)) others
          = []).
  { induction others as [|[m r] others IH]; [reflexivity |].
    cbn [map snd forallb] in Hothers.
    apply andb_true_iff in Hothers as [Hr Hothers].
    cbn [flat_map]. rewrite (re_match_dot_digit r Hr), IH by done.
    reflexivity. }
  rewrite Hnil. apply app_nil_r.
Qed.

Lemma re_d_two_digits (d : Z) (rest : string) :
  (1 <= d <= 31)%Z ->
  let matches := re_match re_d (two_digits d ++ String "." rest) in
  hd_error matches = Some (two_digits d, String "." rest) /\
  forallb starts_with_digit (map snd (tl matches)) = true.
Proof. intros Hd. enum_cases d 31%nat; split; vm_compute; reflexivity. Qed.

Lemma re_m_two_digits (m : Z) (rest : string) :
  (1 <= m <= 12)%Z ->
  let matches := re_match re_m (two_digits m ++ String "." rest) in
  hd_error matches = Some (two_digits m, String "." rest) /\
  forallb starts_with_digit (map snd (tl matches)) = true.
Proof. intros Hm. enum_cases m 12%nat; split; vm_compute; reflexivity. Qed.

(** Two digits for the day, a dot, two digits for the month and a dot are
    matched in one way only; what is left is for the year. *)
Lemma match_day_month (d m : Z) (Y : string) :
  (1 <= d <= 31)%Z -> (1 <= m <= 12)%Z ->
  match_dmY (two_digits d ++ "." ++ two_digits m ++ "." ++ Y) =
  map (fun '(y, r5) => (two_digits d, two_digits m, y, r5))
    (re_match re_Y Y).
Proof.
  intros Hd Hm. unfold match_dmY.
  change (two_digits d ++ "." ++ two_digits m ++ "." ++ Y)
    with (two_digits d ++ String "." (two_digits m ++ String "." Y)).
  destruct (re_d_two_digits d (two_digits m ++ String "." Y) Hd) as [Hd1 Hd2].
  destruct (re_m_two_digits m Y Hm) as [Hm1 Hm2].
  rewrite (flat_map_dot
    (fun d0 r2 =>
       flat_map (fun '(m0, r3) =>
         flat_map (fun '(_, r4) =>
           map (fun '(y, r5) => (d0, m0, y, r5)) (re_match re_Y r4))
           (re_match (Chr ".") r3))
         (re_match re_m r2))
    _ _ _ Hd1 Hd2).
  rewrite (flat_map_dot
    (fun m0 r4 => map (fun '(y, r5) => (two_digits d, m0, y, r5))
                    (re_match re_Y r4))
    _ _ _ Hm1 Hm2).
  reflexivity.
Qed.

Lemma int_two_digits (n : Z) :
  (1 <= n <= 31)%Z -> int (two_digits n) = Ok n.
Proof. intros Hn. enum_cases n 31%nat; reflexivity. Qed.

(** The digits 0 to 9 as characters. *)
Lemma digit_char_facts (k : Z) :
  (0 <= k <= 9)%Z ->
  isdecimal_char (digit_char k) = true /\
  int_space_char (digit_char k) = false /\
  Z.of_N (ord (digit_char k)) = (48 + k)%Z.
Proof.
  intros Hk. destruct (Z.eq_dec k 0%Z) as [-> | ?]; [by vm_compute |].
  enum_cases k 9%nat; by vm_compute.
Qed.

Lemma re_digit_match (k : Z) (rest : string) :
  (0 <= k <= 9)%Z ->
  re_match re_digit (String (digit_char k) rest)
  = [(String (digit_char k) "", rest)].
Proof.
  intros Hk. destruct (digit_char_facts k Hk) as (Hd & _ & _).
  unfold re_digit. cbn [re_match].
  change ((ord "0" <=? ord (digit_char k))%N && (ord (digit_char k) <=? ord "9")%N)
    with (isdecimal_char (digit_char k)).
  by rewrite Hd.
Qed.

Lemma re_match_seq_single (r1 r2 : re) (s m1 rest1 : string) :
  re_match r1 s = [(m1, rest1)] ->
  re_match (Seq r1 r2) s =
  map (fun '(m2, rest2) => (m1 ++ m2, rest2)) (re_match r2 rest1).
Proof. intros H. cbn [re_match]. rewrite H. cbn [flat_map]. apply app_nil_r. Qed.

(** Four digits are matched by the group for the year, in one way. *)
Lemma re_Y_match (a b c e : Z) (rest : string) :
  (0 <= a <= 9)%Z -> (0 <= b <= 9)%Z -> (0 <= c <= 9)%Z -> (0 <= e <= 9)%Z ->
  let text := fun tail =>
    String (digit_char a) (String (digit_char b)
      (String (digit_char c) (String (digit_char e) tail))) in
  re_match re_Y (text rest) = [(text "", rest)].
Proof.
  intros Ha Hb Hc He text. subst text. unfold re_Y.
  rewrite (re_match_seq_single _ _ _ _ _ (re_digit_match a _ Ha)).
  rewrite (re_match_seq_single _ _ _ _ _ (re_digit_match b _ Hb)).
  rewrite (re_match_seq_single _ _ _ _ _ (re_digit_match c _ Hc)).
  rewrite (re_digit_match e _ He). reflexivity.
Qed.

Lemma lstrip_not_space (c : ascii) (s : string) :
  int_space_char c = false -> lstrip (String c s) = String c s.
Proof. intros H. cbn [lstrip]. by rewrite H. Qed.

(** A text that begins with a digit has no sign. *)
Lemma int_no_sign (c : ascii) (s : string) :
  isdecimal_char c = true ->
  strip (String c s) = String c s ->
  int (String c s) = int_unsigned (String c s).
Proof.
  intros Hc Hs. unfold int. rewrite Hs.
  destruct c as [[] [] [] [] [] [] [] []];
    first [reflexivity | vm_compute in Hc; discriminate Hc].
Qed.

Lemma int_four_digit_chars (a b c e : Z) :
  (0 <= a <= 9)%Z -> (0 <= b <= 9)%Z -> (0 <= c <= 9)%Z -> (0 <= e <= 9)%Z ->
  int (String (digit_char a) (String (digit_char b)
         (String (digit_char c) (String (digit_char e) ""))))
  = Ok (1000 * a + 100 * b + 10 * c + e)%Z.
Proof.
  intros Ha Hb Hc He.
  destruct (digit_char_facts a Ha) as (Da & Sa & Oa).
  destruct (digit_char_facts b Hb) as (Db & _ & Ob).
  destruct (digit_char_facts c Hc) as (Dc & _ & Oc).
  destruct (digit_char_facts e He) as (De & Se & Oe).
  rewrite int_no_sign; [| exact Da |].
  - unfold int_unsigned. cbn [int_digits].
    rewrite Da. cbn [int_digits]. rewrite Db. cbn [int_digits].
    rewrite Dc. cbn [int_digits]. rewrite De.
    rewrite Oa, Ob, Oc, Oe.
    change (int_max_str_digits <? 4)%nat with false. cbv iota.
    f_equal. lia.
  - unfold strip. rewrite (lstrip_not_space _ _ Sa).
    change (String.rev (String (digit_char a) (String (digit_char b)
              (String (digit_char c) (String (digit_char e) "")))))
      with (String (digit_char e) (String (digit_char c)
              (String (digit_char b) (String (digit_char a) "")))).
    rewrite (lstrip_not_space _ _ Se). reflexivity.
Qed.

(** Every year from 0 to 9999, written with four digits, is matched by the
    group for the year and read back by [int]. *)
Lemma year_four_digits (y : Z) :
  (0 <= y <= 9999)%Z ->
  re_match re_Y (four_digits y) = [(four_digits y, "")] /\
  int (four_digits y) = Ok y.
Proof.
  intros Hy. unfold four_digits.
  assert (Ha : (0 <= y / 1000 <= 9)%Z) by (Z.div_mod_to_equations; lia).
  assert (Hb : (0 <= y / 100 mod 10 <= 9)%Z) by (Z.div_mod_to_equations; lia).
  assert (Hc : (0 <= y / 10 mod 10 <= 9)%Z) by (Z.div_mod_to_equations; lia).
  assert (He : (0 <= y mod 10 <= 9)%Z) by (Z.div_mod_to_equations; lia).
  split.
  - apply (re_Y_match _ _ _ _ "" Ha Hb Hc He).
  - rewrite int_four_digit_chars by done. f_equal.
    Z.div_mod_to_equations. lia.
Qed.

(** A date written [dd.mm.yyyy] is parsed to that date, or refused when the
    month does not have the day. *)
Lemma strptime_dmY_text (d m y : Z) :
  (1 <= d <= 31)%Z -> (1 <= m <= 12)%Z -> (0 <= y <= 9999)%Z ->
  strptime_dmY (dmY_text d m y) = date_new y m d.
Proof.
  intros Hd Hm Hy. unfold strptime_dmY, dmY_text.
  rewrite match_day_month by done.
  destruct (year_four_digits y Hy) as [-> Hint]. cbn [map].
  rewrite Hint. cbn [rbind].
  rewrite (int_two_digits m) by lia. cbn [rbind].
  rewrite (int_two_digits d) by lia. reflexivity.
Qed.

Lemma days_in_month_le_31 (y m : Z) : (days_in_month y m <= 31)%Z.
Proof.
  unfold days_in_month.
  repeat match goal with
  | |- context [if ?b then _ else _] => destruct b
  end; lia.
Qed.

Lemma date_new_valid (y m d : Z) :
  (1 <= y <= 9999)%Z -> (1 <= m <= 12)%Z -> (1 <= d <= days_in_month y m)%Z ->
  date_new y m d = Ok (mkdate y m d).
Proof.
  intros Hy Hm Hd. unfold date_new.
  replace ((1 <=? y)%Z && (y <=? 9999)%Z) with true
    by (symmetry; apply andb_true_iff; split; apply Z.leb_le; lia).
  replace ((1 <=? m)%Z && (m <=? 12)%Z) with true
    by (symmetry; apply andb_true_iff; split; apply Z.leb_le; lia).
  replace ((1 <=? d)%Z && (d <=? days_in_month y m)%Z) with true
    by (symmetry; apply andb_true_iff; split; apply Z.leb_le; lia).
  reflexivity.
Qed.

(** *** The texts that are parsed, read without the matcher *)

Lemma re_match_sound (r : re) (s m rest : string) :
  In (m, rest) (re_match r s) -> s = m ++ rest.
Proof.
  revert s m rest. induction r as [c | lo hi | r1 IH1 r2 IH2 | r1 IH1 r2 IH2];
    intros s m rest; cbn [re_match].
  - destruct s as [|c' s']; [done |].
    destruct (Ascii.eqb c c'); [| done]. by intros [[= <- <-] | []].
  - destruct s as [|c' s']; [done |].
    destruct ((ord lo <=? ord c') && (ord c' <=? ord hi))%N; [| done].
    by intros [[= <- <-] | []].
  - rewrite in_flat_map. intros ([m1 mid] & H1 & H2).
    apply in_map_iff in H2 as ([m2 rest2] & [= <- <-] & H2).
    rewrite (IH1 _ _ _ H1), (IH2 _ _ _ H2). by rewrite string_app_assoc.
  - rewrite in_app_iff. intros [H | H]; [by apply IH1 | by apply IH2].
Qed.

Lemma re_match_Chr (c : ascii) (s m rest : string) :
  In (m, rest) (re_match (Chr c) s) -> m = String c "" /\ s = String c rest.
Proof.
  cbn [re_match]. destruct s as [|c' s']; [done |].
  destruct (Ascii.eqb_spec c c') as [<- | _]; [| done].
  by intros [[= <- <-] | []].
Qed.

Lemma re_match_Range (lo hi : ascii) (s m rest : string) :
  In (m, rest) (re_match (Range lo hi) s) ->
  exists c, m = String c "" /\ s = String c rest /\
            ((ord lo <=? ord c) && (ord c <=? ord hi))%N = true.
Proof.
  cbn [re_match]. destruct s as [|c' s']; [done |].
  destruct ((ord lo <=? ord c') && (ord c' <=? ord hi))%N eqn:E; [| done].
  intros [[= <- <-] | []]. by exists c'.
Qed.

Lemma re_match_Seq (r1 r2 : re) (s m rest : string) :
  In (m, rest) (re_match (Seq r1 r2) s) ->
  exists m1 m2 mid,
    In (m1, mid) (re_match r1 s) /\ In (m2, rest) (re_match r2 mid) /\
    m = m1 ++ m2.
Proof.
  cbn [re_match]. rewrite in_flat_map. intros ([m1 mid] & H1 & H2).
  apply in_map_iff in H2 as ([m2 rest2] & [= <- <-] & H2).
  by exists m1, m2, mid.
Qed.

Lemma re_match_Alt (r1 r2 : re) (s : string) (x : string * string) :
  In x (re_match (Alt r1 r2) s) ->
  In x (re_match r1 s) \/ In x (re_match r2 s).
Proof. cbn [re_match]. by rewrite in_app_iff. Qed.

(** A character in a range of the pattern, one case for each character
    that is in the range. *)
Ltac char_cases c H :=
  destruct c as [[] [] [] [] [] [] [] []];
  vm_compute in H; try discriminate H; clear H.

Ltac re_inversion :=
  repeat match goal with
  | H : In _ (re_match (Alt _ _) _) |- _ =>
      apply re_match_Alt in H as [H | H]
  | H : In _ (re_match (Seq _ _) _) |- _ =>
      apply re_match_Seq in H as (? & ? & ? & ? & H & ->)
  | H : In _ (re_match (Chr _) _) |- _ =>
      apply re_match_Chr in H as [-> _]
  | H : In _ (re_match (Range _ _) _) |- _ =>
      let c := fresh "c" in
      let Hc := fresh "Hc" in
      apply re_match_Range in H as (c & -> & _ & Hc); char_cases c Hc
  | H : In _ (re_match re_digit _) |- _ => unfold re_digit in H
  end.

(** What the groups of the pattern match is a day and a month. *)
Lemma re_d_day (s d rest : string) :
  In (d, rest) (re_match re_d s) -> exists v, day_of_text d = Some v.
Proof. unfold re_d. intros H. re_inversion; by eexists. Qed.

Lemma re_m_month (s m rest : string) :
  In (m, rest) (re_match re_m s) -> exists v, month_of_text m = Some v.
Proof. unfold re_m. intros H. re_inversion; by eexists. Qed.

Lemma isdecimal_digit_char (c : ascii) :
  isdecimal_char c = true ->
  (0 <= digit_value c <= 9)%Z /\ c = digit_char (digit_value c).
Proof. intros H. char_cases c H; by vm_compute. Qed.

Lemma re_Y_year (s y rest : string) :
  In (y, rest) (re_match re_Y s) -> exists v, year_of_text y = Some v.
Proof.
  unfold re_Y, re_digit. intros H.
  apply re_match_Seq in H as (m1 & m2 & mid1 & H1 & H & ->).
  apply re_match_Seq in H as (m3 & m4 & mid2 & H2 & H & ->).
  apply re_match_Seq in H as (m5 & m6 & mid3 & H3 & H4 & ->).
  apply re_match_Range in H1 as (a & -> & _ & Ha).
  apply re_match_Range in H2 as (b & -> & _ & Hb).
  apply re_match_Range in H3 as (c & -> & _ & Hc).
  apply re_match_Range in H4 as (e & -> & _ & He).
  change (isdecimal_char a = true) in Ha. change (isdecimal_char b = true) in Hb.
  change (isdecimal_char c = true) in Hc. change (isdecimal_char e = true) in He.
  change (String a "" ++ String b "" ++ String c "" ++ String e "")
    with (String a (String b (String c (String e "")))).
  cbn [year_of_text]. rewrite Ha, Hb, Hc, He. by eexists.
Qed.

(** A day, a month and a year as the library reads them: the group of the
    pattern matches the text in front of a dot, [int] gives its number, and
    the text holds no dot. *)
Lemma day_text_facts (D : string) (v : Z) (rest : string) :
  day_of_text D = Some v ->
  let text := D ++ String "." rest in
  (1 <= v <= 31)%Z /\ int D = Ok v /\
  cut_at_dot text = Some (D, rest) /\
  hd_error (re_match re_d text) = Some (D, String "." rest) /\
  forallb starts_with_digit (map snd (tl (re_match re_d text))) = true.
Proof.
  destruct D as [|a [|b [|c D]]]; [done | | | done]; cbn [day_of_text].
  - destruct (nonzero_digit a) eqn:Ha; [| done]. intros [= <-].
    char_cases a Ha; by vm_compute.
  - destruct (Ascii.eqb_spec a " ") as [-> | _].
    + destruct (nonzero_digit b) eqn:Hb; [| done]. intros [= <-].
      char_cases b Hb; by vm_compute.
    + destruct (isdecimal_char a) eqn:Ha; [| done].
      destruct (isdecimal_char b) eqn:Hb; [| done]. cbn [andb].
      intros H. char_cases a Ha; char_cases b Hb; vm_compute in H;
        try discriminate H; injection H as <-; by vm_compute.
Qed.

Lemma month_text_facts (M : string) (v : Z) (rest : string) :
  month_of_text M = Some v ->
  let text := M ++ String "." rest in
  (1 <= v <= 12)%Z /\ int M = Ok v /\
  cut_at_dot text = Some (M, rest) /\
  hd_error (re_match re_m text) = Some (M, String "." rest) /\
  forallb starts_with_digit (map snd (tl (re_match re_m text))) = true.
Proof.
  destruct M as [|a [|b [|c M]]]; [done | | | done]; cbn [month_of_text].
  - destruct (nonzero_digit a) eqn:Ha; [| done]. intros [= <-].
    char_cases a Ha; by vm_compute.
  - destruct (isdecimal_char a) eqn:Ha; [| done].
    destruct (isdecimal_char b) eqn:Hb; [| done]. cbn [andb].
    intros H. char_cases a Ha; char_cases b Hb; vm_compute in H;
      try discriminate H; injection H as <-; by vm_compute.
Qed.

Lemma year_text_facts (Y : string) (v : Z) :
  year_of_text Y = Some v ->
  (0 <= v <= 9999)%Z /\ int Y = Ok v /\ re_match re_Y Y = [(Y, "")].
Proof.
  destruct Y as [|a [|b [|c [|e [|x Y]]]]]; try done.
  cbn [year_of_text].
  destruct (isdecimal_char a) eqn:Ha; [| done].
  destruct (isdecimal_char b) eqn:Hb; [| done].
  destruct (isdecimal_char c) eqn:Hc; [| done].
  destruct (isdecimal_char e) eqn:He; [| done].
  cbn [andb]. intros [= <-].
  destruct (isdecimal_digit_char a Ha) as [Ra Ea].
  destruct (isdecimal_digit_char b Hb) as [Rb Eb].
  destruct (isdecimal_digit_char c Hc) as [Rc Ec].
  destruct (isdecimal_digit_char e He) as [Re Ee].
  split; [lia |].
  pose proof (int_four_digit_chars _ _ _ _ Ra Rb Rc Re) as Hint.
  pose proof (re_Y_match _ _ _ _ "" Ra Rb Rc Re) as Hre. cbv zeta in Hre.
  rewrite <- Ea, <- Eb, <- Ec, <- Ee in Hint, Hre. by split.
Qed.

Lemma cut_at_dot_sound (s before after : string) :
  cut_at_dot s = Some (before, after) -> s = before ++ String "." after.
Proof.
  revert before. induction s as [|c s IH]; intros before; [done |].
  cbn [cut_at_dot]. destruct (Ascii.eqb_spec c ".") as [-> | _].
  - by intros [= <- <-].
  - destruct (cut_at_dot s) as [[b a]|]; [| done].
    intros [= <- <-]. by rewrite (IH b eq_refl).
Qed.

(** A day and a month that are followed by dots are matched in one way
    only; what is left is for the year. *)
Lemma match_groups (D M Y : string) :
  (forall rest,
     hd_error (re_match re_d (D ++ String "." rest))
       = Some (D, String "." rest) /\
     forallb starts_with_digit
       (map snd (tl (re_match re_d (D ++ String "." rest)))) = true) ->
  (forall rest,
     hd_error (re_match re_m (M ++ String "." rest))
       = Some (M, String "." rest) /\
     forallb starts_with_digit
       (map snd (tl (re_match re_m (M ++ String "." rest)))) = true) ->
  match_dmY (D ++ String "." (M ++ String "." Y)) =
  map (fun '(y, r5) => (D, M, y, r5)) (re_match re_Y Y).
Proof.
  intros HD HM. unfold match_dmY.
  destruct (HD (M ++ String "." Y)) as [Hd1 Hd2].
  destruct (HM Y) as [Hm1 Hm2].
  rewrite (flat_map_dot
    (fun d0 r2 =>
       flat_map (fun '(m0, r3) =>
         flat_map (fun '(_, r4) =>
           map (fun '(y, r5) => (d0, m0, y, r5)) (re_match re_Y r4))
           (re_match (Chr ".") r3))
         (re_match re_m r2))
    _ _ _ Hd1 Hd2).
  rewrite (flat_map_dot
    (fun m0 r4 => map (fun '(y, r5) => (D, m0, y, r5)) (re_match re_Y r4))
    _ _ _ Hm1 Hm2).
  reflexivity.
Qed.

Lemma date_new_Ok_inv (y m d : Z) (dt : date) :
  date_new y m d = Ok dt ->
  dt = mkdate y m d /\ (1 <= y <= 9999)%Z /\ (1 <= m <= 12)%Z /\
  (1 <= d <= days_in_month y m)%Z.
Proof.
  unfold date_new.
  destruct ((1 <=? y)%Z && (y <=? 9999)%Z) eqn:Hy; [| done].
  destruct ((1 <=? m)%Z && (m <=? 12)%Z) eqn:Hm; [| done].
  destruct ((1 <=? d)%Z && (d <=? days_in_month y m)%Z) eqn:Hd; [| done].
  cbn [negb]. intros [= <-].
  apply andb_true_iff in Hy as [?%Z.leb_le ?%Z.leb_le].
  apply andb_true_iff in Hm as [?%Z.leb_le ?%Z.leb_le].
  apply andb_true_iff in Hd as [?%Z.leb_le ?%Z.leb_le].
  by split_and!.
Qed.

(** [strptime] parses exactly the texts that are a date when cut at their
    dots, and to that date. *)
Lemma strptime_date_of_text (text : string) (dt : date) :
  strptime_dmY text = Ok dt <-> date_of_text text = Some dt.
Proof.
  split.
  - unfold strptime_dmY.
    destruct (match_dmY text) as [|[[[d m] y] rest] others] eqn:E; [done |].
    assert (Hin : In (d, m, y, rest) (match_dmY text))
      by (rewrite E; by left).
    destruct rest; [| done]. clear E others.
    unfold match_dmY in Hin.
    apply in_flat_map in Hin as ([d' r1] & Hd & Hin).
    apply in_flat_map in Hin as ([x1 r2] & Hdot1 & Hin).
    apply in_flat_map in Hin as ([m' r3] & Hm & Hin).
    apply in_flat_map in Hin as ([x2 r4] & Hdot2 & Hin).
    apply in_map_iff in Hin as ([y' r5] & [= -> -> -> ->] & Hy).
    pose proof (re_match_sound _ _ _ _ Hd) as ->.
    pose proof (re_match_sound _ _ _ _ Hm) as ->.
    pose proof (re_match_sound _ _ _ _ Hy) as ->.
    apply re_match_Chr in Hdot1 as [_ ->].
    apply re_match_Chr in Hdot2 as [_ ->].
    rewrite string_app_nil_r.
    apply re_d_day in Hd as [dv Hdv].
    apply re_m_month in Hm as [mv Hmv].
    apply re_Y_year in Hy as [yv Hyv].
    destruct (day_text_facts d dv (m ++ String "." y) Hdv)
      as (_ & Hdi & Hdc & _).
    destruct (month_text_facts m mv y Hmv) as (_ & Hmi & Hmc & _).
    destruct (year_text_facts y yv Hyv) as (_ & Hyi & _).
    rewrite Hyi, Hmi, Hdi. cbn [rbind]. intros Hnew.
    apply date_new_Ok_inv in Hnew as (-> & Hy & _ & Hd).
    unfold date_of_text. rewrite Hdc, Hmc, Hdv, Hmv, Hyv.
    replace ((1 <=? yv)%Z && (dv <=? days_in_month yv mv)%Z) with true;
      [done |].
    symmetry. apply andb_true_iff. split; apply Z.leb_le; lia.
  - unfold date_of_text.
    destruct (cut_at_dot text) as [[D rest]|] eqn:E1; [| done].
    destruct (cut_at_dot rest) as [[M Y]|] eqn:E2; [| done].
    destruct (day_of_text D) as [d|] eqn:Hd; [| done].
    destruct (month_of_text M) as [m|] eqn:Hm; [| done].
    destruct (year_of_text Y) as [y|] eqn:Hy; [| done].
    destruct ((1 <=? y)%Z && (d <=? days_in_month y m)%Z) eqn:Hr; [| done].
    intros [= <-].
    apply andb_true_iff in Hr as [Hy1%Z.leb_le Hdm%Z.leb_le].
    apply cut_at_dot_sound in E1 as ->. apply cut_at_dot_sound in E2 as ->.
    destruct (day_text_facts D d "" Hd) as (Rd & Hdi & _).
    destruct (month_text_facts M m "" Hm) as (Rm & Hmi & _).
    destruct (year_text_facts Y y Hy) as (Ry & Hyi & HreY).
    unfold strptime_dmY. rewrite match_groups.
    + rewrite HreY. cbn [map]. rewrite Hyi, Hmi, Hdi. cbn [rbind].
      apply date_new_valid; lia.
    + intros r. by destruct (day_text_facts D d r Hd) as (_ & _ & _ & ? & ?).
    + intros r. by destruct (month_text_facts M m r Hm) as (_ & _ & _ & ? & ?).
Qed.

(** *** [Record.set_birthday] *)




(** What the texts taken look like: the day and the month may have one
    digit, the day a space in front of it; the year has four digits; a
    date that the calendar does not have is refused, and so is text
    before or after the date. *)
Example date_of_text_examples :
  date_of_text "29.02.2024" = Some (mkdate 2024 2 29) /\
  date_of_text "1.2.2024" = Some (mkdate 2024 2 1) /\
  date_of_text " 1.02.2024" = Some (mkdate 2024 2 1) /\
  date_of_text "29.02.2023" = None /\
  date_of_text "31.04.2023" = None /\
  date_of_text "01.01.0000" = None /\
  date_of_text "01.01.24" = None /\
  date_of_text "01.01.2024 " = None /\
  date_of_text "2024-02-29" = None.
Proof. by vm_compute. Qed.

(** ** The exceptions that the commands raise

    What a command raises is of the class [Exception]: the clauses
    [except Exception] of the wrapper and of [main] take it. *)

Lemma raises_Exception_Ok {A} (a : A) : raises_Exception (Ok a).
Proof. intros e. discriminate. Qed.

Lemma raises_Exception_Raise {A} (e : exn) :
  is_Exception e = true -> raises_Exception (@Raise A e).
Proof. by intros H e' [= <-]. Qed.

Lemma raises_Exception_ValueError {A} (r : result A) :
  (exists a, r = Ok a) \/ (exists msg, r = Raise (ValueError msg)) ->
  raises_Exception r.
Proof. by intros [[a ->] | [msg ->]] e [= <-]. Qed.

Lemma raises_Exceptions_ret {A} (a : A) : raises_Exceptions (mret a).
Proof. intros w e. discriminate. Qed.

Lemma raises_Exceptions_raise {A} (e : exn) :
  is_Exception e = true -> raises_Exceptions (@raise A e).
Proof. by intros H w e' [= <-]. Qed.

Lemma raises_Exceptions_lift {A} (r : result A) :
  raises_Exception r -> raises_Exceptions (lift r).
Proof. intros H w. exact H. Qed.

Lemma raises_Exceptions_modify (f : world -> world) :
  raises_Exceptions (modify f).
Proof. intros w e. discriminate. Qed.

Lemma raises_Exceptions_bind {A B} (c : M A) (k : A -> M B) :
  raises_Exceptions c -> (forall a, raises_Exceptions (k a)) ->
  raises_Exceptions (x ← c; k x).
Proof.
  intros Hc Hk w e. unfold_M. specialize (Hc w).
  destruct (c w) as [[a | e' |] w1]; cbn [fst] in *.
  - apply Hk.
  - intros [= <-]. by apply Hc.
  - discriminate.
Qed.

Lemma raises_Exceptions_get {A} (c : world -> M A) :
  (forall w, raises_Exceptions (c w)) ->
  raises_Exceptions (w ← get_world; c w).
Proof. intros H w. unfold_M. apply H. Qed.

Lemma raises_Exceptions_try {A} (c : M A) (h : exn -> option (M A)) :
  raises_Exceptions c ->
  (forall e handler, h e = Some handler -> raises_Exceptions handler) ->
  raises_Exceptions (try_except c h).
Proof.
  intros Hc Hh w e. unfold_M. specialize (Hc w).
  destruct (c w) as [[a | e' |] w1]; cbn [fst] in *; try discriminate.
  destruct (h e') as [handler|] eqn:E; [by apply (Hh e') |].
  intros [= <-]. by apply Hc.
Qed.

Lemma raises_Exceptions_print (s : string) : raises_Exceptions (print s).
Proof. apply raises_Exceptions_modify. Qed.

Lemma raises_Exceptions_input (prompt : string) :
  raises_Exceptions (input prompt).
Proof.
  intros w e. unfold input. by destruct (stdin w); intros [= <-].
Qed.

Lemma raises_Exceptions_Phone_new (value : pyval) :
  raises_Exceptions (Phone_new value).
Proof.
  intros w e. unfold Phone_new. unfold_M.
  by destruct (negb (Phone.is_valid_phone value)); intros [= <-].
Qed.

Lemma raises_Exceptions_on_record {A} (key : string) (r : record)
    (m : Rec.method A) :
  raises_Exception (fst (m r)) -> raises_Exceptions (on_record key r m).
Proof. intros H w. unfold on_record. by destruct (m r). Qed.

Lemma raises_Exception_days_to_birthday (current_date : date) (r : record) :
  raises_Exception (Rec.days_to_birthday current_date r).
Proof.
  unfold Rec.days_to_birthday. destruct (birthday r) as [[b | bd]|].
  - by apply raises_Exception_Raise.
  - destruct (date_new_outcome (year current_date) (month bd) (day bd))
      as [[d1 ->] | [msg ->]]; [| by apply raises_Exception_Raise].
    cbn [rbind]. destruct (date_ltb d1 current_date).
    + destruct (date_new_outcome (year current_date + 1) (month bd) (day bd))
        as [[d2 ->] | [msg ->]];
        [apply raises_Exception_Ok | by apply raises_Exception_Raise].
    + apply raises_Exception_Ok.
  - apply raises_Exception_Ok.
Qed.

Lemma raises_Exception_set_birthday (text : string) (r : record) :
  raises_Exception (fst (Rec.set_birthday (ArgStr text) r)).
Proof.
  unfold Rec.set_birthday.
  destruct (strptime_dmY_outcome text) as [[d ->] | [msg ->]];
    apply raises_Exception_Ok.
Qed.

Lemma raises_Exception_init (n : Name) (p : option Phone)
    (b : option Birthday) :
  raises_Exception (Rec.init n p b).
Proof.
  unfold Rec.init. destruct b as [b|]; [| apply raises_Exception_Ok].
  by apply raises_Exception_Raise.
Qed.

Lemma raises_Exception_getattr (r : record) (attr : string) :
  raises_Exception (Rec.getattr r attr).
Proof.
  unfold Rec.getattr.
  repeat match goal with
  | |- context [if ?b then _ else _] => destruct b
  end; first [apply raises_Exception_Ok | by apply raises_Exception_Raise].
Qed.

Lemma next_raises_Exception (data : dict record) (g g' : gen) (e : exn) :
  next data g = (GenRaise e, g') -> is_Exception e = true.
Proof.
  assert (Hloop : forall g0, loop_head g0 = (GenRaise e, g') ->
            is_Exception e = true).
  { intros g0. unfold loop_head.
    destruct (current_index g0), (total_records g0); try by intros [= <-].
    destruct (_ <? _)%Z; [| done]. by destruct (n g0); intros [= <-]. }
  unfold next. destruct (pc g); try apply Hloop.
  - destruct (n g); [apply Hloop | done].
  - destruct (current_index g), (n g); try apply Hloop; by intros [= <-].
  - done.
Qed.

Lemma raises_Exceptions_mapM_print (l : list record) :
  raises_Exceptions (mapM (fun r => print (Rec.str r)) l).
Proof.
  induction l as [|r l IH]; cbn [mapM].
  - apply raises_Exceptions_ret.
  - apply raises_Exceptions_bind; [apply raises_Exceptions_print |].
    intros []. apply raises_Exceptions_bind; [exact IH |].
    intros units. apply raises_Exceptions_ret.
Qed.

(** One step of a proof that a command raises exceptions of the class
    [Exception] only. *)
Ltac exceptions_step :=
  match goal with
  | |- raises_Exceptions (mret _) => apply raises_Exceptions_ret
  | |- raises_Exceptions (raise _) => by apply raises_Exceptions_raise
  | |- raises_Exceptions (modify _) => apply raises_Exceptions_modify
  | |- raises_Exceptions (print _) => apply raises_Exceptions_print
  | |- raises_Exceptions (input _) => apply raises_Exceptions_input
  | |- raises_Exceptions (Phone_new _) => apply raises_Exceptions_Phone_new
  | |- raises_Exceptions (mapM _ _) => apply raises_Exceptions_mapM_print
  | |- raises_Exceptions (lift _) => apply raises_Exceptions_lift
  | |- raises_Exceptions (on_record _ _ _) =>
      apply raises_Exceptions_on_record
  | |- raises_Exceptions (mbind _ get_world) =>
      apply raises_Exceptions_get; intros ?
  | |- raises_Exceptions (mbind _ _) =>
      apply raises_Exceptions_bind; [| intros ?]
  | |- raises_Exceptions (match ?x with _ => _ end) => destruct x eqn:?
  | |- raises_Exception (Ok _) => apply raises_Exception_Ok
  | |- raises_Exception (Raise _) => by apply raises_Exception_Raise
  | |- raises_Exception (int _) =>
      apply raises_Exception_ValueError, int_outcome
  | |- raises_Exception (Rec.getattr _ _) => apply raises_Exception_getattr
  | |- raises_Exception (Rec.init _ _ _) => apply raises_Exception_init
  | |- raises_Exception (Birthday_new _) => by apply raises_Exception_Raise
  | |- raises_Exception (Rec.days_to_birthday _ _) =>
      apply raises_Exception_days_to_birthday
  | |- raises_Exception (fst (Rec.set_birthday (ArgStr _) _)) =>
      apply raises_Exception_set_birthday
  | |- raises_Exception (fst (Rec.add_phone _ _)) =>
      unfold Rec.add_phone;
      match goal with |- context [if ?b then _ else _] => destruct b end;
      apply raises_Exception_Ok
  end.

Ltac exceptions := repeat exceptions_step.

Lemma raises_Exceptions_change_phone_at (refs : list nat) (new_phone : string) :
  raises_Exceptions (AddressBook.change_phone_at refs new_phone).
Proof.
  induction refs as [|i refs IH]; cbn [AddressBook.change_phone_at];
    exceptions. exact IH.
Qed.

Lemma raises_Exceptions_show_pages (fuel : nat) (g : gen) :
  raises_Exceptions (Commands.show_pages fuel g).
Proof.
  revert g. induction fuel as [|fuel IH]; intros g;
    cbn [Commands.show_pages].
  - apply raises_Exceptions_lift. intros e. discriminate.
  - apply raises_Exceptions_get. intros w.
    destruct (next (ab_data w) g) as [[chunk | | e] g'] eqn:E; exceptions.
    + apply IH.
    + apply raises_Exceptions_raise. by apply next_raises_Exception in E.
Qed.

Lemma raises_Exceptions_show_all_loop (fuel : nat) (n : option Z) (g : gen) :
  raises_Exceptions (AddressBook.show_all_loop fuel n g).
Proof.
  revert g. induction fuel as [|fuel IH]; intros g;
    cbn [AddressBook.show_all_loop].
  - apply raises_Exceptions_lift. intros e. discriminate.
  - apply raises_Exceptions_get. intros w.
    destruct (next (ab_data w) g) as [[chunk | | e] g'] eqn:E; exceptions.
    + apply IH.
    + apply raises_Exceptions_raise. by apply next_raises_Exception in E.
Qed.

Lemma raises_Exceptions_add (name_ : string) (phone birthday : pyval) :
  raises_Exceptions (Commands.add name_ phone birthday).
Proof.
  unfold Commands.add. apply raises_Exceptions_try.
  - unfold AddressBook.add_record. exceptions.
  - intros e handler. destruct e; try done. intros [= <-].
    apply raises_Exceptions_ret.
Qed.

(** The functions of the table raise exceptions of the class [Exception]
    only, whatever their arguments. *)
Lemma raises_Exceptions_apply (fuel : nat) (h : handler)
    (args : list string) :
  raises_Exceptions (Commands.apply fuel h args).
Proof.
  destruct h; cbn [Commands.apply];
    repeat match goal with
    | |- raises_Exceptions (match ?l with [] => _ | _ :: _ => _ end) =>
        destruct l
    end;
    try (by apply raises_Exceptions_raise);
    try apply raises_Exceptions_add;
    unfold Commands.change, AddressBook.change_phone_by_name, Commands.find,
      Commands.show_all, AddressBook.show_all, Commands.set_birthday,
      Commands.days_to_birthday, Commands.search, Commands.remove,
      AddressBook.remove_record, Commands.hello, Commands.close,
      Commands.no_command;
    exceptions;
    first [ apply raises_Exceptions_change_phone_at
          | apply raises_Exceptions_show_all_loop
          | apply raises_Exceptions_show_pages ].
Qed.

Lemma raises_Exceptions_call (fuel : nat) (h : handler)
    (args : list string) :
  raises_Exceptions (Commands.call fuel h args).
Proof.
  unfold Commands.call. destruct (Commands.wrapped h);
    [| apply raises_Exceptions_apply].
  apply raises_Exceptions_try; [apply raises_Exceptions_apply |].
  intros e' handler. destruct (is_Exception e'); [| done].
  intros [= <-]. apply raises_Exceptions_ret.
Qed.

Lemma call_raises_Exception (fuel : nat) (h : handler) (args : list string)
    (w w' : world) (e : exn) :
  Commands.call fuel h args w = (Raise e, w') -> is_Exception e = true.
Proof.
  intros H. apply (raises_Exceptions_call fuel h args w). by rewrite H.
Qed.

(** ** A failure in the loop of [main] (C6) *)

(** C6, as stated, fails: the second [add] for the same name raises in the
    loop body; [main] prints its fixed line and returns, the third line is
    never read and nothing is saved. *)
Lemma main_stops_after_failure :
  let w := mkworld [] ∅
             ["add ann +380991234567"; "add ann +380991234568"; "hello"]
             [] 0 (mkdate 2026 11 3) in
  let w' := snd (@main BitPickle.bit_pickle 4 w) in
  fst (@main BitPickle.bit_pickle 4 w) = Ok tt /\
  stdout w' = [">>>"; "Contact ann add success" ++ nl; ">>>";
               "Error {e}" ++ nl] /\
  stdin w' = ["hello"] /\
  files w' = ∅.
Proof. vm_compute. repeat split. Qed.

Section Loop.
Context {P : Pickle}.

Lemma repl_failure (fuel : nat) (w w' : world) (line : string)
    (rest : list string) (command : handler) (data : list string) (e : exn) :
  stdin w = line :: rest ->
  parser line = Pair command data ->
  command <> h_close ->
  call (S fuel) command data (after_input rest w) = (Raise e, w') ->
  repl (S fuel) w = (Raise e, w').
Proof.
  intros Hin Hparse Hne Hcall. cbn [repl]. unfold_M. unfold input.
  rewrite Hin, Hparse.
  assert (Hneq : handler_eqb command h_close = false)
    by (destruct command; try reflexivity; by destruct Hne).
  rewrite Hneq. unfold after_input in Hcall. rewrite Hcall. reflexivity.
Qed.

(** C6, amended: when the handler dispatched in the loop body raises, the
    exception leaves the loop and is caught by the outer [try] of [main],
    which reports it with one line of output and returns: the loop is not
    resumed, no further input is read and nothing is saved.  The loop has
    come to the state [w] from the state [w_start] after loading. *)
Theorem failure_in_loop_ends_main (fuel0 fuel : nat)
    (w0 w_start w w' : world) (line : string) (rest : list string)
    (command : handler) (data : list string) (e : exn) :
  load "ab.bin" w0 = (Ok tt, w_start) ->
  repl fuel0 w_start = repl (S fuel) w ->
  stdin w = line :: rest ->
  parser line = Pair command data ->
  command <> h_close ->
  call (S fuel) command data (after_input rest w) = (Raise e, w') ->
  exists report_line : string,
    main fuel0 w0 = (Ok tt, with_stdout (stdout w' ++ [report_line]) w').
Proof.
  intros Hload Hreach Hin Hparse Hne Hcall.
  pose proof (repl_failure fuel w w' line rest command data e
                Hin Hparse Hne Hcall) as Hrepl.
  pose proof (call_raises_Exception _ _ _ _ _ _ Hcall) as He.
  eexists. unfold main. unfold_M. rewrite Hload, Hreach, Hrepl, He.
  reflexivity.
Qed.

End Loop.

Lemma failure_in_loop_ends_main_witness :
  let w0 := mkworld [] ∅
              ["add ann +380991234567"; "add ann +380991234568"; "hello"]
              [] 0 (mkdate 2026 11 3) in
  let ann := mkrecord (mkName "ann") [mkPhone 0 (PStr "+380991234567")] None in
  let w := mkworld [("ann", ann)] ∅ ["add ann +380991234568"; "hello"]
             [">>>"; "Contact ann add success" ++ nl] 1 (mkdate 2026 11 3) in
  exists report_line : string,
    @main BitPickle.bit_pickle 4 w0 =
    (Ok tt,
     with_stdout (stdout (after_input ["hello"] w) ++ [report_line])
       (after_input ["hello"] w)).
Proof.
  intros w0 ann w.
  apply (@failure_in_loop_ends_main BitPickle.bit_pickle 4 2 w0 w0 w
           (after_input ["hello"] w) "add ann +380991234568" ["hello"]
           h_add ["ann"; "+380991234568"] AttributeError).
  - reflexivity.
  - reflexivity.
  - reflexivity.
  - reflexivity.
  - discriminate.
  - reflexivity.
Defined.

(** An empty line ends the program in the same way: the wrapped [parser]
    returns the text [Invalid input], which does not unpack into two. *)
Example main_empty_line :
  let w := mkworld [] ∅ [""; "hello"] [] 0 (mkdate 2026 11 3) in
  let w' := snd (@main BitPickle.bit_pickle 3 w) in
  stdout w' = [">>>"; "Error {e}" ++ nl] /\ stdin w' = ["hello"].
Proof. vm_compute. repeat split. Qed.

(** A failure inside a wrapped handler does not leave it: the loop goes
    on. *)
Example main_wrapped_handler_failure :
  let w := mkworld [] ∅ ["find bob"; "hello"; "bye"] [] 0 (mkdate 2026 11 3) in
  let w' := snd (@main BitPickle.bit_pickle 4 w) in
  stdout w' = [">>>"; "contact not found" ++ nl; ">>>";
               "How can I help you?" ++ nl; ">>>"] /\
  stdin w' = [] /\
  is_Some (files w' !! "ab.bin") /\
  files w' !! "ab.csv" = Some Csv.lineterminator.
Proof. vm_compute. repeat split; eauto. Qed.

(** * Further properties of the code *)

(** ** Dictionaries as the book uses them *)

Lemma dict_get_In {V} (d : dict V) (k : string) (v : V) :
  Dict.get d k = Some v -> In (k, v) d.
Proof.
  induction d as [|[k' v'] d IH]; [discriminate |]. cbn [Dict.get].
  destruct (String.eqb_spec k' k) as [-> | Hne].
  - intros [= ->]. by left.
  - intros H. right. by apply IH.
Qed.

Lemma dict_get_None {V} (d : dict V) (k : string) :
  Dict.get d k = None <-> ~ In k (Dict.keys d).
Proof.
  induction d as [|[k' v'] d IH]; [simpl; tauto |].
  cbn [Dict.get Dict.keys map fst In].
  destruct (String.eqb_spec k' k) as [-> | Hne].
  - split; [discriminate | intros H; destruct H; by left].
  - rewrite IH. unfold Dict.keys. tauto.
Qed.

Lemma dict_get_unique {V} (d : dict V) (k : string) (v : V) :
  unique_keys d -> In (k, v) d -> Dict.get d k = Some v.
Proof.
  unfold unique_keys. induction d as [|[k' v'] d IH]; [done |].
  cbn [Dict.keys map fst Dict.get]. intros Hnd [Heq | Hin].
  - injection Heq as -> ->. by rewrite String.eqb_refl.
  - apply NoDup_cons in Hnd as [Hnot Hnd].
    destruct (String.eqb_spec k' k) as [-> | Hne].
    + destruct Hnot. apply list_elem_of_In, in_map_iff. by exists (k, v).
    + by apply IH.
Qed.

Lemma dict_set_get {V} (d : dict V) (k : string) (v : V) :
  Dict.get (Dict.set d k v) k = Some v.
Proof.
  induction d as [|[k' v'] d IH]; cbn [Dict.set Dict.get].
  - by rewrite String.eqb_refl.
  - destruct (String.eqb_spec k' k) as [-> | Hne]; cbn [Dict.get].
    + by rewrite String.eqb_refl.
    + destruct (String.eqb_spec k' k); [done | exact IH].
Qed.

Lemma dict_set_get_other {V} (d : dict V) (k k0 : string) (v : V) :
  k0 <> k -> Dict.get (Dict.set d k v) k0 = Dict.get d k0.
Proof.
  intros Hne. induction d as [|[k' v'] d IH]; cbn [Dict.set Dict.get].
  - destruct (String.eqb_spec k k0); [congruence | done].
  - destruct (String.eqb_spec k' k) as [-> | Hne']; cbn [Dict.get].
    + destruct (String.eqb_spec k k0); [congruence | done].
    + destruct (String.eqb_spec k' k0); [done | exact IH].
Qed.

Lemma dict_set_keys {V} (d : dict V) (k : string) (v : V) :
  Dict.keys (Dict.set d k v) =
  match Dict.get d k with
  | Some _ => Dict.keys d
  | None => (Dict.keys d ++ [k])%list
  end.
Proof.
  induction d as [|[k' v'] d IH]; [reflexivity |].
  cbn [Dict.set Dict.get]. destruct (String.eqb_spec k' k) as [-> | Hne].
  - reflexivity.
  - cbn [Dict.keys map fst]. fold (Dict.keys (Dict.set d k v)).
    rewrite IH. by destruct (Dict.get d k).
Qed.

Lemma dict_set_unique {V} (d : dict V) (k : string) (v : V) :
  unique_keys d -> unique_keys (Dict.set d k v).
Proof.
  unfold unique_keys. intros Hnd. rewrite dict_set_keys.
  destruct (Dict.get d k) eqn:E; [done |].
  apply dict_get_None in E. apply NoDup_app. repeat split.
  - done.
  - intros x Hx Hk. apply list_elem_of_In in Hx.
    apply list_elem_of_In in Hk. destruct Hk as [<- | []]. done.
  - apply NoDup_singleton.
Qed.

Lemma dict_del_None {V} (d : dict V) (k : string) :
  Dict.del d k = None <-> Dict.get d k = None.
Proof.
  induction d as [|[k' v'] d IH]; [done |]. cbn [Dict.del Dict.get].
  destruct (String.eqb_spec k' k); [done |].
  destruct (Dict.del d k); simpl; [| tauto].
  split; [discriminate |]. intros H. apply IH in H. discriminate.
Qed.

Lemma dict_del_get_other {V} (d d' : dict V) (k k0 : string) :
  Dict.del d k = Some d' -> k0 <> k -> Dict.get d' k0 = Dict.get d k0.
Proof.
  revert d'. induction d as [|[k' v'] d IH]; intros d'; [discriminate |].
  cbn [Dict.del Dict.get]. destruct (String.eqb_spec k' k) as [-> | Hne].
  - intros [= <-] Hk. destruct (String.eqb_spec k k0); [congruence | done].
  - destruct (Dict.del d k) as [d1|]; [| discriminate]. simpl.
    intros [= <-] Hk. cbn [Dict.get].
    destruct (String.eqb_spec k' k0); [done | by apply IH].
Qed.

Lemma dict_del_keys {V} (d d' : dict V) (k : string) :
  unique_keys d -> Dict.del d k = Some d' ->
  Dict.keys d' = List.filter (fun k0 => negb (String.eqb k0 k)) (Dict.keys d).
Proof.
  unfold unique_keys. revert d'.
  induction d as [|[k' v'] d IH]; intros d' Hnd; [discriminate |].
  cbn [Dict.del Dict.keys map fst List.filter] in *.
  apply NoDup_cons in Hnd as [Hnot Hnd].
  destruct (String.eqb_spec k' k) as [-> | Hne]; cbn [negb].
  - intros [= <-]. symmetry. apply forallb_filter_id, forallb_forall.
    intros x Hx. destruct (String.eqb_spec x k) as [-> | ?]; [| done].
    destruct Hnot. by apply list_elem_of_In.
  - destruct (Dict.del d k) as [d1|] eqn:E; [| discriminate]. simpl.
    intros [= <-]. cbn [Dict.keys map fst]. f_equal. by apply IH.
Qed.

Lemma filter_not_In {A} (f : A -> bool) (l : list A) (x : A) :
  f x = false -> ~ In x (List.filter f l).
Proof. intros Hf Hin. apply filter_In in Hin as [_ H]. congruence. Qed.

(** ** Records in the book *)

(** X1: [add_record]: the record is found under its name afterwards, the other
    names keep what they had, and the order of the names stays: a name that
    was there keeps its place, a new one comes last. *)
Theorem add_record_lookup (r : record) (w : world) :
  let key := str_of_Name (name r) in
  let w' := snd (AddressBook.add_record r w) in
  fst (AddressBook.add_record r w) = Ok tt /\
  Dict.get (ab_data w') key = Some r /\
  (forall k, k <> key -> Dict.get (ab_data w') k = Dict.get (ab_data w) k) /\
  Dict.keys (ab_data w') =
    match Dict.get (ab_data w) key with
    | Some _ => Dict.keys (ab_data w)
    | None => (Dict.keys (ab_data w) ++ [key])%list
    end.
Proof.
  intros key w'. split; [reflexivity |]. subst w'. cbn [snd].
  unfold AddressBook.add_record, modify. cbn [snd ab_data with_data].
  split; [apply dict_set_get |]. split; [| apply dict_set_keys].
  intros k Hk. by apply dict_set_get_other.
Qed.

(** X2: [remove_record]: a name that is not there raises [KeyError] and leaves
    everything as it was; a name that is there is taken out, the other
    names keep their records and their order. *)
Theorem remove_record_spec (name_ : string) (w : world) :
  (Dict.get (ab_data w) name_ = None ->
   AddressBook.remove_record name_ w = (Raise KeyError, w)) /\
  (unique_keys (ab_data w) -> Dict.get (ab_data w) name_ <> None ->
   exists w',
     AddressBook.remove_record name_ w
       = (Ok (name_ ++ " record deleted"), w') /\
     Dict.get (ab_data w') name_ = None /\
     (forall k, k <> name_ ->
        Dict.get (ab_data w') k = Dict.get (ab_data w) k) /\
     Dict.keys (ab_data w') =
       List.filter (fun k => negb (String.eqb k name_)) (Dict.keys (ab_data w)) /\
     files w' = files w /\ stdin w' = stdin w /\ stdout w' = stdout w).
Proof.
  unfold AddressBook.remove_record. unfold_M. split.
  - intros H. apply dict_del_None in H. by rewrite H.
  - intros Hnd Hget.
    destruct (Dict.del (ab_data w) name_) as [d'|] eqn:E;
      [| by apply dict_del_None in E].
    eexists. split; [reflexivity |]. cbn [ab_data with_data files stdin stdout].
    pose proof (dict_del_keys _ _ _ Hnd E) as Hkeys.
    repeat split; try done.
    + apply dict_get_None. rewrite Hkeys. apply filter_not_In.
      by rewrite String.eqb_refl.
    + intros k Hk. by eapply dict_del_get_other.
Qed.

Lemma remove_record_spec_witness :
  let ann := mkrecord (mkName "ann") [mkPhone 0 (PStr "+380991234567")] None in
  let bob := mkrecord (mkName "bob") [] None in
  let w := mkworld [("ann", ann); ("bob", bob)] ∅ [] [] 1 (mkdate 2026 11 3) in
  AddressBook.remove_record "eve" w = (Raise KeyError, w) /\
  exists w',
    AddressBook.remove_record "ann" w = (Ok "ann record deleted", w') /\
    Dict.get (ab_data w') "ann" = None /\
    (forall k, k <> "ann" ->
       Dict.get (ab_data w') k = Dict.get (ab_data w) k) /\
    Dict.keys (ab_data w') =
      List.filter (fun k => negb (String.eqb k "ann")) (Dict.keys (ab_data w)) /\
    files w' = files w /\ stdin w' = stdin w /\ stdout w' = stdout w.
Proof.
  intros ann bob w. split.
  - apply (proj1 (remove_record_spec "eve" w)). reflexivity.
  - apply (proj2 (remove_record_spec "ann" w)).
    + unfold unique_keys. apply NoDup_ListNoDup.
      repeat constructor; simpl; intuition discriminate.
    + discriminate.
Defined.

(** In a book whose records are filed under their own names, each once,
    looking a name up by [search_by_name] is looking up the key. *)
Lemma search_by_name_get (d : dict record) (name_ : string) :
  unique_keys d -> keyed_by_name d ->
  AddressBook.search_by_name d name_ =
  match Dict.get d name_ with
  | Some r => [r]
  | None => []
  end.
Proof.
  unfold unique_keys, keyed_by_name, AddressBook.search_by_name,
    Dict.values, Dict.keys.
  induction d as [|[k r] d IH]; [done |].
  cbn [Dict.keys Dict.values map fst snd Dict.get List.filter].
  intros Hnd Hkey. apply NoDup_cons in Hnd as [Hnot Hnd].
  apply Forall_cons in Hkey as [Hk Hkey]. cbn [fst snd] in Hk. subst k.
  specialize (IH Hnd Hkey).
  destruct (String.eqb_spec (str_of_Name (name r)) name_) as [<- | Hne].
  - f_equal. rewrite IH.
    destruct (Dict.get d (str_of_Name (name r))) eqn:E; [| done].
    destruct Hnot. apply list_elem_of_In.
    apply dict_get_In in E. apply in_map_iff. by eexists (_, _).
  - exact IH.
Qed.

Lemma keyed_by_name_set (d : dict record) (r : record) :
  keyed_by_name d -> keyed_by_name (Dict.set d (str_of_Name (name r)) r).
Proof.
  unfold keyed_by_name. induction d as [|[k r0] d IH]; intros H.
  - by repeat constructor.
  - apply Forall_cons in H as [Hk H]. cbn [Dict.set].
    destruct (String.eqb_spec k (str_of_Name (name r))) as [-> | Hne];
      constructor; try done. by apply IH.
Qed.

(** X3: After [add_record(r)], [search_by_name] with the name of [r] returns
    [r] and nothing else. *)
Theorem search_by_name_after_add (r : record) (w : world) :
  unique_keys (ab_data w) -> keyed_by_name (ab_data w) ->
  AddressBook.search_by_name
    (ab_data (snd (AddressBook.add_record r w))) (str_of_Name (name r)) = [r].
Proof.
  intros Hnd Hkey. unfold AddressBook.add_record, modify.
  cbn [snd ab_data with_data].
  rewrite search_by_name_get.
  - by rewrite dict_set_get.
  - by apply dict_set_unique.
  - by apply keyed_by_name_set.
Qed.

Lemma search_by_name_after_add_witness :
  let ann := mkrecord (mkName "Ann") [mkPhone 0 (PStr "+380991234567")] None in
  let bob := mkrecord (mkName "bob") [] None in
  let w := mkworld [("bob", bob)] ∅ [] [] 1 (mkdate 2026 11 3) in
  AddressBook.search_by_name
    (ab_data (snd (AddressBook.add_record ann w))) "Ann" = [ann].
Proof.
  intros ann bob w. apply (search_by_name_after_add ann w).
  - unfold unique_keys. apply NoDup_ListNoDup.
      repeat constructor; simpl; intuition discriminate.
  - repeat constructor.
Defined.

(** ** The phones of a record *)

Lemma record_eta (r : record) :
  mkrecord (name r) (phones r) (birthday r) = r.
Proof. by destruct r. Qed.

Lemma filter_all {A} (f : A -> bool) (l : list A) :
  (forall x, In x l -> f x = true) -> List.filter f l = l.
Proof.
  intros H. apply forallb_filter_id, forallb_forall. exact H.
Qed.

Lemma filter_sublist {A} (f : A -> bool) (l : list A) :
  sublist (List.filter f l) l.
Proof.
  induction l as [|x l IH]; [constructor |]. cbn [List.filter].
  destruct (f x); by constructor.
Qed.

(** X4: [remove_phone(text)] takes out every phone whose text is [text], also
    when several objects carry it, and keeps the others in their order; it
    changes nothing when no phone has the text, and it undoes an
    [add_phone] of a phone with a text that was not there before. *)
Theorem remove_phone_spec (text : string) (r : record) :
  let r' := snd (Rec.remove_phone text r) in
  (forall p, In p (phones r') <-> In p (phones r) /\ str_of_Phone p <> text) /\
  sublist (phones r') (phones r) /\
  name r' = name r /\ birthday r' = birthday r /\
  ((forall p, In p (phones r) -> str_of_Phone p <> text) -> r' = r) /\
  (forall p : Phone,
     str_of_Phone p = text ->
     (forall q, In q (phones r) -> str_of_Phone q <> text) ->
     phones (snd (Rec.remove_phone text (snd (Rec.add_phone p r))))
     = phones r).
Proof.
  intros r'. subst r'. unfold Rec.remove_phone. cbn [snd phones name birthday].
  assert (Hkeep : forall l : list Phone,
            (forall q, In q l -> str_of_Phone q <> text) ->
            List.filter (fun q => negb (String.eqb (str_of_Phone q) text)) l = l).
  { intros l H. apply filter_all. intros q Hq.
    destruct (String.eqb_spec (str_of_Phone q) text); [by destruct (H q Hq) | done]. }
  repeat split; try done.
  - by apply filter_In in H as [? _].
  - apply filter_In in H as [_ H].
    destruct (String.eqb_spec (str_of_Phone p) text); [discriminate | done].
  - intros [Hin Hne]. apply filter_In. split; [done |].
    by destruct (String.eqb_spec (str_of_Phone p) text).
  - apply filter_sublist.
  - intros H. rewrite (Hkeep _ H). apply record_eta.
  - intros p Hp Hnone. unfold Rec.add_phone.
    destruct (negb (Rec.phone_in p (phones r))); cbn [snd phones].
    + rewrite List.filter_app, (Hkeep _ Hnone). cbn [List.filter].
      rewrite Hp, String.eqb_refl. cbn [negb]. apply app_nil_r.
    + by apply Hkeep.
Qed.

Lemma remove_phone_spec_witness :
  let p1 := mkPhone 0 (PStr "+380991234567") in
  let p2 := mkPhone 1 (PStr "+380501112233") in
  let p3 := mkPhone 2 (PStr "+380991234567") in
  let r := mkrecord (mkName "ann") [p2] None in
  phones (snd (Rec.remove_phone "+380991234567" (snd (Rec.add_phone p1 r))))
  = [p2] /\
  snd (Rec.remove_phone "+380670000000" r) = r.
Proof.
  intros p1 p2 p3 r. split.
  - apply (proj2 (proj2 (proj2 (proj2 (proj2
             (remove_phone_spec "+380991234567" r))))) p1); [reflexivity |].
    intros q [<- | []]. discriminate.
  - apply (proj1 (proj2 (proj2 (proj2 (proj2
             (remove_phone_spec "+380670000000" r)))))).
    intros q [<- | []]. discriminate.
Defined.

Lemma replace_first_length (old : string) (new_phone : Phone) (l : list Phone) :
  length (Rec.replace_first old new_phone l) = length l.
Proof.
  induction l as [|p l IH]; [done |]. cbn [Rec.replace_first].
  destruct (String.eqb (str_of_Phone p) old); simpl; by rewrite ?IH.
Qed.

Lemma replace_first_at (old : string) (new_phone p : Phone)
    (l1 l2 : list Phone) :
  (forall q, In q l1 -> str_of_Phone q <> old) ->
  str_of_Phone p = old ->
  Rec.replace_first old new_phone (l1 ++ p :: l2) = (l1 ++ new_phone :: l2)%list.
Proof.
  intros Hl1 Hp. induction l1 as [|q l1 IH]; cbn [app Rec.replace_first].
  - by rewrite Hp, String.eqb_refl.
  - destruct (String.eqb_spec (str_of_Phone q) old) as [He | _].
    + destruct (Hl1 q); [by left | done].
    + f_equal. apply IH. intros q' Hq'. apply Hl1. by right.
Qed.

Lemma replace_first_none (old : string) (new_phone : Phone) (l : list Phone) :
  (forall q, In q l -> str_of_Phone q <> old) ->
  Rec.replace_first old new_phone l = l.
Proof.
  intros H. induction l as [|q l IH]; [done |]. cbn [Rec.replace_first].
  destruct (String.eqb_spec (str_of_Phone q) old) as [He | _].
  - destruct (H q); [by left | done].
  - f_equal. apply IH. intros q' Hq'. apply H. by right.
Qed.

(** X5: [change_phone(old, new)] puts [new] in the place of the first phone
    that has the text of [old] and of no other: the phones before and
    after it stay, also later ones with the same text; without such a
    phone nothing changes.  The number of phones stays the same. *)
Theorem change_phone_spec (old_phone new_phone : Phone) (r : record) :
  let r' := snd (Rec.change_phone old_phone new_phone r) in
  length (phones r') = length (phones r) /\
  name r' = name r /\ birthday r' = birthday r /\
  (forall (l1 l2 : list Phone) (p : Phone),
     phones r = (l1 ++ p :: l2)%list ->
     (forall q, In q l1 -> str_of_Phone q <> str_of_Phone old_phone) ->
     str_of_Phone p = str_of_Phone old_phone ->
     phones r' = (l1 ++ new_phone :: l2)%list) /\
  ((forall q, In q (phones r) -> str_of_Phone q <> str_of_Phone old_phone) ->
   r' = r).
Proof.
  intros r'. subst r'. unfold Rec.change_phone. cbn [snd phones name birthday].
  split; [apply replace_first_length |]. repeat split.
  - intros l1 l2 p -> Hl1 Hp. by apply replace_first_at.
  - intros H. rewrite replace_first_none by done. apply record_eta.
Qed.

Lemma change_phone_spec_witness :
  let p1 := mkPhone 0 (PStr "+380501112233") in
  let p2 := mkPhone 1 (PStr "+380991234567") in
  let p3 := mkPhone 2 (PStr "+380991234567") in
  let new_phone := mkPhone 3 (PStr "+380670000000") in
  let r := mkrecord (mkName "ann") [p1; p2; p3] None in
  phones (snd (Rec.change_phone p3 new_phone r)) = [p1; new_phone; p3].
Proof.
  intros p1 p2 p3 new_phone r.
  apply (proj1 (proj2 (proj2 (proj2 (change_phone_spec p3 new_phone r))))
           [p1] [p3] p2); [reflexivity | | reflexivity].
  intros q [<- | []]. discriminate.
Defined.

(** ** The commands: what they leave alone and what they keep *)

Lemma world_eta (w : world) :
  mkworld (ab_data w) (files w) (stdin w) (stdout w) (next_id w) (today w) = w.
Proof. by destruct w. Qed.

Lemma command_post_refl (w : world) (res : result string) :
  res <> Unfinished -> command_post w res w.
Proof.
  intros H. unfold command_post. split_and!; try done.
  - by exists [].
  - exists []. by rewrite app_nil_r.
Qed.

Lemma phones_made_mono (n n' : nat) (d : dict record) :
  n <= n' -> phones_made n d -> phones_made n' d.
Proof.
  intros Hle H. unfold phones_made in *.
  eapply Forall_impl; [exact H |]. intros kr Hkr.
  eapply Forall_impl; [exact Hkr |]. intros p [Hv Hid]. split; [done | lia].
Qed.

Lemma dict_set_In {V} (d : dict V) (k : string) (v : V) (x : string * V) :
  In x (Dict.set d k v) -> x = (k, v) \/ In x d.
Proof.
  induction d as [|[k' v'] d IH]; cbn [Dict.set].
  - intros [<- | []]. by left.
  - destruct (String.eqb_spec k' k) as [-> | Hne].
    + intros [<- | Hin]; [by left | right; by right].
    + intros [<- | Hin]; [right; by left |].
      destruct (IH Hin) as [-> | H]; [by left | right; by right].
Qed.

Lemma dict_del_In {V} (d d' : dict V) (k : string) (x : string * V) :
  Dict.del d k = Some d' -> In x d' -> In x d.
Proof.
  revert d'. induction d as [|[k' v'] d IH]; intros d'; [discriminate |].
  cbn [Dict.del]. destruct (String.eqb k' k).
  - intros [= <-] Hin. by right.
  - destruct (Dict.del d k) as [d1|]; [| discriminate]. simpl.
    intros [= <-] [<- | Hin]; [by left | right; by apply (IH d1)].
Qed.

Lemma Forall_In_transfer {A} (P : A -> Prop) (l l' : list A) :
  (forall x, In x l' -> In x l) -> Forall P l -> Forall P l'.
Proof.
  intros Hsub H. apply List.Forall_forall. intros x Hx.
  rewrite List.Forall_forall in H. by apply H, Hsub.
Qed.

(** What a method call on the record under an existing key keeps. *)
Lemma book_ok_set (w : world) (key : string) (r r' : record) :
  book_ok w ->
  Dict.get (ab_data w) key = Some r ->
  name r' = name r ->
  Forall (fun p => Phone.is_valid_phone (phone_value p) = true /\
                   phone_id p < next_id w) (phones r') ->
  book_ok (with_data (Dict.set (ab_data w) key r') w).
Proof.
  intros (Hu & Hk & Hp) Hget Hname Hphones.
  assert (Hkey : key = str_of_Name (name r)).
  { apply dict_get_In in Hget. unfold keyed_by_name in Hk.
    rewrite List.Forall_forall in Hk. exact (Hk _ Hget). }
  unfold book_ok. cbn [ab_data with_data next_id]. split_and!.
  - by apply dict_set_unique.
  - subst key. rewrite <- Hname. by apply keyed_by_name_set.
  - unfold phones_made in *. apply List.Forall_forall. intros x Hx.
    apply dict_set_In in Hx as [-> | Hx]; [exact Hphones |].
    rewrite List.Forall_forall in Hp. by apply Hp.
Qed.

Lemma book_ok_same_data (w w' : world) :
  ab_data w' = ab_data w -> next_id w <= next_id w' ->
  book_ok w -> book_ok w'.
Proof.
  intros Hd Hn (Hu & Hk & Hp). unfold book_ok. rewrite Hd.
  split_and!; try done. by eapply phones_made_mono.
Qed.

Lemma days_to_birthday_finishes (current_date : date) (r : record) :
  Rec.days_to_birthday current_date r <> Unfinished.
Proof.
  unfold Rec.days_to_birthday.
  destruct (birthday r) as [[b | bd] |]; try discriminate.
  destruct (date_new_outcome (year current_date) (month bd) (day bd))
    as [[d1 ->] | [msg ->]]; [| discriminate]. cbn [rbind].
  destruct (date_ltb d1 current_date); [| discriminate].
  destruct (date_new_outcome (year current_date + 1) (month bd) (day bd))
    as [[d2 ->] | [msg ->]]; discriminate.
Qed.

Lemma set_birthday_outcome (text : string) (r : record) :
  exists msg r',
    Rec.set_birthday (ArgStr text) r = (Ok msg, r') /\
    name r' = name r /\ phones r' = phones r.
Proof.
  unfold Rec.set_birthday.
  destruct (strptime_dmY_outcome text) as [[d ->] | [msg ->]]; eauto.
Qed.

Lemma post_find (name_ : string) (w : world) :
  command_post w (fst (Commands.find name_ w)) (snd (Commands.find name_ w)).
Proof.
  unfold Commands.find. unfold_M.
  destruct (AddressBook.search_by_name (ab_data w) name_);
    by apply command_post_refl.
Qed.

Lemma post_days_to_birthday (name_ : string) (w : world) :
  command_post w (fst (Commands.days_to_birthday name_ w))
    (snd (Commands.days_to_birthday name_ w)).
Proof.
  unfold Commands.days_to_birthday. unfold_M.
  destruct (Dict.get (ab_data w) name_); apply command_post_refl;
    [apply days_to_birthday_finishes | discriminate].
Qed.

Lemma post_search (args : list string) (w : world) :
  command_post w (fst (Commands.search args w)) (snd (Commands.search args w)).
Proof.
  unfold Commands.search. unfold_M.
  destruct args as [|query [|? ?]]; try by apply command_post_refl.
  destruct (3 <=? len query)%Z; [| by apply command_post_refl].
  destruct (AddressBook.search (ab_data w) query);
    by apply command_post_refl.
Qed.

Lemma post_remove (name_ : string) (w : world) :
  command_post w (fst (Commands.remove name_ w)) (snd (Commands.remove name_ w)).
Proof.
  unfold Commands.remove, AddressBook.remove_record. unfold_M.
  destruct (Dict.get (ab_data w) name_); [| by apply command_post_refl].
  destruct (Dict.del (ab_data w) name_) as [d'|] eqn:E;
    [| by apply command_post_refl].
  cbn [fst snd]. unfold command_post. split_and!; try done.
  - by exists [].
  - exists []. by rewrite app_nil_r.
  - intros (Hu & Hk & Hp). unfold book_ok. cbn [ab_data with_data next_id].
    split_and!.
    + unfold unique_keys in *. rewrite (dict_del_keys _ _ _ Hu E).
      apply NoDup_ListNoDup, List.NoDup_filter. by apply NoDup_ListNoDup.
    + eapply Forall_In_transfer; [| exact Hk]. intros x.
      by apply (dict_del_In _ _ _ _ E).
    + eapply Forall_In_transfer; [| exact Hp]. intros x.
      by apply (dict_del_In _ _ _ _ E).
Qed.

Lemma post_set_birthday (name_ text : string) (w : world) :
  command_post w (fst (Commands.set_birthday name_ text w))
    (snd (Commands.set_birthday name_ text w)).
Proof.
  unfold Commands.set_birthday, on_record. unfold_M.
  destruct (Dict.get (ab_data w) name_) as [r|] eqn:Hget;
    [| by apply command_post_refl].
  destruct (set_birthday_outcome text r) as (msg & r' & -> & Hn & Hp).
  cbn [fst snd]. unfold command_post. split_and!; try done.
  - by exists [].
  - exists []. by rewrite app_nil_r.
  - intros Hok. eapply book_ok_set; try eassumption.
    rewrite Hp. destruct Hok as (_ & _ & Hpm).
    apply dict_get_In in Hget. unfold phones_made in Hpm.
    rewrite List.Forall_forall in Hpm. exact (Hpm _ Hget).
Qed.

Lemma io_only_refl (w : world) : io_only w w.
Proof.
  unfold io_only. split_and!; try done.
  - by exists [].
  - exists []. by rewrite app_nil_r.
Qed.

Lemma io_only_trans (w1 w2 w3 : world) :
  io_only w1 w2 -> io_only w2 w3 -> io_only w1 w3.
Proof.
  intros (Hd & Hf & Ht & Hn & [r1 Hr1] & [o1 Ho1])
         (Hd' & Hf' & Ht' & Hn' & [r2 Hr2] & [o2 Ho2]).
  unfold io_only. split_and!; try congruence.
  - exists (r1 ++ r2)%list. by rewrite Hr1, Hr2, app_assoc.
  - exists (o1 ++ o2)%list. by rewrite Ho2, Ho1, app_assoc.
Qed.

Lemma io_only_post (w w' : world) (res : result string) :
  res <> Unfinished -> io_only w w' -> command_post w res w'.
Proof.
  intros Hres (Hd & Hf & Ht & Hn & Hr & Ho).
  unfold command_post. split_and!; try done; [lia |].
  apply book_ok_same_data; [done | lia].
Qed.

Lemma io_only_print (s : string) (w : world) :
  fst (print s w) = Ok tt /\ io_only w (snd (print s w)).
Proof.
  split; [reflexivity |]. unfold io_only. cbn. split_and!; try done.
  - by exists [].
  - by eexists.
Qed.

Lemma io_only_input (prompt : string) (w : world) :
  fst (input prompt w) <> Unfinished /\ io_only w (snd (input prompt w)) /\
  (forall line, fst (input prompt w) = Ok line ->
     length (stdin (snd (input prompt w))) < length (stdin w)).
Proof.
  unfold input, io_only. destruct (stdin w) as [|line rest] eqn:E;
    cbn [fst snd ab_data files today next_id stdin stdout with_stdin with_stdout].
  - split; [discriminate |]. split; [| discriminate].
    rewrite E. split_and!; try done; [by exists [] | by eexists].
  - split; [discriminate |]. split; [| intros _ _; simpl; lia].
    split_and!; try done; [by exists [line] | by eexists].
Qed.

(** Printing the records of a chunk. *)
Lemma mapM_print (l : list record) (w : world) :
  exists units, fst (mapM (fun r => print (Rec.str r)) l w) = Ok units /\
  io_only w (snd (mapM (fun r => print (Rec.str r)) l w)) /\
  stdin (snd (mapM (fun r => print (Rec.str r)) l w)) = stdin w.
Proof.
  revert w. induction l as [|r l IH]; intros w.
  - exists []. split; [reflexivity |]. split; [apply io_only_refl | done].
  - cbn [mapM]. unfold_M.
    destruct (io_only_print (Rec.str r) w) as [Hres Hio].
    destruct (print (Rec.str r) w) as [res w1] eqn:E1. cbn [fst snd] in *.
    subst res.
    assert (Hs1 : stdin w1 = stdin w)
      by (unfold print, modify in E1; by injection E1 as <-).
    destruct (IH w1) as (units & Hres2 & Hio2 & Hs2).
    destruct (mapM (fun r0 => print (Rec.str r0)) l w1) as [res2 w2].
    cbn [fst snd] in *. subst res2. cbn [fst snd].
    exists (tt :: units). split; [done |]. split; [| congruence].
    by eapply io_only_trans.
Qed.

(** The pager of the [show_all] command comes to an end when the fuel
    exceeds the input that is left: every page costs a line of input. *)
Lemma show_pages_post (fuel : nat) (g : gen) (w : world) :
  length (stdin w) < fuel ->
  fst (Commands.show_pages fuel g w) <> Unfinished /\
  io_only w (snd (Commands.show_pages fuel g w)).
Proof.
  revert g w. induction fuel as [|fuel IH]; intros g w Hfuel; [lia |].
  cbn [Commands.show_pages]. unfold_M.
  destruct (next (ab_data w) g) as [[chunk | | e] g'].
  - destruct (mapM_print chunk w) as (units & Hres & Hio & Hstdin).
    destruct (mapM (fun r => print (Rec.str r)) chunk w) as [res w1].
    cbn [fst snd] in *. subst res.
    destruct (io_only_input "Press Enter to continue or 'q' to quit: " w1)
      as (Hfin & Hio2 & Hless).
    destruct (input "Press Enter to continue or 'q' to quit: " w1)
      as [[choice | e |] w2]; cbn [fst snd] in *.
    + specialize (Hless choice eq_refl). rewrite Hstdin in Hless.
      destruct (String.eqb (lower choice) "q").
      * split; [discriminate |]. cbn [snd]. by eapply io_only_trans.
      * destruct (IH g' w2) as [Hf Hio3]; [lia |].
        split; [done |]. eapply io_only_trans; [exact Hio |].
        by eapply io_only_trans.
    + split; [discriminate |]. by eapply io_only_trans.
    + done.
  - split; [discriminate | apply io_only_refl].
  - split; [discriminate | apply io_only_refl].
Qed.

Lemma int_finishes (s : string) : int s <> Unfinished.
Proof. destruct (int_outcome s) as [[n ->] | [msg ->]]; discriminate. Qed.

Lemma post_show_all (fuel : nat) (args : list string) (w : world) :
  length (stdin w) < fuel ->
  command_post w (fst (Commands.show_all fuel args w))
    (snd (Commands.show_all fuel args w)).
Proof.
  intros Hfuel. unfold Commands.show_all. unfold_M.
  destruct args as [|arg args].
  - destruct fuel as [|fuel]; [lia |].
    change (AddressBook.show_all (S fuel) None w)
      with (print (join nl (map Rec.str (Dict.values (ab_data w)))) w).
    apply io_only_post; [discriminate |]. apply io_only_print.
  - pose proof (int_finishes arg) as Hint.
    destruct (int arg) as [n | e |]; [| | done].
    + destruct (show_pages_post fuel (iterator (Some n)) w Hfuel) as [Hf Hio].
      destruct (Commands.show_pages fuel (iterator (Some n)) w)
        as [[[] | e |] w1]; cbn [fst snd] in *;
        try (apply io_only_post; [discriminate | done]). done.
    + apply command_post_refl. discriminate.
Qed.

Lemma book_ok_next (w : world) (n : nat) :
  next_id w <= n -> book_ok w -> book_ok (with_next_id n w).
Proof. intros Hn. by apply book_ok_same_data. Qed.

Lemma post_next (w : world) (res : result string) :
  res <> Unfinished ->
  command_post w res (with_next_id (S (next_id w)) w).
Proof.
  intros Hres. unfold command_post.
  cbn [files today next_id stdin stdout with_next_id]. split_and!; try done.
  - lia.
  - by exists [].
  - exists []. by rewrite app_nil_r.
  - apply book_ok_next. lia.
Qed.

Lemma Rec_init_phone (n : Name) (p : Phone) :
  Rec.init n (Some p) None = Ok (mkrecord n [p] None).
Proof. reflexivity. Qed.

Lemma post_add (name_ : string) (phone birthday : pyval) (w : world) :
  command_post w (fst (Commands.add name_ phone birthday w))
    (snd (Commands.add name_ phone birthday w)).
Proof.
  destruct (Dict.get (ab_data w) name_) as [r|] eqn:Hget.
  - rewrite (add_existing_record w name_ phone birthday r Hget).
    by apply command_post_refl.
  - unfold Commands.add. unfold_M. rewrite Hget.
    destruct (Phone.is_valid_phone phone) eqn:Hvalid.
    + rewrite (Phone_new_valid phone w Hvalid).
      destruct (truthy birthday).
      * rewrite Birthday_new_raises. by apply post_next.
      * rewrite Rec_init_phone. unfold AddressBook.add_record, modify.
        cbn [fst snd]. unfold command_post.
        cbn [files today next_id stdin stdout ab_data with_data with_next_id].
        split_and!; try done.
        -- lia.
        -- by exists [].
        -- exists []. by rewrite app_nil_r.
        -- intros (Hu & Hk & Hp). unfold book_ok.
           cbn [ab_data with_data next_id with_next_id]. split_and!.
           ++ by apply dict_set_unique.
           ++ by apply (keyed_by_name_set (ab_data w)
                          (mkrecord (mkName name_)
                             [mkPhone (next_id w) phone] None)).
           ++ unfold phones_made. apply List.Forall_forall. intros x Hx.
              apply dict_set_In in Hx as [-> | Hx].
              ** cbn [snd phones]. constructor; [| constructor].
                 split; [done | simpl; lia].
              ** apply (phones_made_mono (next_id w) (S (next_id w))) in Hp;
                   [| lia].
                 unfold phones_made in Hp.
                 rewrite List.Forall_forall in Hp. by apply Hp.
    + rewrite (Phone_new_invalid phone w Hvalid). by apply post_next.
Qed.

Lemma insert_keys (d : dict record) (i : nat) (k : string) (r r' : record) :
  d !! i = Some (k, r) -> Dict.keys (<[i := (k, r')]> d) = Dict.keys d.
Proof.
  revert i. induction d as [|[k0 r0] d IH]; intros i; destruct i as [|i];
    try done.
  - intros [= -> ->]. reflexivity.
  - intros H. cbn. f_equal. by apply IH.
Qed.

Lemma insert_In {A} (l : list A) (i : nat) (y x : A) :
  In x (<[i := y]> l) -> x = y \/ In x l.
Proof.
  revert i. induction l as [|z l IH]; intros i; destruct i as [|i];
    cbn; try tauto.
  - intros [<- | H]; tauto.
  - intros [<- | H]; [tauto |]. destruct (IH i H); tauto.
Qed.

Lemma lookup_In {A} (l : list A) (i : nat) (x : A) :
  l !! i = Some x -> In x l.
Proof. intros H. apply list_elem_of_In. by eapply list_elem_of_lookup_2. Qed.

Lemma replace_first_Forall (P : Phone -> Prop) (old : string)
    (new_phone : Phone) (l : list Phone) :
  P new_phone -> Forall P l -> Forall P (Rec.replace_first old new_phone l).
Proof.
  intros Hnew. induction 1 as [|p l Hp Hl IH]; [constructor |].
  cbn [Rec.replace_first]. destruct (String.eqb (str_of_Phone p) old);
    by constructor.
Qed.

Lemma book_ok_insert (w : world) (i : nat) (k : string) (r r' : record) :
  book_ok w ->
  ab_data w !! i = Some (k, r) ->
  name r' = name r ->
  Forall (fun p => Phone.is_valid_phone (phone_value p) = true /\
                   phone_id p < next_id w) (phones r') ->
  book_ok (with_data (<[i := (k, r')]> (ab_data w)) w).
Proof.
  intros (Hu & Hk & Hp) Hi Hname Hphones. unfold book_ok.
  cbn [ab_data with_data next_id]. split_and!.
  - unfold unique_keys. by rewrite (insert_keys _ _ _ _ _ Hi).
  - unfold keyed_by_name in *. apply List.Forall_forall. intros x Hx.
    rewrite List.Forall_forall in Hk.
    apply insert_In in Hx as [-> | Hx]; [| by apply Hk].
    cbn [fst snd]. rewrite Hname. exact (Hk _ (lookup_In _ _ _ Hi)).
  - unfold phones_made in *. apply List.Forall_forall. intros x Hx.
    rewrite List.Forall_forall in Hp.
    apply insert_In in Hx as [-> | Hx]; [exact Hphones | by apply Hp].
Qed.

(** [change_phone_by_name] on the places it was given. *)
Lemma change_phone_at_post (refs : list nat) (new_phone : string) (w : world) :
  forall res w',
    AddressBook.change_phone_at refs new_phone w = (res, w') ->
    res <> Unfinished /\
    files w' = files w /\ today w' = today w /\ next_id w <= next_id w' /\
    stdin w' = stdin w /\ stdout w' = stdout w /\
    (book_ok w -> book_ok w').
Proof.
  revert w. induction refs as [|i refs IH]; intros w res w'.
  - intros [= <- <-]. split_and!; done.
  - cbn [AddressBook.change_phone_at]. unfold_M.
    destruct (ab_data w !! i) as [[k r]|] eqn:Hi;
      [| intros [= <- <-]; split_and!; done].
    destruct (phones r) as [|first rest] eqn:Hphones;
      [intros [= <- <-]; split_and!; done |].
    destruct (Phone.is_valid_phone (PStr new_phone)) eqn:Hvalid.
    + rewrite (Phone_new_valid _ w Hvalid).
      intros Hrec. apply IH in Hrec as (Hf & H1 & H2 & H3 & H4 & H5 & H6).
      cbn [files today next_id stdin stdout with_data with_next_id] in *.
      split_and!; try done; [lia |].
      intros Hok. apply H6.
      apply (book_ok_insert (with_next_id (S (next_id w)) w) i k r).
      * apply book_ok_next; [lia | done].
      * exact Hi.
      * reflexivity.
      * cbn [snd Rec.change_phone phones next_id with_next_id].
        apply replace_first_Forall; [split; [exact Hvalid | simpl; lia] |].
        destruct Hok as (_ & _ & Hp). unfold phones_made in Hp.
        rewrite List.Forall_forall in Hp.
        specialize (Hp _ (lookup_In _ _ _ Hi)). cbn [snd] in Hp.
        eapply Forall_impl; [exact Hp |]. intros p [? ?]. split; [done | lia].
    + rewrite (Phone_new_invalid _ w Hvalid). intros [= <- <-].
      cbn [files today next_id stdin stdout with_next_id].
      split_and!; try done; [lia |]. apply book_ok_next. lia.
Qed.

Lemma post_change (name_ new_phone : string) (w : world) :
  command_post w (fst (Commands.change name_ new_phone w))
    (snd (Commands.change name_ new_phone w)).
Proof.
  unfold Commands.change, AddressBook.change_phone_by_name. unfold_M.
  destruct (Dict.get (ab_data w) name_); [| by apply command_post_refl].
  destruct (AddressBook.change_phone_at
              (AddressBook.refs_by_name (ab_data w) name_ 0) new_phone w)
    as [res w'] eqn:E.
  apply change_phone_at_post in E as (Hf & H1 & H2 & H3 & H4 & H5 & H6).
  unfold command_post.
  destruct res as [[] | e |]; cbn [fst snd]; split_and!; try done.
  - exists []. by rewrite H4.
  - exists []. by rewrite H5, app_nil_r.
  - exists []. by rewrite H4.
  - exists []. by rewrite H5, app_nil_r.
Qed.

(** The call of any function of the table. *)
Lemma apply_post (fuel : nat) (h : handler) (args : list string) (w : world) :
  length (stdin w) < fuel ->
  command_post w (fst (Commands.apply fuel h args w))
    (snd (Commands.apply fuel h args w)).
Proof.
  intros Hfuel.
  destruct h; destruct args as [|a [|b [|c [|d args]]]]; cbn [Commands.apply];
    first [ by apply command_post_refl
          | apply post_add | apply post_change | apply post_find
          | by apply post_show_all | apply post_set_birthday
          | apply post_days_to_birthday | apply post_search
          | apply post_remove ].
Qed.

Lemma input_error_outcome (c : M string) (w : world) :
  raises_Exceptions c ->
  snd (Commands.input_error c w) = snd (c w) /\
  (fst (c w) <> Unfinished ->
   exists text, fst (Commands.input_error c w) = Ok text).
Proof.
  intros Hc. specialize (Hc w). unfold Commands.input_error. unfold_M.
  destruct (c w) as [[text | e |] w']; cbn [fst snd] in *;
    [split; eauto | | split; eauto; done].
  rewrite (Hc e eq_refl). cbn [fst snd]. split; eauto.
Qed.

Lemma call_post (fuel : nat) (h : handler) (args : list string) (w : world) :
  length (stdin w) < fuel ->
  command_post w (fst (Commands.call fuel h args w))
    (snd (Commands.call fuel h args w)).
Proof.
  intros Hfuel. pose proof (apply_post fuel h args w Hfuel) as Hpost.
  unfold Commands.call. destruct (Commands.wrapped h); [| exact Hpost].
  destruct (input_error_outcome (Commands.apply fuel h args) w
              (raises_Exceptions_apply fuel h args)) as [Hs Hr].
  rewrite Hs. destruct Hpost as (Hf & Hrest). split; [| exact Hrest].
  destruct (Hr Hf) as [text ->]. discriminate.
Qed.

(** X6: Every command keeps the book well-formed: each record stays filed
    under its own name, no name is there twice, and every phone in the
    book has a value that the validator accepts and an identity given out
    by the constructor. *)
Theorem commands_keep_book_ok (fuel : nat) (h : handler)
    (args : list string) (w : world) :
  length (stdin w) < fuel ->
  book_ok w ->
  book_ok (snd (Commands.call fuel h args w)).
Proof. intros Hfuel Hok. by apply (call_post fuel h args w Hfuel). Qed.

Lemma commands_keep_book_ok_witness :
  let ann := mkrecord (mkName "ann") [mkPhone 0 (PStr "+380991234567")] None in
  let w := mkworld [("ann", ann)] ∅ [] [] 1 (mkdate 2026 11 3) in
  book_ok (snd (Commands.call 1 h_change ["ann"; "+380501112233"] w)).
Proof.
  intros ann w. apply (commands_keep_book_ok 1 h_change _ w).
  - simpl. lia.
  - unfold book_ok. split_and!.
    + apply (NoDup_singleton "ann").
    + by repeat constructor.
    + repeat constructor; simpl; lia.
Defined.

(** X7: No command writes a file or turns the clock: a command reads input
    from the front, writes output at the end and gives out identities
    upwards, and that is all it does outside the book. *)
Theorem commands_leave_files (fuel : nat) (h : handler)
    (args : list string) (w : world) :
  length (stdin w) < fuel ->
  let w' := snd (Commands.call fuel h args w) in
  files w' = files w /\ today w' = today w /\ next_id w <= next_id w' /\
  (exists read, stdin w = (read ++ stdin w')%list) /\
  (exists out, stdout w' = (stdout w ++ out)%list).
Proof.
  intros Hfuel w'.
  destruct (call_post fuel h args w Hfuel) as (_ & H1 & H2 & H3 & H4 & H5 & _).
  by split_and!.
Qed.

Lemma commands_leave_files_witness :
  let w := mkworld [] (<["ab.bin" := "x"]> ∅) ["q"] [] 0 (mkdate 2026 11 3) in
  let w' := snd (Commands.call 2 h_show_all ["1"] w) in
  files w' = files w /\ today w' = today w /\ next_id w <= next_id w' /\
  (exists read, stdin w = (read ++ stdin w')%list) /\
  (exists out, stdout w' = (stdout w ++ out)%list).
Proof.
  intros w. apply (commands_leave_files 2 h_show_all ["1"] w). simpl. lia.
Defined.

(** X8: A wrapped command never raises: whatever happens inside, the wrapper
    returns a text.  That holds for every function of the table but [add]
    and [help]. *)
Theorem wrapped_command_returns_text (fuel : nat) (h : handler)
    (args : list string) (w : world) :
  Commands.wrapped h = true ->
  length (stdin w) < fuel ->
  exists text, fst (Commands.call fuel h args w) = Ok text.
Proof.
  intros Hw Hfuel. unfold Commands.call. rewrite Hw.
  apply input_error_outcome; [apply raises_Exceptions_apply |].
  by apply (apply_post fuel h args w Hfuel).
Qed.

Lemma wrapped_command_returns_text_witness :
  let w := mkworld [] ∅ [] [] 0 (mkdate 2026 11 3) in
  exists text, fst (Commands.call 1 h_change ["ann"] w) = Ok text.
Proof.
  intros w. apply (wrapped_command_returns_text 1 h_change ["ann"] w).
  - reflexivity.
  - simpl. lia.
Defined.

(** ** Sessions *)

Section Sessions.
Context {P : Pickle}.

(** The files after [save] and [save_csv] in the state [w]. *)
Lemma exit_files (w : world) :
  (save "ab.bin";; save_csv "ab.csv") w =
  (Ok tt,
   with_files
     (<["ab.csv" := Csv.writerow (Dict.keys (ab_data w))]>
        (<["ab.bin" := pickle_dumps (ab_data w)]> (files w))) w).
Proof. reflexivity. Qed.

(** The loop raises exceptions of the class [Exception] only: the end of
    the input, what a command raises, and the failure to unpack the text
    that [parser] returns for a line without a word. *)
Lemma raises_Exceptions_repl (fuel : nat) : raises_Exceptions (repl fuel).
Proof.
  induction fuel as [|fuel IH]; cbn [repl].
  - apply raises_Exceptions_lift. intros e. discriminate.
  - apply raises_Exceptions_bind; [apply raises_Exceptions_input |].
    intros line. destruct (parser line) as [command data | s].
    + destruct (handler_eqb command h_close).
      * unfold save, save_csv, AddressBook.write_file. exceptions.
      * apply raises_Exceptions_bind; [apply raises_Exceptions_call |].
        intros result.
        apply raises_Exceptions_bind; [apply raises_Exceptions_print |].
        intros []. exact IH.
    + destruct (Nat.eqb (String.length s) 2);
        by apply raises_Exceptions_raise.
Qed.

Lemma repl_outcome_aux (fuel : nat) (w : world) :
  length (stdin w) < fuel ->
  forall res w', repl fuel w = (res, w') ->
  (book_ok w -> book_ok w') /\
  ((res = Ok tt /\
    files w' =
      <["ab.csv" := Csv.writerow (Dict.keys (ab_data w'))]>
        (<["ab.bin" := pickle_dumps (ab_data w')]> (files w))) \/
   (exists e, res = Raise e /\ files w' = files w)).
Proof.
  revert w. induction fuel as [|fuel IH]; intros w Hfuel res w'; [lia |].
  cbn [repl]. unfold_M. unfold input.
  destruct (stdin w) as [|line rest] eqn:Hin.
  - intros [= <- <-]. split; [by apply book_ok_same_data |].
    right. by eexists.
  - set (w1 := with_stdin rest (with_stdout (stdout w ++ [">>>"]) w)).
    assert (Hok1 : book_ok w -> book_ok w1) by (by apply book_ok_same_data).
    assert (Hlen : length (stdin w1) < S fuel) by (simpl in *; lia).
    destruct (parser line) as [command data | s].
    + destruct (handler_eqb command h_close).
      * unfold save, save_csv, AddressBook.write_file. unfold_M.
        intros [= <- <-]. split.
        -- intros Hok. apply Hok1 in Hok.
           revert Hok. by apply book_ok_same_data.
        -- left. by split.
      * pose proof (call_post (S fuel) command data w1 Hlen)
          as (Hf & Hfiles & _ & _ & [read Hread] & _ & Hbook).
        destruct (call (S fuel) command data w1) as [[text | e |] w2];
          cbn [fst snd] in *; [| | done].
        -- assert (Hlen2 : length (stdin w2) < fuel).
           { subst w1. cbn [stdin with_stdin] in Hread.
             apply (f_equal length) in Hread. rewrite length_app in Hread.
             simpl in Hfuel. lia. }
           unfold print. unfold_M.
           set (w3 := with_stdout (stdout w2 ++ [text ++ nl]) w2).
           change (length (stdin w3) < fuel) in Hlen2.
           intros Hrepl. apply (IH w3 Hlen2) in Hrepl as [Hb Hout].
           split.
           ++ intros Hok. apply Hb.
              apply (book_ok_same_data w2); [done | done |]. auto.
           ++ destruct Hout as [[-> Hfs] | (e & -> & Hfs)].
              ** left. split; [done |]. rewrite Hfs.
                 change (files w3) with (files w2). by rewrite Hfiles.
              ** right. exists e. split; [done |]. rewrite Hfs.
                 change (files w3) with (files w2). by rewrite Hfiles.
        -- intros [= <- <-]. split; [auto |]. right. by eexists.
    + destruct (Nat.eqb (String.length s) 2); intros [= <- <-];
        (split; [done |]); right; by eexists.
Qed.

(** X9: A session that has input to the end comes to an end itself, in one
    of two ways.  It ends by an exit command, and then both files hold the
    book as it is at that moment; or it ends by an exception (the end of
    the input among them), and then no file was written.  Either way the
    book stays well-formed. *)
Theorem repl_outcome (fuel : nat) (w : world) :
  length (stdin w) < fuel ->
  let w' := snd (repl fuel w) in
  (book_ok w -> book_ok w') /\
  ((fst (repl fuel w) = Ok tt /\
    files w' =
      <["ab.csv" := Csv.writerow (Dict.keys (ab_data w'))]>
        (<["ab.bin" := pickle_dumps (ab_data w')]> (files w))) \/
   (exists e, fst (repl fuel w) = Raise e /\ files w' = files w)).
Proof.
  intros Hfuel w'. subst w'.
  destruct (repl fuel w) as [res w'] eqn:E.
  exact (repl_outcome_aux fuel w Hfuel res w' E).
Qed.

End Sessions.

Lemma repl_outcome_witness :
  let w := mkworld [] ∅ ["add ann +380991234567"; "bye"] [] 0
             (mkdate 2026 11 3) in
  let w' := snd (@repl BitPickle.bit_pickle 3 w) in
  (book_ok w -> book_ok w') /\
  ((fst (@repl BitPickle.bit_pickle 3 w) = Ok tt /\
    files w' =
      <["ab.csv" := Csv.writerow (Dict.keys (ab_data w'))]>
        (<["ab.bin" := BitPickle.dumps (ab_data w')]> (files w))) \/
   (exists e, fst (@repl BitPickle.bit_pickle 3 w) = Raise e /\
              files w' = files w)).
Proof.
  intros w. apply (@repl_outcome BitPickle.bit_pickle 3 w). simpl. lia.
Defined.

Section Startup.
Context {P : Pickle}.

Lemma load_outcome (file : string) (w : world) :
  (forall bytes next, pickle_loads bytes next <> Unfinished) ->
  fst (load file w) <> Unfinished /\
  fst (load file w) <> Raise FileNotFoundError /\
  stdin (snd (load file w)) = stdin w /\
  stdout (snd (load file w)) = stdout w /\
  files (snd (load file w)) = files w.
Proof.
  intros Hlib. unfold load. unfold_M.
  destruct (files w !! file) as [bytes|]; [| by split_and!].
  specialize (Hlib bytes (next_id w)).
  destruct (pickle_loads bytes (next_id w)) as [[d next] | e |];
    [by split_and! | | done].
  destruct e; by split_and!.
Qed.

(** X10: [main] returns for every input that ends, whatever the lines say
    and the commands do, unless [pickle.load] raises on [ab.bin] an
    exception that is no [Exception], as a file made for it can: that
    exception leaves [main] before anything is read or printed.  (The
    library's [pickle.load] returns or raises.) *)
Theorem main_returns (fuel : nat) (w : world) :
  (forall bytes next, pickle_loads bytes next <> Unfinished) ->
  length (stdin w) < fuel ->
  ((forall bytes e,
      files w !! "ab.bin" = Some bytes ->
      pickle_loads bytes (next_id w) = Raise e -> is_Exception e = true) ->
   fst (main fuel w) = Ok tt) /\
  (forall bytes e,
     files w !! "ab.bin" = Some bytes ->
     pickle_loads bytes (next_id w) = Raise e -> is_Exception e = false ->
     main fuel w = (Raise e, w)).
Proof.
  intros Hlib Hfuel. split.
  - intros Hexc. unfold main.
    destruct (load_outcome "ab.bin" w Hlib) as (Hfin & Hnf & Hstdin & _ & _).
    assert (Hload : forall e w0, load "ab.bin" w = (Raise e, w0) ->
              is_Exception e = true).
    { unfold load. unfold_M.
      destruct (files w !! "ab.bin") as [bytes|] eqn:Hfile; [| done].
      specialize (Hexc bytes).
      destruct (pickle_loads bytes (next_id w)) as [[d next] | e |];
        [done | | done].
      intros e' w0. specialize (Hexc e eq_refl eq_refl).
      destruct e; cbn in Hexc; try discriminate Hexc; try done;
        by intros [= <- <-]. }
    unfold try_except at 1. unfold mbind, M_bind, bind.
    unfold try_except at 1.
    destruct (load "ab.bin" w) as [[[] | e |] w0]; cbn [fst snd] in *;
      [| | done].
    + rewrite <- Hstdin in Hfuel.
      pose proof (raises_Exceptions_repl fuel w0) as Hrepl.
      destruct (repl fuel w0) as [res w1] eqn:E. cbn [fst] in Hrepl.
      destruct (repl_outcome_aux fuel w0 Hfuel res w1 E)
        as [_ [[-> _] | (e & -> & _)]]; [done |].
      by rewrite (Hrepl e eq_refl).
    + specialize (Hload e w0 eq_refl).
      destruct e; cbn in Hload; try discriminate Hload;
        try (by destruct Hnf); reflexivity.
  - intros bytes e Hfile Hraise He. unfold main, load. unfold_M.
    rewrite Hfile, Hraise. destruct e; try done.
Qed.

(** X11: What a session saves when it is left by an exit command is what the
    next session starts with: the names in their order, and under each
    name a record with the same name, phone values and birthday. *)
Theorem exit_then_start_restores {RT : PickleRoundTrip P}
    (fuel : nat) (w w' : world) :
  length (stdin w) < fuel ->
  repl fuel w = (Ok tt, w') ->
  forall w2, files w2 = files w' ->
  exists w3, load "ab.bin" w2 = (Ok tt, w3) /\
    Dict.keys (ab_data w3) = Dict.keys (ab_data w') /\
    book_content (ab_data w3) = book_content (ab_data w').
Proof.
  intros Hfuel Hrepl w2 Hfiles.
  destruct (repl_outcome_aux fuel w Hfuel _ _ Hrepl)
    as [_ [[_ Hfs] | (e & He & _)]]; [| discriminate].
  assert (Hbin : files w2 !! "ab.bin" = Some (pickle_dumps (ab_data w'))).
  { rewrite Hfiles, Hfs. rewrite lookup_insert_ne by discriminate.
    apply lookup_insert_eq. }
  destruct (pickle_round_trip (ab_data w') (next_id w2))
    as (d' & next' & Hl & Hc).
  eexists. split; [eapply load_present; eassumption |].
  cbn. split; [by apply book_content_keys | exact Hc].
Qed.

End Startup.

Lemma bit_pickle_loads_finishes (bytes : string) (next : nat) :
  @pickle_loads BitPickle.bit_pickle bytes next <> Unfinished.
Proof.
  cbn. unfold BitPickle.loads.
  destruct (BitPickle.pos_of_bits bytes) as [p|]; [| discriminate].
  destruct (decode p); discriminate.
Qed.

Lemma main_returns_witness :
  let w := mkworld [] ∅ ["add ann +380991234567"; "add ann"; "hello"] [] 0
             (mkdate 2026 11 3) in
  let crafted : Pickle :=
    {| pickle_dumps := fun _ => "";
       pickle_loads := fun _ _ => Raise SystemExit |} in
  let w2 := mkworld [] (<["ab.bin" := "x"]> ∅) ["hello"] [] 0
              (mkdate 2026 11 3) in
  fst (@main BitPickle.bit_pickle 4 w) = Ok tt /\
  @main crafted 2 w2 = (Raise SystemExit, w2).
Proof.
  intros w crafted w2. split.
  - apply (@main_returns BitPickle.bit_pickle 4 w).
    + apply bit_pickle_loads_finishes.
    + simpl. lia.
    + intros bytes e Hfile. vm_compute in Hfile. discriminate Hfile.
  - apply (proj2 (@main_returns crafted 2 w2
                    ltac:(intros; discriminate) ltac:(simpl; lia))
             "x" SystemExit); reflexivity.
Defined.

Lemma exit_then_start_restores_witness :
  let w := mkworld [] ∅ ["add ann +380991234567"; "bye"] [] 0
             (mkdate 2026 11 3) in
  let w' := snd (@repl BitPickle.bit_pickle 3 w) in
  exists w3, @load BitPickle.bit_pickle "ab.bin" w' = (Ok tt, w3) /\
    Dict.keys (ab_data w3) = Dict.keys (ab_data w') /\
    book_content (ab_data w3) = book_content (ab_data w').
Proof.
  intros w w'.
  apply (@exit_then_start_restores BitPickle.bit_pickle bit_pickle_round_trip
           3 w w'); [simpl; lia | vm_compute; reflexivity | reflexivity].
Defined.

(** ** Days to the birthday *)

Lemma days_before_year_succ (y : Z) :
  days_before_year (y + 1) = (days_before_year y + 365 + leap_day y)%Z.
Proof.
  unfold days_before_year, leap_day, is_leap.
  replace (y + 1 - 1)%Z with y by lia.
  destruct (Z.eqb_spec (y mod 4) 0), (Z.eqb_spec (y mod 100) 0),
    (Z.eqb_spec (y mod 400) 0); cbn [andb orb negb];
    Z.div_mod_to_equations; lia.
Qed.

Lemma days_before_month_formula (y m : Z) :
  (1 <= m <= 12)%Z ->
  days_before_month y m =
  (days_before_month_common m + if (2 <? m)%Z then leap_day y else 0)%Z.
Proof.
  intros Hm. unfold leap_day.
  enum_cases m 12%nat; lazy -[is_leap]; destruct (is_leap y); reflexivity.
Qed.

Lemma leap_day_range (y : Z) : (0 <= leap_day y <= 1)%Z.
Proof. unfold leap_day. destruct (is_leap y); lia. Qed.

Lemma ordinal_in_year (y m d : Z) :
  (1 <= m <= 12)%Z -> (1 <= d <= days_in_month y m)%Z ->
  (1 <= days_before_month y m + d <= 365 + leap_day y)%Z.
Proof.
  intros Hm Hd. rewrite days_before_month_formula by done.
  unfold leap_day in *.
  enum_cases m 12%nat; lazy -[is_leap Z.le Z.lt] in Hd;
    repeat match goal with
    | |- context [days_before_month_common ?k] =>
        let c := eval vm_compute in (days_before_month_common k) in
        change (days_before_month_common k) with c
    | |- context [(2 <? ?k)%Z] =>
        let c := eval vm_compute in (2 <? k)%Z in
        change (2 <? k)%Z with c
    end;
    destruct (is_leap y); lia.
Qed.

Lemma date_new_Ok (y m d : Z) (dt : date) :
  date_new y m d = Ok dt ->
  dt = mkdate y m d /\ valid_date (mkdate y m d).
Proof.
  unfold date_new, valid_date. cbn [year month day].
  destruct ((1 <=? y)%Z && (y <=? 9999)%Z) eqn:Hy; [| discriminate].
  destruct ((1 <=? m)%Z && (m <=? 12)%Z) eqn:Hm; [| discriminate].
  destruct ((1 <=? d)%Z && (d <=? days_in_month y m)%Z) eqn:Hd;
    [| discriminate].
  cbn [negb]. intros [= <-].
  apply andb_true_iff in Hy as [?%Z.leb_le ?%Z.leb_le].
  apply andb_true_iff in Hm as [?%Z.leb_le ?%Z.leb_le].
  apply andb_true_iff in Hd as [?%Z.leb_le ?%Z.leb_le].
  by split_and!.
Qed.

(** The same day of the next year is 365 or 366 days later. *)
Lemma toordinal_next_year (y m d : Z) :
  (1 <= m <= 12)%Z ->
  (365 <= toordinal (mkdate (y + 1) m d) - toordinal (mkdate y m d) <= 366)%Z.
Proof.
  intros Hm. unfold toordinal. cbn [year month day].
  rewrite days_before_year_succ, !days_before_month_formula by done.
  pose proof (leap_day_range y). pose proof (leap_day_range (y + 1)).
  destruct (2 <? m)%Z; lia.
Qed.

(** X12: [days_to_birthday] with a birthday stored and a real date as today.
    When it returns, the number it reports lies between 0 and 365, and it
    is 0 on the birthday itself.  For a birthday on 29 February it raises
    [ValueError] in every year that is no leap year. *)
Theorem days_to_birthday_range (current_date bd : date) (r : record) :
  valid_date current_date ->
  birthday r = Some (BdDate bd) ->
  (forall text, Rec.days_to_birthday current_date r = Ok text ->
     exists n : Z, (0 <= n <= 365)%Z /\
       text = "Days to next birthday for " ++ str_of_Name (name r) ++ ": "
                ++ str_of_Z n) /\
  (month bd = month current_date -> day bd = day current_date ->
   Rec.days_to_birthday current_date r =
   Ok ("Days to next birthday for " ++ str_of_Name (name r) ++ ": " ++ "0")) /\
  (month bd = 2%Z -> day bd = 29%Z -> is_leap (year current_date) = false ->
   Rec.days_to_birthday current_date r =
   Raise (ValueError "day is out of range for month")).
Proof.
  intros (Hy & Hm & Hd) Hb. unfold Rec.days_to_birthday. rewrite Hb.
  split_and!.
  - intros text.
    destruct (date_new (year current_date) (month bd) (day bd))
      as [d1 | e |] eqn:E1; [| discriminate..]. cbn [rbind].
    apply date_new_Ok in E1 as [-> (_ & Hm1 & Hd1)]. cbn [year month day] in *.
    pose proof (ordinal_in_year _ _ _ Hm1 Hd1) as Ho1.
    pose proof (ordinal_in_year _ _ _ Hm Hd) as Ho.
    unfold date_ltb.
    destruct (Z.ltb_spec
                (toordinal (mkdate (year current_date) (month bd) (day bd)))
                (toordinal current_date)) as [Hlt | Hge].
    + destruct (date_new (year current_date + 1) (month bd) (day bd))
        as [d2 | e |] eqn:E2; [| discriminate..]. cbn [rbind].
      apply date_new_Ok in E2 as [-> _].
      intros [= <-]. eexists. split; [| reflexivity].
      pose proof (toordinal_next_year (year current_date) _ (day bd) Hm1).
      pose proof (days_before_year_succ (year current_date)).
      unfold toordinal in *. cbn [year month day] in *.
      pose proof (leap_day_range (year current_date)).
      pose proof (leap_day_range (year current_date + 1)).
      rewrite (days_before_month_formula (year current_date + 1)) in * by done.
      rewrite (days_before_month_formula (year current_date) (month bd)) in *
        by done.
      destruct (2 <? month bd)%Z; lia.
    + cbn [rbind]. intros [= <-]. eexists. split; [| reflexivity].
      pose proof (leap_day_range (year current_date)).
      unfold toordinal in *. cbn [year month day] in *. lia.
  - intros Hmm Hdd. rewrite Hmm, Hdd.
    rewrite date_new_valid by done. cbn [rbind].
    replace (mkdate (year current_date) (month current_date) (day current_date))
      with current_date by (by destruct current_date).
    unfold date_ltb. rewrite Z.ltb_irrefl. cbn [rbind].
    rewrite Z.sub_diag. reflexivity.
  - intros -> -> Hleap. unfold date_new.
    replace ((1 <=? year current_date)%Z && (year current_date <=? 9999)%Z)
      with true by (symmetry; apply andb_true_iff; split; apply Z.leb_le; lia).
    unfold days_in_month. rewrite Hleap. reflexivity.
Qed.

Lemma days_to_birthday_range_witness :
  let r := mkrecord (mkName "ann") [] (Some (BdDate (mkdate 2024 2 29))) in
  Rec.days_to_birthday (mkdate 2026 11 3) r =
  Raise (ValueError "day is out of range for month").
Proof.
  intros r.
  apply (proj2 (proj2 (days_to_birthday_range (mkdate 2026 11 3)
                         (mkdate 2024 2 29) r ltac:(by vm_compute) eq_refl)));
    reflexivity.
Defined.

Example days_to_birthday_examples :
  let r := mkrecord (mkName "ann") [] (Some (BdDate (mkdate 2000 12 25))) in
  Rec.days_to_birthday (mkdate 2026 11 3) r
    = Ok "Days to next birthday for ann: 52" /\
  Rec.days_to_birthday (mkdate 2026 12 25) r
    = Ok "Days to next birthday for ann: 0" /\
  Rec.days_to_birthday (mkdate 2026 12 26) r
    = Ok "Days to next birthday for ann: 364" /\
  Rec.days_to_birthday (mkdate 2026 11 3) (mkrecord (mkName "ann") [] None)
    = Ok "Birthday not set".
Proof. repeat split. Qed.

(** ** The commands one by one *)

Lemma dict_set_new {V} (d : dict V) (k : string) (v : V) :
  Dict.get d k = None -> Dict.set d k v = (d ++ [(k, v)])%list.
Proof.
  induction d as [|[k' v'] d IH]; [done |]. cbn [Dict.get Dict.set].
  destruct (String.eqb k' k); [discriminate |].
  intros H. cbn [app]. f_equal. by apply IH.
Qed.

(** X13: [add] for a name that is not in the book.  With a phone that the
    validator accepts the contact comes last in the book, with that one
    phone and no birthday; with another phone the book stays as it is and
    the text of the [ValueError] is returned; with a third argument, the
    birthday, the command raises [AttributeError] and nothing is added,
    because no [Birthday] can be made; without a phone the contact gets one
    phone whose value is [None]. *)
Theorem add_new_name (fuel : nat) (w : world) (name_ phone : string) :
  Dict.get (ab_data w) name_ = None ->
  let made := with_next_id (S (next_id w)) w in
  let added (value : pyval) :=
    with_data
      (ab_data w ++
       [(name_, mkrecord (mkName name_) [mkPhone (next_id w) value] None)])%list
      made in
  (Phone.is_valid_phone (PStr phone) = true ->
   Commands.call fuel h_add [name_; phone] w =
   (Ok ("Contact " ++ name_ ++ " add success"), added (PStr phone))) /\
  (Phone.is_valid_phone (PStr phone) = false ->
   Commands.call fuel h_add [name_; phone] w =
   (Ok "Invalid phone number format", made)) /\
  (forall birthday : string,
     Phone.is_valid_phone (PStr phone) = true -> birthday <> "" ->
     Commands.call fuel h_add [name_; phone; birthday] w =
     (Raise AttributeError, made)) /\
  Commands.call fuel h_add [name_] w =
  (Ok ("Contact " ++ name_ ++ " add success"), added PNone).
Proof.
  intros Hget made added. subst made added.
  unfold Commands.call, Commands.wrapped, Commands.apply, Commands.add.
  unfold_M. rewrite Hget. split_and!.
  - intros Hv. rewrite (Phone_new_valid _ w Hv). cbn [truthy].
    rewrite Rec_init_phone. unfold AddressBook.add_record, modify.
    cbn [str_of_Name name name_value ab_data with_next_id].
    by rewrite (dict_set_new _ _ _ Hget).
  - intros Hv. by rewrite (Phone_new_invalid _ w Hv).
  - intros birthday Hv Hb. rewrite (Phone_new_valid _ w Hv).
    destruct birthday as [|c birthday]; [done |]. cbn [truthy].
    by rewrite Birthday_new_raises.
  - rewrite (Phone_new_valid PNone w eq_refl). cbn [truthy].
    rewrite Rec_init_phone. unfold AddressBook.add_record, modify.
    cbn [str_of_Name name name_value ab_data with_next_id].
    by rewrite (dict_set_new _ _ _ Hget).
Qed.

Lemma add_new_name_witness :
  let w := mkworld [] ∅ [] [] 0 (mkdate 2026 11 3) in
  Commands.call 1 h_add ["ann"; "+380991234567"; "29.02.2024"] w =
  (Raise AttributeError, with_next_id 1 w) /\
  Commands.call 1 h_add ["ann"; "12345"] w =
  (Ok "Invalid phone number format", with_next_id 1 w).
Proof.
  intros w.
  destruct (add_new_name 1 w "ann" "+380991234567" eq_refl)
    as (_ & _ & H3 & _).
  destruct (add_new_name 1 w "ann" "12345" eq_refl) as (_ & H2 & _).
  split; [by apply H3 | by apply H2].
Defined.

(** In a well-formed book one place holds the records of a name. *)
Lemma refs_by_name_get (d : dict record) (name_ : string) (r : record)
    (j : nat) :
  unique_keys d -> keyed_by_name d ->
  Dict.get d name_ = Some r ->
  exists i, AddressBook.refs_by_name d name_ j = [j + i] /\
            d !! i = Some (name_, r).
Proof.
  unfold unique_keys, keyed_by_name. revert j.
  induction d as [|[k r0] d IH]; intros j Hu Hk; [discriminate |].
  cbn [Dict.keys map fst] in Hu. apply NoDup_cons in Hu as [Hnot Hu].
  apply Forall_cons in Hk as [Hk0 Hk]. cbn [fst snd] in Hk0. subst k.
  cbn [Dict.get AddressBook.refs_by_name].
  destruct (String.eqb_spec (str_of_Name (name r0)) name_) as [Heq | Hne].
  - intros [= ->]. exists 0. split; [| by rewrite <- Heq].
    assert (Hnone : forall j', AddressBook.refs_by_name d name_ j' = []).
    { clear IH Hu. induction d as [|[k1 r1] d IHd]; intros j'; [done |].
      apply Forall_cons in Hk as [Hk1 Hk]. cbn [fst snd] in Hk1. subst k1.
      cbn [AddressBook.refs_by_name].
      destruct (String.eqb_spec (str_of_Name (name r1)) name_) as [He | _].
      - destruct Hnot. rewrite Heq, <- He. left.
      - apply IHd; [| done]. intros Hin. apply Hnot. by right. }
    rewrite Hnone. f_equal. lia.
  - intros Hget. destruct (IH (S j) Hu Hk Hget) as (i & Hrefs & Hi).
    exists (S i). split; [| done]. rewrite Hrefs. f_equal. lia.
Qed.

Lemma insert_eq_set (d : dict record) (i : nat) (k : string) (r r' : record) :
  unique_keys d -> d !! i = Some (k, r) ->
  <[i := (k, r')]> d = Dict.set d k r'.
Proof.
  unfold unique_keys. revert i.
  induction d as [|[k0 r0] d IH]; intros i Hu Hi; [done |].
  cbn [Dict.keys map fst] in Hu. apply NoDup_cons in Hu as [Hnot Hu].
  destruct i as [|i].
  - injection Hi as -> ->. cbn [Dict.set]. by rewrite String.eqb_refl.
  - cbn [Dict.set]. change (((k0, r0) :: d) !! S i) with (d !! i) in Hi.
    destruct (String.eqb_spec k0 k) as [-> | Hne].
    + destruct Hnot. apply list_elem_of_In, in_map_iff.
      exists (k, r). split; [done |]. by apply (lookup_In d i).
    + cbn. f_equal. by apply IH.
Qed.

(** X14: [change] in a well-formed book.  For a name that is there, with a
    phone and a new number that the validator accepts, the first phone of
    the record is replaced by a new one with the new number; the rest of
    the record and all other records stay.  A name that is not there, a
    record without a phone and a number that is not accepted each give
    their text and leave the book as it is. *)
Theorem change_spec (fuel : nat) (w : world) (name_ new_phone : string) :
  book_ok w ->
  (Dict.get (ab_data w) name_ = None ->
   Commands.call fuel h_change [name_; new_phone] w =
   (Ok ("no " ++ name_ ++ " in contacts"), w)) /\
  (forall r, Dict.get (ab_data w) name_ = Some r -> phones r = [] ->
   Commands.call fuel h_change [name_; new_phone] w = (Ok "Invalid input", w)) /\
  (forall r first rest,
     Dict.get (ab_data w) name_ = Some r -> phones r = first :: rest ->
     Phone.is_valid_phone (PStr new_phone) = false ->
     Commands.call fuel h_change [name_; new_phone] w =
     (Ok "invalid format, type help", with_next_id (S (next_id w)) w)) /\
  (forall r first rest,
     Dict.get (ab_data w) name_ = Some r -> phones r = first :: rest ->
     Phone.is_valid_phone (PStr new_phone) = true ->
     let r' := mkrecord (name r)
                 (mkPhone (next_id w) (PStr new_phone) :: rest) (birthday r) in
     Commands.call fuel h_change [name_; new_phone] w =
     (Ok ("phone number for " ++ name_ ++ " updated"),
      with_data (Dict.set (ab_data w) name_ r')
        (with_next_id (S (next_id w)) w))).
Proof.
  intros (Hu & Hk & _).
  unfold Commands.call, Commands.wrapped, Commands.apply, Commands.input_error,
    Commands.change, AddressBook.change_phone_by_name.
  unfold_M. split_and!.
  - by intros ->.
  - intros r Hget Hp. rewrite Hget.
    destruct (refs_by_name_get _ _ _ 0 Hu Hk Hget) as (i & -> & Hi).
    cbn [AddressBook.change_phone_at]. unfold_M. cbn [Nat.add].
    by rewrite Hi, Hp.
  - intros r first rest Hget Hp Hv. rewrite Hget.
    destruct (refs_by_name_get _ _ _ 0 Hu Hk Hget) as (i & -> & Hi).
    cbn [AddressBook.change_phone_at]. unfold_M. cbn [Nat.add].
    by rewrite Hi, Hp, (Phone_new_invalid _ w Hv).
  - intros r first rest Hget Hp Hv. rewrite Hget.
    destruct (refs_by_name_get _ _ _ 0 Hu Hk Hget) as (i & -> & Hi).
    cbn [AddressBook.change_phone_at]. unfold_M. cbn [Nat.add].
    rewrite Hi, Hp, (Phone_new_valid _ w Hv).
    cbn [ab_data with_next_id with_data].
    unfold Rec.change_phone. cbn [snd]. rewrite Hp.
    cbn [Rec.replace_first]. rewrite String.eqb_refl.
    by rewrite (insert_eq_set _ _ _ _ _ Hu Hi).
Qed.

Lemma change_spec_witness :
  let p1 := mkPhone 0 (PStr "+380991234567") in
  let p2 := mkPhone 1 (PStr "+380501112233") in
  let ann := mkrecord (mkName "ann") [p1; p2] None in
  let w := mkworld [("ann", ann)] ∅ [] [] 2 (mkdate 2026 11 3) in
  Commands.call 1 h_change ["ann"; "+380670000000"] w =
  (Ok "phone number for ann updated",
   with_data
     [("ann", mkrecord (mkName "ann")
                [mkPhone 2 (PStr "+380670000000"); p2] None)]
     (with_next_id 3 w)).
Proof.
  intros p1 p2 ann w.
  assert (Hok : book_ok w).
  { unfold book_ok. split_and!.
    - apply (NoDup_singleton "ann").
    - by repeat constructor.
    - repeat constructor; simpl; lia. }
  apply (proj2 (proj2 (proj2 (change_spec 1 w "ann" "+380670000000" Hok)))
           ann p1 [p2]); reflexivity.
Defined.

Lemma dict_set_same {V} (d : dict V) (k : string) (v : V) :
  Dict.get d k = Some v -> Dict.set d k v = d.
Proof.
  induction d as [|[k' v'] d IH]; [done |]. cbn [Dict.get Dict.set].
  destruct (String.eqb_spec k' k) as [-> | Hne].
  - by intros [= ->].
  - intros H. f_equal. by apply IH.
Qed.

Lemma with_data_same (w : world) : with_data (ab_data w) w = w.
Proof. by destruct w. Qed.

Lemma find_result (fuel : nat) (w : world) (name_ : string) :
  unique_keys (ab_data w) -> keyed_by_name (ab_data w) ->
  Commands.call fuel h_find [name_] w =
  (Ok match Dict.get (ab_data w) name_ with
      | Some r => Rec.str r
      | None => "contact not found"
      end, w).
Proof.
  intros Hu Hk.
  unfold Commands.call, Commands.wrapped, Commands.apply, Commands.input_error,
    Commands.find.
  unfold_M. rewrite (search_by_name_get _ _ Hu Hk).
  by destruct (Dict.get (ab_data w) name_).
Qed.

Lemma book_ok_keys (w : world) :
  book_ok w -> unique_keys (ab_data w) /\ keyed_by_name (ab_data w).
Proof. by intros (? & ? & _). Qed.

Lemma remove_result (fuel : nat) (w : world) (name_ : string) :
  Dict.get (ab_data w) name_ <> None ->
  exists d', Dict.del (ab_data w) name_ = Some d' /\
    Commands.call fuel h_remove [name_] w =
    (Ok (name_ ++ " record deleted"), with_data d' w).
Proof.
  intros Hget.
  unfold Commands.call, Commands.wrapped, Commands.apply,
    Commands.input_error, Commands.remove, AddressBook.remove_record.
  unfold_M.
  destruct (Dict.get (ab_data w) name_) as [r|] eqn:E; [| done].
  destruct (Dict.del (ab_data w) name_) as [d'|] eqn:Hdel;
    [| by apply dict_del_None in Hdel; congruence].
  by exists d'.
Qed.

(** X15: [find] and [del] in a well-formed book.  [find] shows the record filed
    under the name, or says that there is none.  After [del] of a name
    that is there, [find] no longer finds it, and finds every other name
    as before; [del] of a name that is not there changes nothing. *)
Theorem find_and_remove (fuel : nat) (w : world) (name_ : string) :
  book_ok w ->
  Commands.call fuel h_find [name_] w =
  (Ok match Dict.get (ab_data w) name_ with
      | Some r => Rec.str r
      | None => "contact not found"
      end, w) /\
  (Dict.get (ab_data w) name_ = None ->
   Commands.call fuel h_remove [name_] w =
   (Ok ("No " ++ name_ ++ " in contacts"), w)) /\
  (Dict.get (ab_data w) name_ <> None ->
   exists w',
     Commands.call fuel h_remove [name_] w =
       (Ok (name_ ++ " record deleted"), w') /\
     Commands.call fuel h_find [name_] w' = (Ok "contact not found", w') /\
     (forall k, k <> name_ ->
        fst (Commands.call fuel h_find [k] w') =
        fst (Commands.call fuel h_find [k] w))).
Proof.
  intros Hok. destruct (book_ok_keys w Hok) as [Hu Hk].
  split; [by apply find_result |]. split.
  - intros Hget.
    unfold Commands.call, Commands.wrapped, Commands.apply,
      Commands.input_error, Commands.remove.
    unfold_M. by rewrite Hget.
  - intros Hget.
    pose proof (post_remove name_ w) as (_ & _ & _ & _ & _ & _ & Hok').
    specialize (Hok' Hok). destruct (book_ok_keys _ Hok') as [Hu' Hk'].
    destruct (remove_result fuel w name_ Hget) as (d' & Hdel & Hcall).
    assert (Hsnd : snd (Commands.remove name_ w) = with_data d' w).
    { unfold Commands.remove, AddressBook.remove_record. unfold_M.
      destruct (Dict.get (ab_data w) name_); [| done]. by rewrite Hdel. }
    rewrite Hsnd in Hu', Hk'. cbn [ab_data with_data] in Hu', Hk'.
    exists (with_data d' w). split; [exact Hcall |].
    assert (Hgone : Dict.get d' name_ = None).
    { apply dict_get_None. rewrite (dict_del_keys _ _ _ Hu Hdel).
      apply filter_not_In. by rewrite String.eqb_refl. }
    split.
    + rewrite find_result by done. cbn [ab_data with_data]. by rewrite Hgone.
    + intros k Hne. rewrite !find_result by done. cbn [fst ab_data with_data].
      by rewrite (dict_del_get_other _ _ _ _ Hdel Hne).
Qed.

Lemma find_and_remove_witness :
  let ann := mkrecord (mkName "ann") [mkPhone 0 (PStr "+380991234567")] None in
  let w := mkworld [("ann", ann)] ∅ [] [] 1 (mkdate 2026 11 3) in
  Commands.call 1 h_find ["ann"] w = (Ok "Name: ann, Phones: +380991234567", w)
  /\
  exists w',
    Commands.call 1 h_remove ["ann"] w = (Ok "ann record deleted", w') /\
    Commands.call 1 h_find ["ann"] w' = (Ok "contact not found", w') /\
    (forall k, k <> "ann" ->
       fst (Commands.call 1 h_find [k] w') =
       fst (Commands.call 1 h_find [k] w)).
Proof.
  intros ann w.
  assert (Hok : book_ok w).
  { unfold book_ok. split_and!.
    - apply (NoDup_singleton "ann").
    - by repeat constructor.
    - repeat constructor; simpl; lia. }
  destruct (find_and_remove 1 w "ann" Hok) as (H1 & _ & H3).
  split; [exact H1 |]. apply H3. discriminate.
Defined.

(** X16: The [birthday] command in a well-formed book.  A text that is parsed
    is stored as the birthday of the record under the name, nothing else
    changes, and [days_to_bd] then answers from that date.  A text that is
    not parsed leaves the whole state as it is. *)
Theorem birthday_command (fuel : nat) (w : world) (name_ text : string)
    (r : record) :
  book_ok w ->
  Dict.get (ab_data w) name_ = Some r ->
  (forall d : date, strptime_dmY text = Ok d ->
     let r' := mkrecord (name r) (phones r) (Some (BdDate d)) in
     let w' := with_data (Dict.set (ab_data w) name_ r') w in
     Commands.call fuel h_set_birthday [name_; text] w =
       (Ok ("Birthday set for " ++ name_), w') /\
     Dict.get (ab_data w') name_ = Some r' /\
     (forall k, k <> name_ -> Dict.get (ab_data w') k = Dict.get (ab_data w) k) /\
     (forall answer, Rec.days_to_birthday (today w) r' = Ok answer ->
        Commands.call fuel h_days_to_birthday [name_] w' = (Ok answer, w'))) /\
  ((forall d : date, strptime_dmY text <> Ok d) ->
   Commands.call fuel h_set_birthday [name_; text] w =
   (Ok "Invalid birthday format. Please use dd.mm.yyyy format.", w)).
Proof.
  intros Hok Hget. destruct (book_ok_keys w Hok) as [Hu Hk].
  assert (Hname : str_of_Name (name r) = name_).
  { apply dict_get_In in Hget. unfold keyed_by_name in Hk.
    rewrite List.Forall_forall in Hk. symmetry. exact (Hk _ Hget). }
  split.
  - intros d Hd r' w'. split_and!.
    + unfold Commands.call, Commands.wrapped, Commands.apply,
        Commands.input_error, Commands.set_birthday, on_record,
        Rec.set_birthday.
      unfold_M. by rewrite Hget, Hd, Hname.
    + apply dict_set_get.
    + intros k Hne. by apply dict_set_get_other.
    + intros answer Hans.
      unfold Commands.call, Commands.wrapped, Commands.apply,
        Commands.input_error, Commands.days_to_birthday.
      unfold_M. subst w'. cbn [ab_data with_data today].
      by rewrite dict_set_get, Hans.
  - intros Hbad.
    unfold Commands.call, Commands.wrapped, Commands.apply,
      Commands.input_error, Commands.set_birthday, on_record,
      Rec.set_birthday.
    unfold_M. rewrite Hget.
    destruct (strptime_dmY_outcome text) as [[d Hd] | [msg ->]];
      [by destruct (Hbad d) |].
    by rewrite (dict_set_same _ _ _ Hget), with_data_same.
Qed.

Lemma birthday_command_witness :
  let ann := mkrecord (mkName "ann") [mkPhone 0 (PStr "+380991234567")] None in
  let w := mkworld [("ann", ann)] ∅ [] [] 1 (mkdate 2026 11 3) in
  Commands.call 1 h_set_birthday ["ann"; "31.04.2023"] w =
  (Ok "Invalid birthday format. Please use dd.mm.yyyy format.", w).
Proof.
  intros ann w.
  assert (Hok : book_ok w).
  { unfold book_ok. split_and!.
    - apply (NoDup_singleton "ann").
    - by repeat constructor.
    - repeat constructor; simpl; lia. }
  apply (proj2 (birthday_command 1 w "ann" "31.04.2023" ann Hok eq_refl)).
  intros d. vm_compute. discriminate.
Defined.

(** ** The parser *)

Lemma lower_char_idem (c : ascii) : lower_char (lower_char c) = lower_char c.
Proof. destruct c as [[] [] [] [] [] [] [] []]; reflexivity. Qed.

Lemma isspace_lower_char (c : ascii) :
  isspace_char (lower_char c) = isspace_char c.
Proof. destruct c as [[] [] [] [] [] [] [] []]; reflexivity. Qed.

Lemma lower_idem (s : string) : lower (lower s) = lower s.
Proof.
  induction s as [|c s IH]; [reflexivity |].
  cbn [lower]. by rewrite lower_char_idem, IH.
Qed.

Lemma isspace_lower (s : string) :
  all_chars isspace_char (lower s) = all_chars isspace_char s.
Proof.
  induction s as [|c s IH]; [reflexivity |].
  cbn [lower all_chars]. by rewrite isspace_lower_char, IH.
Qed.

Lemma lower_chars (s : string) :
  List.Forall (fun c => lower_char c = c) (list_ascii_of_string (lower s)).
Proof.
  induction s as [|c s IH]; [constructor |].
  cbn [lower list_ascii_of_string]. constructor; [apply lower_char_idem | done].
Qed.

Lemma lower_fixed (s : string) :
  List.Forall (fun c => lower_char c = c) (list_ascii_of_string s) ->
  lower s = s.
Proof.
  induction s as [|c s IH]; [done |].
  cbn [lower list_ascii_of_string]. intros H.
  apply List.Forall_cons_iff in H as [-> H]. by rewrite IH.
Qed.

Lemma no_space_chars (s : string) :
  List.Forall (fun c => isspace_char c = false) (list_ascii_of_string s) ->
  all_chars (fun c => negb (isspace_char c)) s = true.
Proof.
  induction s as [|c s IH]; [done |].
  cbn [all_chars list_ascii_of_string]. intros H.
  apply List.Forall_cons_iff in H as [-> H]. by rewrite IH.
Qed.

(** A line without a word is a line of white space. *)
Lemma split_go_nil (cur : list ascii) (s : string) :
  split_go cur s = [] <-> cur = [] /\ all_chars isspace_char s = true.
Proof.
  revert cur. induction s as [|c s IH]; intros cur.
  - cbn [split_go all_chars]. destruct cur; [done |]. split; [done |].
    by intros [? _].
  - cbn [split_go all_chars]. destruct (isspace_char c) eqn:E.
    + destruct cur as [|a cur].
      * cbn [app]. rewrite IH. cbn [andb]. tauto.
      * split; [done | by intros [? _]].
    + rewrite IH. cbn [andb]. split; [by intros [? _] | by intros [_ ?]].
Qed.

(** The words of a line are not empty and hold no white space; a property
    of all the characters of the line is one of the characters of its
    words. *)
Lemma split_go_words (Q : ascii -> Prop) (cur : list ascii) (s : string) :
  List.Forall (fun c => Q c /\ isspace_char c = false) cur ->
  List.Forall Q (list_ascii_of_string s) ->
  List.Forall
    (fun w => w <> "" /\
       List.Forall (fun c => Q c /\ isspace_char c = false)
         (list_ascii_of_string w))
    (split_go cur s).
Proof.
  revert cur. induction s as [|c s IH]; intros cur Hcur Hs.
  - cbn [split_go]. destruct cur as [|a cur]; constructor; [| constructor].
    split.
    + intros Hnil. apply (f_equal list_ascii_of_string) in Hnil.
      rewrite list_ascii_of_string_of_list_ascii in Hnil.
      apply (f_equal (@length ascii)) in Hnil.
      rewrite length_rev in Hnil. discriminate Hnil.
    + rewrite list_ascii_of_string_of_list_ascii. by apply List.Forall_rev.
  - cbn [list_ascii_of_string] in Hs.
    apply List.Forall_cons_iff in Hs as [Hc Hs].
    cbn [split_go]. destruct (isspace_char c) eqn:E.
    + apply List.Forall_app. split; [| by apply IH].
      destruct cur as [|a cur]; constructor; [| constructor].
      split.
      * intros Hnil. apply (f_equal list_ascii_of_string) in Hnil.
        rewrite list_ascii_of_string_of_list_ascii in Hnil.
        apply (f_equal (@length ascii)) in Hnil.
        rewrite length_rev in Hnil. discriminate Hnil.
      * rewrite list_ascii_of_string_of_list_ascii. by apply List.Forall_rev.
    + apply IH; [| done]. by constructor.
Qed.

Lemma commands_never_no_command (first : string) :
  Dict.get commands first <> Some h_no_command.
Proof.
  unfold commands. cbn [Dict.get].
  repeat (destruct (String.eqb _ first); [discriminate |]). discriminate.
Qed.

(** X17: What [parser] makes of a line.  Capital letters make no difference.
    A line of white space only, the empty line among them, gives the text
    [Invalid input] instead of a pair, and no other line does.  In a pair
    the arguments are words in lower case: none is empty, none holds white
    space or a capital letter; and [no_command] comes without arguments. *)
Theorem parser_result (text : string) :
  parser (lower text) = parser text /\
  (all_chars isspace_char text = true ->
   parser text = Message "Invalid input") /\
  (forall m, parser text = Message m ->
     m = "Invalid input" /\ all_chars isspace_char text = true) /\
  (forall command args, parser text = Pair command args ->
     List.Forall (fun a => a <> "" /\ lower a = a /\
                    all_chars (fun c => negb (isspace_char c)) a = true) args /\
     (command = h_no_command -> args = [])).
Proof.
  split_and!.
  - unfold parser, parser_body. by rewrite lower_idem.
  - intros Hblank. unfold parser, parser_body, split.
    rewrite <- isspace_lower in Hblank.
    by rewrite (proj2 (split_go_nil [] (lower text)) (conj eq_refl Hblank)).
  - intros m. unfold parser, parser_body, split.
    destruct (split_go [] (lower text)) as [|first rest] eqn:E.
    + intros [= <-]. split; [reflexivity |].
      apply split_go_nil in E as [_ E]. by rewrite isspace_lower in E.
    + by destruct (Dict.get commands first).
  - intros command args. unfold parser, parser_body, split.
    pose proof (split_go_words (fun c => lower_char c = c) [] (lower text)
                  (List.Forall_nil _) (lower_chars text)) as Hwords.
    destruct (split_go [] (lower text)) as [|first rest] eqn:E; [done |].
    apply List.Forall_cons_iff in Hwords as [_ Hrest].
    destruct (Dict.get commands first) as [c|] eqn:Hc.
    + intros [= <- <-]. split.
      * eapply List.Forall_impl; [| exact Hrest].
        intros a [Hne Ha]. split_and!; [done | |].
        -- apply lower_fixed. eapply List.Forall_impl; [| exact Ha].
           by intros ? [? _].
        -- apply no_space_chars. eapply List.Forall_impl; [| exact Ha].
           by intros ? [_ ?].
      * intros ->. by destruct (commands_never_no_command first).
    + intros [= <- <-]. by split.
Qed.

Lemma parser_result_witness :
  List.Forall (fun a => a <> "" /\ lower a = a /\
                 all_chars (fun c => negb (isspace_char c)) a = true)
    ["ann"; "+380991234567"] /\
  parser "  " = Message "Invalid input".
Proof.
  split.
  - apply (proj2 (proj2 (proj2 (parser_result "ADD  Ann +380991234567")))
             h_add ["ann"; "+380991234567"] eq_refl).
  - apply (proj1 (proj2 (parser_result "  ")) eq_refl).
Defined.

Section BlankLine.
Context {P : Pickle}.

(** X18: A line of white space only ends the loop: the text that the wrapped
    [parser] returns for it does not unpack into a command and its data,
    so [ValueError] leaves the loop when the line has been read.  Nothing
    after the line is read, nothing but the prompt is printed and nothing
    is saved. *)
Theorem blank_line_ends_loop (fuel : nat) (w : world) (line : string)
    (rest : list string) :
  stdin w = line :: rest ->
  all_chars isspace_char line = true ->
  repl (S fuel) w =
  (Raise (ValueError "wrong number of values to unpack"),
   after_input rest w).
Proof.
  intros Hin Hblank. cbn [repl]. unfold_M. unfold input. rewrite Hin.
  assert (Hp : parser line = Message "Invalid input").
  { unfold parser, parser_body, split. rewrite <- isspace_lower in Hblank.
    by rewrite (proj2 (split_go_nil [] (lower line)) (conj eq_refl Hblank)). }
  by rewrite Hp.
Qed.

End BlankLine.

Lemma blank_line_ends_loop_witness :
  let w := mkworld [] ∅ [" "; "bye"] [] 0 (mkdate 2026 11 3) in
  @repl BitPickle.bit_pickle 1 w =
  (Raise (ValueError "wrong number of values to unpack"),
   after_input ["bye"] w).
Proof.
  intros w.
  apply (@blank_line_ends_loop BitPickle.bit_pickle 0 w " " ["bye"]);
    reflexivity.
Defined.

(** ** The pager of the [show_all] command *)

Lemma mapM_print_eq (l : list record) (w : world) :
  mapM (fun r => print (Rec.str r)) l w =
  (Ok (map (fun _ => tt) l),
   with_stdout (stdout w ++ map (fun r => Rec.str r ++ nl) l) w).
Proof.
  revert w. induction l as [|r l IH]; intros w.
  - cbn [mapM map]. rewrite app_nil_r. unfold_M. by destruct w.
  - cbn [mapM map]. unfold_M. unfold print at 1. unfold_M.
    rewrite IH. cbn [stdout with_stdout]. rewrite <- app_assoc. reflexivity.
Qed.

Section Pager.
Variable data : dict record.
Variable n : Z.
Hypothesis n_positive : (0 < n)%Z.

Let recs : list record := Dict.values data.

(** The generator suspended in the loop with [current_index = i], and the
    records it has still to yield. *)
Let gen_at (i : Z) : gen :=
  mkgen AtYieldChunk (Some n) recs (Some (Z.of_nat (length recs))) (Some i).
Let left_at (i : Z) : list record := drop (Z.to_nat (i + n)) recs.

Lemma left_at_next (i : Z) :
  (0 <= i + n)%Z -> left_at (i + n) = drop (Z.to_nat n) (left_at i).
Proof.
  intros Hi. unfold left_at. rewrite drop_drop. f_equal. lia.
Qed.

Lemma next_left_at (i : Z) :
  (0 <= i + n)%Z ->
  next data (gen_at i) =
  match left_at i with
  | [] => (StopIteration,
           mkgen Finished (Some n) recs (Some (Z.of_nat (length recs)))
             (Some (i + n)%Z))
  | _ => (Yield (take (Z.to_nat n) (left_at i)), gen_at (i + n))
  end.
Proof.
  intros Hi. unfold gen_at, recs. rewrite next_gen_at. fold recs.
  destruct (i + n <? Z.of_nat (length recs))%Z eqn:E.
  - apply Z.ltb_lt in E. rewrite slice_page by lia.
    destruct (left_at i) as [|x l] eqn:El; [| by rewrite <- El].
    apply (f_equal (@length record)) in El. unfold left_at in El.
    rewrite length_drop in El. simpl in El. lia.
  - apply Z.ltb_ge in E. unfold left_at. by rewrite drop_ge by lia.
Qed.

Lemma next_iterator_left :
  next data (iterator (Some n)) =
  match recs with
  | [] => (StopIteration,
           mkgen Finished (Some n) recs (Some (Z.of_nat (length recs)))
             (Some 0%Z))
  | _ => (Yield (take (Z.to_nat n) recs), gen_at 0)
  end.
Proof.
  rewrite next_iterator_paged. fold recs.
  destruct (0 <? Z.of_nat (length recs))%Z eqn:E.
  - apply Z.ltb_lt in E. rewrite slice_page by lia.
    destruct recs; [simpl in E; lia | reflexivity].
  - apply Z.ltb_ge in E. destruct recs; [reflexivity | simpl in E; lia].
Qed.

(** One turn of the loop of the pager, the generator yielding [chunk]. *)
Lemma show_pages_turn (fuel : nat) (g g' : gen) (chunk : list record)
    (w : world) :
  next (ab_data w) g = (Yield chunk, g') ->
  Commands.show_pages (S fuel) g w =
  let w1 := with_stdout (stdout w ++ page_output chunk) w in
  match stdin w with
  | [] => (Raise EOFError, w1)
  | choice :: rest =>
      if String.eqb (lower choice) "q" then (Ok tt, with_stdin rest w1)
      else Commands.show_pages fuel g' (with_stdin rest w1)
  end.
Proof.
  intros Hnext. cbn [Commands.show_pages]. unfold_M. rewrite Hnext.
  rewrite mapM_print_eq. unfold input, page_output.
  cbn [stdin stdout with_stdout with_stdin]. rewrite <- app_assoc.
  destruct (stdin w) as [|choice rest]; [reflexivity |].
  by destruct (String.eqb (lower choice) "q").
Qed.

Lemma show_pages_end (fuel : nat) (g g' : gen) (w : world) :
  next (ab_data w) g = (StopIteration, g') ->
  Commands.show_pages (S fuel) g w = (Ok tt, w).
Proof.
  intros Hnext. cbn [Commands.show_pages]. unfold_M. by rewrite Hnext.
Qed.

Lemma shown_twice (w : world) (rest rest' : list string)
    (out out' : list string) :
  with_stdin rest'
    (with_stdout
       (stdout (with_stdin rest (with_stdout (stdout w ++ out) w)) ++ out')
       (with_stdin rest (with_stdout (stdout w ++ out) w))) =
  with_stdin rest' (with_stdout (stdout w ++ out ++ out') w).
Proof.
  unfold with_stdin, with_stdout. cbn. by rewrite <- app_assoc.
Qed.

Lemma shown_nothing (w : world) :
  with_stdin (stdin w) (with_stdout (stdout w ++ []) w) = w.
Proof. rewrite app_nil_r. by destruct w. Qed.

(** The pages that are shown while the answers say to go on. *)
Lemma show_pages_prefix (answers : list string) :
  forall (i : Z) (w : world) (fuel : nat) (rest : list string)
         (shown later : list (list record)),
    ab_data w = data ->
    (0 <= i + n)%Z ->
    pages (Z.to_nat n) (left_at i) = (shown ++ later)%list ->
    length shown = length answers ->
    List.Forall (fun a => lower a <> "q") answers ->
    stdin w = (answers ++ rest)%list ->
    exists j : Z,
      (0 <= j + n)%Z /\
      pages (Z.to_nat n) (left_at j) = later /\
      Commands.show_pages (length answers + fuel) (gen_at i) w =
      Commands.show_pages fuel (gen_at j)
        (with_stdin rest
           (with_stdout (stdout w ++ concat (map page_output shown)) w)).
Proof.
  induction answers as [|a answers IH];
    intros i w fuel rest shown later Hdata Hi Hpages Hlen Hgo Hin.
  - destruct shown; [| done]. exists i. split; [done |]. split; [done |].
    cbn [length Nat.add map concat]. simpl in Hin. rewrite <- Hin.
    by rewrite shown_nothing.
  - destruct shown as [|c shown]; [done |].
    apply List.Forall_cons_iff in Hgo as [Ha Hgo].
    assert (Hleft : left_at i <> []).
    { intros Hnil. rewrite Hnil, pages_nil in Hpages. done. }
    rewrite pages_cons in Hpages by (done || lia).
    cbn [app] in Hpages. injection Hpages as <- Hpages.
    rewrite <- left_at_next in Hpages by done.
    cbn [length Nat.add].
    rewrite (show_pages_turn _ (gen_at i) (gen_at (i + n))
               (take (Z.to_nat n) (left_at i)) w).
    2:{ rewrite Hdata, next_left_at by done.
        destruct (left_at i); [done | reflexivity]. }
    cbn zeta. rewrite Hin. cbn [app].
    apply String.eqb_neq in Ha. rewrite Ha.
    edestruct (IH (i + n)%Z
                 (with_stdin (answers ++ rest)
                    (with_stdout
                       (stdout w ++
                        page_output (take (Z.to_nat n) (left_at i))) w))
                 fuel rest shown later) as (j & Hj & Hlater & Hrun);
      [done | lia | exact Hpages | by injection Hlen | done | done |].
    exists j. split; [done |]. split; [done |].
    rewrite Hrun, shown_twice. reflexivity.
Qed.

Lemma pages_nil_inv (l : list record) :
  pages (Z.to_nat n) l = [] -> l = [].
Proof.
  destruct l as [|x l]; [done |]. by rewrite pages_cons by (done || lia).
Qed.

(** The state after [k] pages, with [rest] left to read. *)
Let shown (w : world) (k : nat) (rest : list string) : world :=
  with_stdin rest
    (with_stdout
       (stdout w ++ concat (map page_output (take k (pages (Z.to_nat n) recs))))
       w).

Lemma show_pages_from_start (fuel : nat) (w : world) :
  ab_data w = data ->
  Commands.show_pages fuel (iterator (Some n)) w =
  Commands.show_pages fuel (gen_at (- n)) w.
Proof.
  intros Hdata. destruct fuel as [|fuel]; [reflexivity |].
  assert (Hnext : next (ab_data w) (iterator (Some n)) =
                  next (ab_data w) (gen_at (- n))).
  { rewrite Hdata, next_iterator_left, next_left_at by lia.
    unfold left_at. replace (- n + n)%Z with 0%Z by lia.
    cbn [Z.to_nat drop]. reflexivity. }
  cbn [Commands.show_pages]. unfold_M. by rewrite Hnext.
Qed.

Lemma left_at_start : left_at (- n) = recs.
Proof. unfold left_at. by replace (- n + n)%Z with 0%Z by lia. Qed.

(** All pages are shown when every answer says to go on. *)
Lemma show_pages_all (fuel : nat) (w : world) (answers rest : list string) :
  ab_data w = data ->
  length (stdin w) < fuel ->
  stdin w = (answers ++ rest)%list ->
  List.Forall (fun a => lower a <> "q") answers ->
  length answers = length (pages (Z.to_nat n) recs) ->
  Commands.show_pages fuel (iterator (Some n)) w =
  (Ok tt, shown w (length (pages (Z.to_nat n) recs)) rest).
Proof.
  intros Hdata Hfuel Hin Hgo Hlen.
  rewrite show_pages_from_start by done.
  assert (Hl : length answers <= length (stdin w))
    by (rewrite Hin, length_app; lia).
  replace fuel with (length answers + S (fuel - length answers - 1)) by lia.
  edestruct (show_pages_prefix answers (- n)%Z w
               (S (fuel - length answers - 1)) rest
               (pages (Z.to_nat n) recs) [])
    as (j & Hj & Hlater & Hrun);
    [done | lia | by rewrite left_at_start, app_nil_r | done | done | done |].
  rewrite Hrun. apply pages_nil_inv in Hlater.
  rewrite (show_pages_end _ _
             (mkgen Finished (Some n) recs (Some (Z.of_nat (length recs)))
                (Some (j + n)%Z))).
  2:{ cbn [ab_data with_stdin with_stdout]. rewrite Hdata.
      rewrite next_left_at by done. by rewrite Hlater. }
  unfold shown. by rewrite firstn_all.
Qed.

(** The pages shown when the paging is ended by the answer [q] or by
    the end of the input, after answers that say to go on. *)
Lemma show_pages_cut (fuel : nat) (w : world) (answers tail : list string) :
  ab_data w = data ->
  length (stdin w) < fuel ->
  stdin w = (answers ++ tail)%list ->
  List.Forall (fun a => lower a <> "q") answers ->
  length answers < length (pages (Z.to_nat n) recs) ->
  match tail with
  | [] => True
  | q :: _ => lower q = "q"
  end ->
  Commands.show_pages fuel (iterator (Some n)) w =
  (match tail with
   | [] => Raise EOFError
   | _ :: _ => Ok tt
   end, shown w (S (length answers)) (List.tl tail)).
Proof.
  intros Hdata Hfuel Hin Hgo Hlen Htail.
  rewrite show_pages_from_start by done.
  assert (Hl : length answers <= length (stdin w))
    by (rewrite Hin, length_app; lia).
  replace fuel with (length answers + S (fuel - length answers - 1)) at 1
    by lia.
  set (ps := pages (Z.to_nat n) recs) in *.
  destruct (lookup_lt_is_Some_2 ps (length answers) Hlen) as [c Hc].
  edestruct (show_pages_prefix answers (- n)%Z w
               (S (fuel - length answers - 1)) tail
               (take (length answers) ps) (drop (length answers) ps))
    as (j & Hj & Hlater & Hrun);
    [done | lia | by rewrite left_at_start, take_drop
    | rewrite length_take; lia | done | done |].
  rewrite Hrun.
  rewrite (drop_S _ _ _ Hc) in Hlater.
  assert (Hleft : left_at j <> []).
  { intros Hnil. rewrite Hnil, pages_nil in Hlater. done. }
  rewrite pages_cons in Hlater by (done || lia).
  injection Hlater as Hc' Hlater.
  rewrite (show_pages_turn _ (gen_at j) (gen_at (j + n)) c).
  2:{ cbn [ab_data with_stdin with_stdout]. rewrite Hdata.
      rewrite next_left_at by done. rewrite Hc'.
      destruct (left_at j); [done | reflexivity]. }
  cbn zeta. cbn [stdin stdout with_stdin with_stdout].
  assert (Hout :
    ((stdout w ++ concat (map page_output (take (length answers) ps)))
     ++ page_output c)%list =
    (stdout w ++ concat (map page_output (take (S (length answers)) ps)))%list).
  { rewrite (take_S_r _ _ _ Hc), map_app, concat_app. cbn [map concat].
    by rewrite app_nil_r, <- app_assoc. }
  rewrite Hout. unfold shown. fold ps.
  destruct tail as [|q rest]; [reflexivity |].
  rewrite Htail. reflexivity.
Qed.

End Pager.

(** X19: The [show_all] command.  Without an argument it prints the whole book
    in one go.  With a page size [n >= 1] it prints the records page by
    page, [n] to a page, and asks after each page; it reads one answer for
    each page it has shown and stops after the last page, or after the
    first answer [q] (in either case), or when the input ends, which the
    wrapper turns into the help text.  An argument that is no number gives
    the text for a [ValueError].  The book is never changed. *)
Theorem show_all_command (fuel : nat) (w : world) :
  length (stdin w) < fuel ->
  Commands.call fuel h_show_all [] w =
    (Ok "",
     with_stdout
       (stdout w ++ [join nl (map Rec.str (Dict.values (ab_data w))) ++ nl]) w)
  /\
  (forall arg more msg,
     int arg = Raise (ValueError msg) ->
     Commands.call fuel h_show_all (arg :: more) w =
     (Ok "invalid format, type help", w)) /\
  (forall (arg : string) (more : list string) (n : Z),
     int arg = Ok n -> (0 < n)%Z ->
     let ps := pages (Z.to_nat n) (Dict.values (ab_data w)) in
     let shown (k : nat) (rest : list string) :=
       with_stdin rest
         (with_stdout (stdout w ++ concat (map page_output (take k ps))) w) in
     (forall answers rest,
        stdin w = (answers ++ rest)%list ->
        List.Forall (fun a => lower a <> "q") answers ->
        length answers = length ps ->
        Commands.call fuel h_show_all (arg :: more) w =
        (Ok "", shown (length ps) rest)) /\
     (forall answers q rest,
        stdin w = (answers ++ q :: rest)%list ->
        List.Forall (fun a => lower a <> "q") answers ->
        length answers < length ps ->
        lower q = "q" ->
        Commands.call fuel h_show_all (arg :: more) w =
        (Ok "", shown (S (length answers)) rest)) /\
     (List.Forall (fun a => lower a <> "q") (stdin w) ->
      length (stdin w) < length ps ->
      Commands.call fuel h_show_all (arg :: more) w =
      (Ok help, shown (S (length (stdin w))) []))).
Proof.
  intros Hfuel. split_and!.
  - destruct fuel as [|fuel]; [lia |]. reflexivity.
  - intros arg more msg Hint.
    unfold Commands.call, Commands.wrapped, Commands.apply,
      Commands.input_error, Commands.show_all.
    unfold_M. by rewrite Hint.
  - intros arg more n Hint Hn ps shown.
    assert (Hcall : forall res w',
      Commands.show_pages fuel (iterator (Some n)) w = (res, w') ->
      Commands.call fuel h_show_all (arg :: more) w =
      (match res with
       | Ok _ => Ok ""
       | Raise e => Ok (error_message e)
       | Unfinished => Unfinished
       end, w')).
    { intros res w' Hrun.
      pose proof (raises_Exceptions_show_pages fuel (iterator (Some n)) w)
        as Hexc.
      rewrite Hrun in Hexc. cbn [fst] in Hexc.
      unfold Commands.call, Commands.wrapped, Commands.apply,
        Commands.input_error, Commands.show_all.
      unfold_M. rewrite Hint, Hrun. destruct res as [[] | e |]; try done.
      by rewrite (Hexc e eq_refl). }
    split_and!.
    + intros answers rest Hin Hgo Hlen.
      by rewrite (Hcall _ _ (show_pages_all (ab_data w) n Hn fuel w answers
                               rest eq_refl Hfuel Hin Hgo Hlen)).
    + intros answers q rest Hin Hgo Hlen Hq.
      by rewrite (Hcall _ _ (show_pages_cut (ab_data w) n Hn fuel w answers
                               (q :: rest) eq_refl Hfuel Hin Hgo Hlen Hq)).
    + intros Hgo Hlen.
      assert (Hin : stdin w = (stdin w ++ [])%list) by by rewrite app_nil_r.
      by rewrite (Hcall _ _ (show_pages_cut (ab_data w) n Hn fuel w (stdin w)
                               [] eq_refl Hfuel Hin Hgo Hlen I)).
Qed.

Lemma show_all_command_witness :
  let rec_of (s : string) (i : nat) :=
    mkrecord (mkName s) [mkPhone i (PStr "+380991234567")] None in
  let w := mkworld [("ann", rec_of "ann" 0); ("bob", rec_of "bob" 1);
                    ("eve", rec_of "eve" 2)]
             ∅ [""; "Q"; "bye"] [] 3 (mkdate 2026 11 3) in
  Commands.call 4 h_show_all ["2"] w =
  (Ok "",
   with_stdin ["bye"]
     (with_stdout
        ["Name: ann, Phones: +380991234567" ++ nl;
         "Name: bob, Phones: +380991234567" ++ nl;
         "Press Enter to continue or 'q' to quit: ";
         "Name: eve, Phones: +380991234567" ++ nl;
         "Press Enter to continue or 'q' to quit: "] w)).
Proof.
  intros rec_of w.
  assert (Hfuel : length (stdin w) < 4) by (simpl; lia).
  destruct (show_all_command 4 w Hfuel) as (_ & _ & H).
  destruct (H "2" [] 2%Z eq_refl eq_refl) as (_ & Hq & _).
  apply (Hq [""] "Q" ["bye"]); [reflexivity | | simpl; lia | reflexivity].
  repeat constructor. discriminate.
Defined.

(** ** The [search] command *)


